(** * dynamic-websocket-pool: a shallow embedding of the pool node

    The node of [dynamic-websocket-pool.js] keeps a [Map] from connection
    ids to mutable connection records, opens one [ws] transport per record,
    re-dials after an unexpected close with a jittered exponential backoff
    and pings open transports at a fixed interval.

    The embedding follows the source function by function.  Everything the
    JavaScript closures share (the records, the transports, the timers) lives
    in one explicit store; the handlers are written in a small state-and-output
    monad; what the [ws] library and the timers do on their own is an input
    event of the step function. *)

From Stdlib Require Import ZArith String Ascii List Lia Bool DecimalString.
From stdpp Require Import base tactics option list.

Set Warnings "-register-all".
Local Open Scope string_scope.
Local Open Scope Z_scope.

(** ** JavaScript numbers

    Configuration values and counters are integers of milliseconds; the only
    place where the code can leave the integers is [Math.pow(2, attempt)],
    which is [Infinity] from attempt 1024 on.  [num] keeps the IEEE special
    values so that the products and minima of [nextBackoff] are the ones
    JavaScript computes.  Finite results are exact (integers below [2^53]
    are, in a double). *)

Inductive num : Type :=
  | Fin (z : Z)
  | PosInf
  | NegInf
  | NaN.

Definition double_limit : Z := 2 ^ 1024.

(** A finite product or sum that leaves the range of doubles is infinite. *)
Definition fin_or_inf (z : Z) : num :=
  if double_limit <=? z then PosInf
  else if z <=? - double_limit then NegInf
  else Fin z.

(** [Math.pow(2, attempt)] for a non-negative integer attempt. *)
Definition Math_pow2 (attempt : nat) : num :=
  if (attempt <? 1024)%nat then Fin (2 ^ Z.of_nat attempt) else PosInf.

(** [a * b] *)
Definition num_mul (a b : num) : num :=
  match a, b with
  | NaN, _ | _, NaN => NaN
  | Fin x, Fin y => fin_or_inf (x * y)
  | Fin x, PosInf | PosInf, Fin x =>
      if x =? 0 then NaN else if 0 <? x then PosInf else NegInf
  | Fin x, NegInf | NegInf, Fin x =>
      if x =? 0 then NaN else if 0 <? x then NegInf else PosInf
  | PosInf, PosInf | NegInf, NegInf => PosInf
  | PosInf, NegInf | NegInf, PosInf => NegInf
  end.

(** [a + b] *)
Definition num_add (a b : num) : num :=
  match a, b with
  | NaN, _ | _, NaN => NaN
  | Fin x, Fin y => fin_or_inf (x + y)
  | PosInf, NegInf | NegInf, PosInf => NaN
  | PosInf, _ | _, PosInf => PosInf
  | NegInf, _ | _, NegInf => NegInf
  end.

(** [Math.min(a, b)]: [NaN] as soon as one argument is. *)
Definition Math_min (a b : num) : num :=
  match a, b with
  | NaN, _ | _, NaN => NaN
  | NegInf, _ | _, NegInf => NegInf
  | PosInf, x | x, PosInf => x
  | Fin x, Fin y => Fin (Z.min x y)
  end.

(** [Math.random()] returns a double in [[0, 1)], a multiple of [2^-53].
    A draw is given by its numerator. *)
Definition random_unit : Z := 2 ^ 53.
Definition random_num (draw : Z) : Z := draw mod random_unit.

(** [Math.floor(base * 0.25 * Math.random())].  The product is taken
    exactly: [base * (1/4) * (m / 2^53)] floored is [base * m / 2^55]. *)
Definition floor_quarter_random (base : num) (draw : Z) : num :=
  match base with
  | NaN => NaN
  | Fin b => Fin ((b * random_num draw) / (4 * random_unit))
  | PosInf => if random_num draw =? 0 then NaN else PosInf
  | NegInf => if random_num draw =? 0 then NaN else NegInf
  end.

(** [`${delay}`] *)
Definition string_of_Z (z : Z) : string := NilZero.string_of_int (Z.to_int z).

Definition string_of_num (a : num) : string :=
  match a with
  | Fin z => string_of_Z z
  | PosInf => "Infinity"
  | NegInf => "-Infinity"
  | NaN => "NaN"
  end.

(** ** Node configuration *)

(** A numeric field of the editor configuration: absent (or the empty
    string), a number, or a numeric string such as ["0"].  A string that is
    not empty is truthy whatever number it spells. *)
Inductive cfgval : Type :=
  | CfgUndef
  | CfgNum (z : Z)
  | CfgStr (z : Z).

(** [Number(v || d)] *)
Definition Number_or (v : cfgval) (d : Z) : Z :=
  match v with
  | CfgUndef => d
  | CfgNum z => if z =? 0 then d else z
  | CfgStr z => z
  end.

(** ** Strings and buffers

    A JavaScript string is a sequence of code units; the embedding covers
    the code units below 256, one [ascii] each.  A [Buffer] is a list of
    bytes. *)

Definition buffer : Type := list Byte.byte.

Definition string_rev (s : string) : string :=
  string_of_list_ascii (rev (list_ascii_of_string s)).

(** White space and line terminators of [String.prototype.trim]. *)
Definition is_space (c : ascii) : bool :=
  let n := nat_of_ascii c in
  ((9 <=? n) && (n <=? 13) || (n =? 32) || (n =? 160))%nat.

Fixpoint trimStart (s : string) : string :=
  match s with
  | EmptyString => EmptyString
  | String c rest => if is_space c then trimStart rest else s
  end.

Definition trimEnd (s : string) : string := string_rev (trimStart (string_rev s)).

(** [text.trim()] *)
Definition trim (s : string) : string := trimEnd (trimStart s).

(** [t.startsWith(p)], [t.endsWith(p)] *)
Definition startsWith (t p : string) : bool := String.prefix p t.
Definition endsWith (t p : string) : bool :=
  String.prefix (string_rev p) (string_rev t).

(** [body.slice(0, n)] *)
Definition slice0 (n : nat) (s : string) : string := String.substring 0 n s.

(** [Buffer.from(text, 'utf8')]: a code unit below 128 is one byte, one
    from 128 to 255 is two. *)
Definition utf8_of_ascii (c : ascii) : buffer :=
  let n := N_of_ascii c in
  if (n <? 128)%N then [byte_of_ascii c]
  else [byte_of_ascii (ascii_of_N (192 + n / 64));
        byte_of_ascii (ascii_of_N (128 + n mod 64))].

Definition utf8_encode (s : string) : buffer :=
  flat_map utf8_of_ascii (list_ascii_of_string s).

(** [buf.toString('base64')] *)
Definition base64_alphabet : string :=
  "ABCDEFGHIJKLMNOPQRSTUVWXYZabcdefghijklmnopqrstuvwxyz0123456789+/".

Definition base64_digit (n : N) : ascii :=
  match String.get (N.to_nat n) base64_alphabet with
  | Some c => c
  | None => "="%char
  end.

Fixpoint base64_go (fuel : nat) (bs : list N) : string :=
  match fuel with
  | O => EmptyString
  | S fuel' =>
      match bs with
      | [] => EmptyString
      | [a] =>
          String (base64_digit (a / 4))
            (String (base64_digit (a mod 4 * 16)) "==")
      | [a; b] =>
          String (base64_digit (a / 4))
            (String (base64_digit (a mod 4 * 16 + b / 16))
               (String (base64_digit (b mod 16 * 4)) "="))
      | a :: b :: c :: rest =>
          String (base64_digit (a / 4))
            (String (base64_digit (a mod 4 * 16 + b / 16))
               (String (base64_digit (b mod 16 * 4 + c / 64))
                  (String (base64_digit (c mod 64)) (base64_go fuel' rest))))
      end%N
  end.

Definition base64 (b : buffer) : string :=
  base64_go (S (length b)) (map Byte.to_N b).

(** ** Values carried by messages *)

Inductive jsval : Type :=
  | JUndefined
  | JNull
  | JBool (b : bool)
  | JNum (z : Z)
  | JStr (s : string)
  | JBuf (b : buffer)
  | JArr (items : list jsval)
  | JObj (fields : list (string * jsval)).

(** [isObject(v)]: [v && typeof v === 'object' && !Buffer.isBuffer(v)] *)
Definition isObject (v : jsval) : bool :=
  match v with
  | JArr _ | JObj _ => true
  | _ => false
  end.

(** [JSON.stringify]: no white space between tokens.  [None] is
    [undefined].  Fields of an object come in property order and have
    distinct names. *)
Definition hex_digit (n : N) : ascii :=
  match String.get (N.to_nat n) "0123456789abcdef" with
  | Some c => c
  | None => "0"%char
  end.

Definition dquote : ascii := ascii_of_nat 34.
Definition bslash : ascii := ascii_of_nat 92.

Definition json_escape (c : ascii) : string :=
  let n := N_of_ascii c in
  if (n =? 34)%N then String bslash (String dquote "")
  else if (n =? 92)%N then String bslash (String bslash "")
  else if (n =? 8)%N then String bslash "b"
  else if (n =? 9)%N then String bslash "t"
  else if (n =? 10)%N then String bslash "n"
  else if (n =? 12)%N then String bslash "f"
  else if (n =? 13)%N then String bslash "r"
  else if (n <? 32)%N then
    String bslash
      ("u00" ++ String (hex_digit (n / 16)) (String (hex_digit (n mod 16)) ""))
  else String c "".

Fixpoint json_escape_all (s : string) : string :=
  match s with
  | EmptyString => EmptyString
  | String c rest => json_escape c ++ json_escape_all rest
  end.

Definition json_quote (s : string) : string :=
  String dquote (json_escape_all s ++ String dquote "").

Definition join_comma (parts : list string) : string := String.concat "," parts.

Definition json_of_byte (b : Byte.byte) : string :=
  string_of_Z (Z.of_N (Byte.to_N b)).

Fixpoint JSON_stringify (v : jsval) : option string :=
  match v with
  | JUndefined => None
  | JNull => Some "null"
  | JBool true => Some "true"
  | JBool false => Some "false"
  | JNum z => Some (string_of_Z z)
  | JStr s => Some (json_quote s)
  | JBuf b =>
      Some ("{" ++ json_quote "type" ++ ":" ++ json_quote "Buffer" ++ ","
                ++ json_quote "data" ++ ":["
                ++ join_comma (map json_of_byte b) ++ "]}")
  | JArr items =>
      Some ("[" ++ join_comma
                     (map (fun i => match JSON_stringify i with
                                    | Some s => s
                                    | None => "null"
                                    end) items) ++ "]")
  | JObj fields =>
      Some ("{" ++ join_comma
                     (flat_map (fun kv => match JSON_stringify (snd kv) with
                                          | Some s => [json_quote (fst kv) ++ ":" ++ s]
                                          | None => []
                                          end) fields) ++ "}")
  end.

(** ** Objects used as maps

    A [Map] and the properties of an object keep insertion order, and a
    [set] on a present key keeps its place: association lists with an
    in-place update. *)

Section Assoc.
Context {V : Type}.

Fixpoint assoc_get (k : string) (m : list (string * V)) : option V :=
  match m with
  | [] => None
  | (k', v) :: rest => if String.eqb k k' then Some v else assoc_get k rest
  end.

Fixpoint assoc_set (k : string) (v : V) (m : list (string * V)) : list (string * V) :=
  match m with
  | [] => [(k, v)]
  | (k', v') :: rest =>
      if String.eqb k k' then (k, v) :: rest else (k', v') :: assoc_set k v rest
  end.

Fixpoint assoc_delete (k : string) (m : list (string * V)) : list (string * V) :=
  match m with
  | [] => []
  | (k', v') :: rest =>
      if String.eqb k k' then assoc_delete k rest else (k', v') :: assoc_delete k rest
  end.
End Assoc.

Definition headers : Type := list (string * string).

(** Truthiness of an optional string: present and not empty. *)
Definition truthy (o : option string) : bool :=
  match o with
  | Some s => negb (String.eqb s "")
  | None => false
  end.

(** ** Connection options, records, transports, timers *)

(** The [opts] object of [openConnection]. *)
Record opts : Type := {
  o_url : string;
  o_protocols : option (list string);
  o_headers : option headers;
  o_username : option string;
  o_password : option string;
  o_bearerToken : option string;
  o_origin : option string;
  o_userAgent : option string;
  o_rejectUnauthorized : option bool;
  o_ca : option string;
  o_cert : option string;
  o_key : option string;
  o_passphrase : option string;
  o_servername : option string;
  o_handshakeTimeout : option Z;
  o_timeoutMs : option Z;
  o_perMessageDeflate : option bool;
  o_proxy : option string;
  o_pingInterval : option Z
}.

(** The options object handed to [new WS(...)]; [None] is a property that
    is absent or [undefined]. *)
Record ws_options : Type := {
  wo_headers : headers;
  wo_rejectUnauthorized : bool;
  wo_ca : option string;
  wo_cert : option string;
  wo_key : option string;
  wo_passphrase : option string;
  wo_servername : option string;
  wo_handshakeTimeout : option Z;
  wo_perMessageDeflate : option bool;
  wo_agent : option string
}.

(** The [record] object of [openConnection].  [rec_ws], [rec_pingTimer] and
    [rec_reconnectTimer] are references into the stores of transports and
    timers. *)
Record conn : Type := {
  rec_id : string;
  rec_url : string;
  rec_protocols : option (list string);
  rec_headers : headers;
  rec_opts : opts;
  rec_ws : option nat;
  rec_pingInterval : Z;
  rec_pingTimer : option nat;
  rec_reconnectAttempts : nat;
  rec_manualClose : bool;
  rec_reconnectTimer : option nat
}.

Inductive readyState : Type := CONNECTING | OPEN | CLOSING | CLOSED.

Definition readyState_eqb (a b : readyState) : bool :=
  match a, b with
  | CONNECTING, CONNECTING | OPEN, OPEN | CLOSING, CLOSING | CLOSED, CLOSED => true
  | _, _ => false
  end.

(** A [ws] object.  [ws_rec] is the record its handlers close over,
    [ws_url] their [urlForMeta]. *)
Record socket : Type := {
  ws_rec : nat;
  ws_readyState : readyState;
  ws_url : string;
  ws_protocols : option (list string);
  ws_ctorOpts : ws_options
}.

Inductive timer_kind : Type := ReconnectTimer | PingTimer.

(** A handle of [setTimeout] (reconnect) or [setInterval] (ping); [tm_rec]
    is the record its callback closes over.  A handle is pending until it is
    cleared or, for a timeout, has fired. *)
Record timer : Type := {
  tm_kind : timer_kind;
  tm_rec : nat;
  tm_delay : num;
  tm_pending : bool
}.

(** The store: the [connections] map and every object the closures share. *)
Record state : Type := {
  connections : list (string * nat);
  records : list conn;
  sockets : list socket;
  timers : list timer;
  draws : nat
}.

(** ** What the node emits *)

Record list_entry : Type := {
  le_url : string;
  le_state : string;
  le_reconnectAttempts : nat;
  le_pingInterval : Z
}.

Inductive out_payload : Type :=
  | PBool (b : bool)
  | PValue (v : jsval)
  | PError (message : string) (code : option string)
  | PHttp (message : string) (statusCode : Z) (hdrs : headers) (body : string)
  | PList (entries : list (string * list_entry))
  | PIdUrl (id url : string)
  | PId (id : string).

Inductive out_meta : Type :=
  | MNone
  | MUrl (url : string)
  | MClose (code : Z) (reason : string) (url : string).

Record out_msg : Type := {
  websocketId : string;
  topic : string;
  payload : out_payload;
  meta : out_meta
}.

Inductive output : Type :=
  | NodeSend (m : out_msg)
  | NodeStatus (fill shape text : string)
  | NodeWarn (text : string)
  | NodeError (text : string)
  | WsSend (w : nat) (data : jsval)
  | WsPing (w : nat)
  | WsClose (w : nat) (code : Z) (reason : string)
  | Done (err : option string).

(** ** What the node receives *)

(** [msg.websocketId] ([None] when it is not a string) and [msg.payload]. *)
Record msg : Type := {
  msg_websocketId : option string;
  msg_payload : jsval
}.

(** A frame as the [message] listener gets it. *)
Inductive wsdata : Type :=
  | DataStr (text : string)
  | DataBuf (b : buffer).

Inductive event : Type :=
  | Input (m : msg)
  | NodeClosed
  | WsOpened (w : nat)
  | WsMessage (w : nat) (data : wsdata) (isBinary : bool)
  | WsClosed (w : nat) (code : Z) (reason : string)
  | WsErrored (w : nat) (message : string) (code : option string)
  | WsUnexpected (w : nat) (statusCode : Z) (hdrs : headers) (body : string)
  | WsClosing (w : nat)
  | TimerFired (t : nat).

Inductive initial_connections : Type :=
  | InitAbsent
  | InitInvalid
  | InitEntries (entries : list (string * opts)).

Record config : Type := {
  cfg_pingInterval : cfgval;
  cfg_reconnectMin : cfgval;
  cfg_reconnectMax : cfgval;
  cfg_timeoutMs : cfgval;
  cfg_initialConnections : initial_connections
}.

(** What the platform decides: [JSON.parse] ([None] when it throws), the
    error message of [new WS(url, ...)] and of [new HttpsProxyAgent(url)]
    when they throw, and the draws of [Math.random()] in call order. *)
Record env : Type := {
  JSON_parse : string -> option jsval;
  ws_ctor_error : string -> option string;
  proxy_error : string -> option string;
  random : nat -> Z;
  node_config : config
}.

(** ** Node-level settings, [nextBackoff] *)

Definition pingIntervalDefault (c : config) : Z :=
  Number_or (cfg_pingInterval c) 30000.
Definition reconnectMin (c : config) : Z :=
  Z.max 0 (Number_or (cfg_reconnectMin c) 1000).
Definition reconnectMax (c : config) : Z :=
  Z.max (reconnectMin c) (Number_or (cfg_reconnectMax c) 30000).
Definition timeoutMs (c : config) : Z :=
  Z.max 0 (Number_or (cfg_timeoutMs c) 10000).

(** [base] of [nextBackoff] *)
Definition backoff_base (c : config) (attempt : nat) : num :=
  Math_min (Fin (reconnectMax c)) (num_mul (Fin (reconnectMin c)) (Math_pow2 attempt)).

Definition nextBackoff (c : config) (attempt : nat) (draw : Z) : num :=
  let base := backoff_base c attempt in
  let jitter := floor_quarter_random base draw in
  Math_min (Fin (reconnectMax c)) (num_add base jitter).

(** [makeAuthHeader] *)
Definition makeAuthHeader (username password : string) : string :=
  "Basic " ++ base64 (utf8_encode (username ++ ":" ++ password)).

(** ** Updating records and the store *)

Definition set_ws (v : option nat) (r : conn) : conn :=
  {| rec_id := rec_id r; rec_url := rec_url r; rec_protocols := rec_protocols r;
     rec_headers := rec_headers r; rec_opts := rec_opts r; rec_ws := v;
     rec_pingInterval := rec_pingInterval r; rec_pingTimer := rec_pingTimer r;
     rec_reconnectAttempts := rec_reconnectAttempts r;
     rec_manualClose := rec_manualClose r;
     rec_reconnectTimer := rec_reconnectTimer r |}.

Definition set_pingTimer (v : option nat) (r : conn) : conn :=
  {| rec_id := rec_id r; rec_url := rec_url r; rec_protocols := rec_protocols r;
     rec_headers := rec_headers r; rec_opts := rec_opts r; rec_ws := rec_ws r;
     rec_pingInterval := rec_pingInterval r; rec_pingTimer := v;
     rec_reconnectAttempts := rec_reconnectAttempts r;
     rec_manualClose := rec_manualClose r;
     rec_reconnectTimer := rec_reconnectTimer r |}.

Definition set_reconnectAttempts (v : nat) (r : conn) : conn :=
  {| rec_id := rec_id r; rec_url := rec_url r; rec_protocols := rec_protocols r;
     rec_headers := rec_headers r; rec_opts := rec_opts r; rec_ws := rec_ws r;
     rec_pingInterval := rec_pingInterval r; rec_pingTimer := rec_pingTimer r;
     rec_reconnectAttempts := v;
     rec_manualClose := rec_manualClose r;
     rec_reconnectTimer := rec_reconnectTimer r |}.

Definition set_manualClose (v : bool) (r : conn) : conn :=
  {| rec_id := rec_id r; rec_url := rec_url r; rec_protocols := rec_protocols r;
     rec_headers := rec_headers r; rec_opts := rec_opts r; rec_ws := rec_ws r;
     rec_pingInterval := rec_pingInterval r; rec_pingTimer := rec_pingTimer r;
     rec_reconnectAttempts := rec_reconnectAttempts r;
     rec_manualClose := v;
     rec_reconnectTimer := rec_reconnectTimer r |}.

Definition set_reconnectTimer (v : option nat) (r : conn) : conn :=
  {| rec_id := rec_id r; rec_url := rec_url r; rec_protocols := rec_protocols r;
     rec_headers := rec_headers r; rec_opts := rec_opts r; rec_ws := rec_ws r;
     rec_pingInterval := rec_pingInterval r; rec_pingTimer := rec_pingTimer r;
     rec_reconnectAttempts := rec_reconnectAttempts r;
     rec_manualClose := rec_manualClose r;
     rec_reconnectTimer := v |}.

Definition set_readyState (v : readyState) (k : socket) : socket :=
  {| ws_rec := ws_rec k; ws_readyState := v; ws_url := ws_url k;
     ws_protocols := ws_protocols k; ws_ctorOpts := ws_ctorOpts k |}.

Definition set_pending (v : bool) (t : timer) : timer :=
  {| tm_kind := tm_kind t; tm_rec := tm_rec t; tm_delay := tm_delay t;
     tm_pending := v |}.

Definition with_connections (f : list (string * nat) -> list (string * nat))
    (s : state) : state :=
  {| connections := f (connections s); records := records s;
     sockets := sockets s; timers := timers s; draws := draws s |}.

Definition with_records (f : list conn -> list conn) (s : state) : state :=
  {| connections := connections s; records := f (records s);
     sockets := sockets s; timers := timers s; draws := draws s |}.

Definition with_sockets (f : list socket -> list socket) (s : state) : state :=
  {| connections := connections s; records := records s;
     sockets := f (sockets s); timers := timers s; draws := draws s |}.

Definition with_timers (f : list timer -> list timer) (s : state) : state :=
  {| connections := connections s; records := records s;
     sockets := sockets s; timers := f (timers s); draws := draws s |}.

Definition with_draws (f : nat -> nat) (s : state) : state :=
  {| connections := connections s; records := records s;
     sockets := sockets s; timers := timers s; draws := f (draws s) |}.

(** [rec.field = v] on the record at reference [i]. *)
Definition upd_rec (i : nat) (f : conn -> conn) : state -> state :=
  with_records (alter f i).

(** ** The monad of the handlers: the store is threaded, what is emitted is
    collected in order. *)

Definition M (A : Type) : Type := state -> A * state * list output.

#[global] Instance M_ret : MRet M := fun A a s => (a, s, []).

#[global] Instance M_bind : MBind M := fun A B f c s =>
  let '(a, s1, o1) := c s in
  let '(b, s2, o2) := f a s1 in
  (b, s2, (o1 ++ o2)%list).

Definition gets {A : Type} (f : state -> A) : M A := fun s => (f s, s, []).
Definition modify (f : state -> state) : M unit := fun s => (tt, f s, []).
Definition emit (o : output) : M unit := fun s => (tt, s, [o]).

Fixpoint for_each {A : Type} (f : A -> M unit) (l : list A) : M unit :=
  match l with
  | [] => mret tt
  | a :: rest => f a ;; for_each f rest
  end.

(** Run [k] on the record behind reference [i]. *)
Definition with_rec (i : nat) (k : conn -> M unit) : M unit :=
  r ← gets (fun s => records s !! i);
  match r with
  | Some r => k r
  | None => mret tt
  end.

(** [clearTimeout(h)], [clearInterval(h)]: [h] is [null] or a handle. *)
Definition clearTimer (h : option nat) : M unit :=
  match h with
  | Some t => modify (with_timers (alter (set_pending false) t))
  | None => mret tt
  end.

(** [setTimeout], [setInterval]: a fresh pending handle. *)
Definition newTimer (k : timer_kind) (i : nat) (delay : num) : M nat :=
  t ← gets (fun s => length (timers s));
  modify (with_timers (fun ts => ts ++ [{| tm_kind := k; tm_rec := i;
                                          tm_delay := delay; tm_pending := true |}])%list);;
  mret t.

Definition newSocket (k : socket) : M nat :=
  w ← gets (fun s => length (sockets s));
  modify (with_sockets (fun ws => ws ++ [k])%list);;
  mret w.

Definition is_up (st : readyState) : bool :=
  match st with
  | CONNECTING | OPEN => true
  | _ => false
  end.

(** [if (rec.ws && (readyState === CONNECTING || readyState === OPEN))
      rec.ws.close(1000, 'closed by node-red')]: the call leaves the
    transport in [CLOSING]. *)
Definition close_if_up (h : option nat) : M unit :=
  match h with
  | None => mret tt
  | Some w =>
      k ← gets (fun s => sockets s !! w);
      match k with
      | Some k =>
          if is_up (ws_readyState k) then
            modify (with_sockets (alter (set_readyState CLOSING) w));;
            emit (WsClose w 1000 "closed by node-red")
          else mret tt
      | None => mret tt
      end
  end.

(** ** Reading a command object *)

(** [v.k] *)
Definition field (k : string) (v : jsval) : jsval :=
  match v with
  | JObj fields => default JUndefined (assoc_get k fields)
  | _ => JUndefined
  end.

Definition as_string (v : jsval) : option string :=
  match v with JStr s => Some s | _ => None end.
Definition as_bool (v : jsval) : option bool :=
  match v with JBool b => Some b | _ => None end.
Definition as_int (v : jsval) : option Z :=
  match v with JNum z => Some z | _ => None end.
Definition as_strings (v : jsval) : option (list string) :=
  match v with JArr items => Some (omap as_string items) | _ => None end.
Definition as_headers (v : jsval) : option headers :=
  match v with
  | JObj fields =>
      Some (omap (fun kv => match as_string (snd kv) with
                            | Some s => Some (fst kv, s)
                            | None => None
                            end) fields)
  | _ => None
  end.

(** The [opts] literal of the [create] case.  Ids, urls and credentials are
    strings, [pingInterval] a number: a field of another type reads as
    absent. *)
Definition create_opts (url : string) (cmd : jsval) : opts :=
  {| o_url := url;
     o_protocols := as_strings (field "protocols" cmd);
     o_headers := as_headers (field "headers" cmd);
     o_username := as_string (field "username" cmd);
     o_password := as_string (field "password" cmd);
     o_bearerToken := None; o_origin := None; o_userAgent := None;
     o_rejectUnauthorized := as_bool (field "rejectUnauthorized" cmd);
     o_ca := None; o_cert := None; o_key := None; o_passphrase := None;
     o_servername := None; o_handshakeTimeout := None; o_timeoutMs := None;
     o_perMessageDeflate := None; o_proxy := None;
     o_pingInterval := as_int (field "pingInterval" cmd) |}.

(** [cmd.action === name] *)
Definition is_action (action : option string) (name : string) : bool :=
  match action with
  | Some a => String.eqb a name
  | None => false
  end.

(** [x !== false] *)
Definition not_false (o : option bool) : bool :=
  match o with Some false => false | _ => true end.

(** [Number(a || b || 0) || undefined] *)
Definition first_nonzero (a b : option Z) : option Z :=
  match a with
  | Some x => if x =? 0 then (match b with
                              | Some y => if y =? 0 then None else Some y
                              | None => None
                              end)
              else Some x
  | None => match b with
            | Some y => if y =? 0 then None else Some y
            | None => None
            end
  end.

Definition readyState_name (st : readyState) : string :=
  match st with
  | CONNECTING => "CONNECTING"
  | OPEN => "OPEN"
  | CLOSING => "CLOSING"
  | CLOSED => "CLOSED"
  end.

(** [rec.ws] with its object, when the record has a transport. *)
Definition record_ws (s : state) (r : conn) : option (nat * socket) :=
  w ← rec_ws r; k ← sockets s !! w; Some (w, k).

(** The state of a record as [listState] reports it: the [readyState] of
    its transport, [CLOSED] without one. *)
Definition record_state (s : state) (r : conn) : readyState :=
  match record_ws s r with
  | Some (_, k) => ws_readyState k
  | None => CLOSED
  end.

(** [connections.get(id)] *)
Definition entry (id : string) (s : state) : option conn :=
  i ← assoc_get id (connections s); records s !! i.

Definition entry_state (id : string) (s : state) : option readyState :=
  r ← entry id s; Some (record_state s r).

(** The headers that [openConnection] builds from the options. *)
Definition open_headers (o : opts) : headers :=
  let hs := default [] (o_headers o) in
  let hs := match o_username o, o_password o with
            | Some u, Some p =>
                if truthy (Some u) then assoc_set "Authorization" (makeAuthHeader u p) hs
                else hs
            | _, _ => hs
            end in
  let hs := match o_bearerToken o with
            | Some tok =>
                if truthy (Some tok) && negb (truthy (assoc_get "Authorization" hs))
                then assoc_set "Authorization" ("Bearer " ++ tok) hs
                else hs
            | None => hs
            end in
  let hs := if truthy (o_origin o)
            then assoc_set "Origin" (default "" (o_origin o)) hs else hs in
  if truthy (o_userAgent o)
  then assoc_set "User-Agent" (default "" (o_userAgent o)) hs else hs.

(** The [wsOptions] object of [openConnection]; [agent] is the proxy agent,
    when one could be built. *)
Definition new_options (o : opts) (agent : option string) : ws_options :=
  {| wo_headers := open_headers o;
     wo_rejectUnauthorized := not_false (o_rejectUnauthorized o);
     wo_ca := o_ca o; wo_cert := o_cert o; wo_key := o_key o;
     wo_passphrase := o_passphrase o; wo_servername := o_servername o;
     wo_handshakeTimeout := first_nonzero (o_handshakeTimeout o) (o_timeoutMs o);
     wo_perMessageDeflate := Some (default true (o_perMessageDeflate o));
     wo_agent := agent |}.

(** The [record] object of [openConnection]. *)
Definition new_record (c : config) (id : string) (o : opts) : conn :=
  {| rec_id := id; rec_url := o_url o; rec_protocols := o_protocols o;
     rec_headers := open_headers o; rec_opts := o; rec_ws := None;
     rec_pingInterval := default (pingIntervalDefault c) (o_pingInterval o);
     rec_pingTimer := None; rec_reconnectAttempts := 0;
     rec_manualClose := false; rec_reconnectTimer := None |}.

(** ** The node *)

Section Pool.

Variable E : env.

Let cfg : config := node_config E.

(** [Math.random()] *)
Definition Math_random : M Z :=
  n ← gets draws;
  modify (with_draws S);;
  mret (random E n).

(** [parseMaybeJSON(text)] for a string [text] *)
Definition parseMaybeJSON (text : string) : jsval :=
  let t := trim text in
  if String.eqb t "" then JStr text
  else if (startsWith t "{" && endsWith t "}") || (startsWith t "[" && endsWith t "]")
  then match JSON_parse E t with
       | Some v => v
       | None => JStr text
       end
  else JStr text.

Definition scheduleReconnect (i : nat) : M unit :=
  with_rec i (fun r =>
    if rec_manualClose r then mret tt
    else
      clearTimer (rec_reconnectTimer r);;
      draw ← Math_random;
      let delay := nextBackoff cfg (rec_reconnectAttempts r) draw in
      modify (upd_rec i (set_reconnectAttempts (S (rec_reconnectAttempts r))));;
      emit (NodeStatus "yellow" "ring"
              ("reconnect " ++ rec_id r ++ " in " ++ string_of_num delay ++ "ms"));;
      t ← newTimer ReconnectTimer i delay;
      modify (upd_rec i (set_reconnectTimer (Some t)))).

Definition setupPing (i : nat) : M unit :=
  with_rec i (fun r =>
    clearTimer (rec_pingTimer r);;
    if 0 <? rec_pingInterval r then
      t ← newTimer PingTimer i (Fin (rec_pingInterval r));
      modify (upd_rec i (set_pingTimer (Some t)))
    else mret tt).

(** The options of a dial that is given none: a reconnect. *)
Definition reconnect_options (r : conn) : ws_options :=
  {| wo_headers := rec_headers r;
     wo_rejectUnauthorized := not_false (o_rejectUnauthorized (rec_opts r));
     wo_ca := None; wo_cert := None; wo_key := None; wo_passphrase := None;
     wo_servername := None;
     wo_handshakeTimeout := Some (timeoutMs cfg);
     wo_perMessageDeflate := None;
     wo_agent := None |}.

Definition connect (i : nat) (wsOptions : option ws_options) : M unit :=
  with_rec i (fun r =>
    let ctorOpts := match wsOptions with
                    | Some o => o
                    | None => reconnect_options r
                    end in
    match ws_ctor_error E (rec_url r) with
    | Some err =>
        emit (NodeError ("connect error for " ++ rec_id r ++ ": " ++ err));;
        scheduleReconnect i
    | None =>
        w ← newSocket {| ws_rec := i; ws_readyState := CONNECTING;
                         ws_url := rec_url r; ws_protocols := rec_protocols r;
                         ws_ctorOpts := ctorOpts |};
        modify (upd_rec i (set_ws (Some w)));;
        emit (NodeStatus "yellow" "dot" ("connecting " ++ rec_id r))
    end).

Definition closeConnection (id : string) (remove silent : bool) : M unit :=
  found ← gets (fun s => assoc_get id (connections s));
  match found with
  | None => mret tt
  | Some i =>
      modify (upd_rec i (set_manualClose true));;
      with_rec i (fun r =>
        clearTimer (rec_reconnectTimer r);;
        clearTimer (rec_pingTimer r);;
        close_if_up (rec_ws r));;
      (if remove then modify (with_connections (assoc_delete id)) else mret tt);;
      (if silent then mret tt
       else emit (NodeStatus "grey" "ring" ("closed " ++ id)))
  end.

Definition openConnection (id : string) (o : opts) : M unit :=
  existing ← gets (fun s => assoc_get id (connections s));
  match existing with
  | Some _ => closeConnection id false true
  | None => mret tt
  end;;
  agent ← (if truthy (o_proxy o) then
             match proxy_error E (default "" (o_proxy o)) with
             | None => mret (o_proxy o)
             | Some err =>
                 emit (NodeWarn ("invalid proxy url for " ++ id ++ ": " ++ err));;
                 mret None
             end
           else mret None);
  i ← gets (fun s => length (records s));
  modify (with_records (fun rs => rs ++ [new_record cfg id o])%list);;
  modify (with_connections (assoc_set id i));;
  connect i (Some (new_options o agent)).

Definition sendTo (id : string) (v : jsval) : M unit :=
  found ← gets (fun s => r ← entry id s; record_ws s r);
  match found with
  | Some (w, k) =>
      if readyState_eqb (ws_readyState k) OPEN then
        let data := if isObject v
                    then match JSON_stringify v with
                         | Some text => JStr text
                         | None => JUndefined
                         end
                    else v in
        emit (WsSend w data)
      else emit (NodeWarn ("send failed: " ++ id ++ " not open"))
  | None => emit (NodeWarn ("send failed: " ++ id ++ " not open"))
  end.

Definition listState : M unit :=
  out ← gets (fun s =>
    omap (fun kv =>
      match records s !! snd kv with
      | Some r =>
          Some (fst kv,
                {| le_url := rec_url r;
                   le_state := readyState_name (record_state s r);
                   le_reconnectAttempts := rec_reconnectAttempts r;
                   le_pingInterval := rec_pingInterval r |})
      | None => None
      end) (connections s));
  emit (NodeSend {| websocketId := "CMD"; topic := "list";
                    payload := PList out; meta := MNone |}).

(** *** The listeners that [connect] installs on a transport [k] *)

(** [ws.on('open')] *)
Definition on_open (k : socket) : M unit :=
  let i := ws_rec k in
  modify (upd_rec i (set_reconnectAttempts 0%nat));;
  setupPing i;;
  with_rec i (fun r =>
    emit (NodeStatus "green" "dot" ("open " ++ rec_id r));;
    emit (NodeSend {| websocketId := rec_id r; topic := "open";
                      payload := PBool true; meta := MUrl (ws_url k) |})).

(** [Buffer.from(data)] *)
Definition Buffer_from (data : wsdata) : buffer :=
  match data with
  | DataBuf b => b
  | DataStr text => utf8_encode text
  end.

(** [isBinary || Buffer.isBuffer(data) ? Buffer.from(data)
                                       : parseMaybeJSON(data.toString())] *)
Definition message_payload (data : wsdata) (isBinary : bool) : jsval :=
  match data with
  | DataBuf b => JBuf (Buffer_from data)
  | DataStr text => if isBinary then JBuf (Buffer_from data) else parseMaybeJSON text
  end.

(** [ws.on('message')] *)
Definition on_message (k : socket) (data : wsdata) (isBinary : bool) : M unit :=
  with_rec (ws_rec k) (fun r =>
    emit (NodeSend {| websocketId := rec_id r; topic := "message";
                      payload := PValue (message_payload data isBinary);
                      meta := MUrl (ws_url k) |})).

(** [ws.on('close')]; [reason] is the text of the reason. *)
Definition on_close (k : socket) (code : Z) (reason : string) : M unit :=
  let i := ws_rec k in
  with_rec i (fun r =>
    clearTimer (rec_pingTimer r);;
    emit (NodeSend {| websocketId := rec_id r; topic := "close";
                      payload := PBool false;
                      meta := MClose code reason (ws_url k) |});;
    emit (NodeStatus (if rec_manualClose r then "grey" else "red") "ring"
            ("closed " ++ rec_id r ++ " (" ++ string_of_Z code ++ ")"));;
    if rec_manualClose r then mret tt else scheduleReconnect i).

(** [ws.on('error')] *)
Definition on_error (k : socket) (message : string) (code : option string) : M unit :=
  with_rec (ws_rec k) (fun r =>
    emit (NodeSend {| websocketId := rec_id r; topic := "error";
                      payload := PError message code;
                      meta := MUrl (ws_url k) |})).

(** [ws.on('unexpected-response')], once the response has ended; [body]
    is the text of the whole response body. *)
Definition on_unexpected_response (k : socket) (statusCode : Z) (hdrs : headers)
    (body : string) : M unit :=
  with_rec (ws_rec k) (fun r =>
    emit (NodeSend {| websocketId := rec_id r; topic := "error";
                      payload := PHttp ("Unexpected server response: "
                                          ++ string_of_Z statusCode)
                                   statusCode hdrs (slice0 2048 body);
                      meta := MUrl (rec_url r) |});;
    emit (NodeStatus "red" "ring"
            ("HTTP " ++ string_of_Z statusCode ++ " on " ++ rec_id r))).

(** The callback of the ping interval of record [i]. *)
Definition on_ping (i : nat) : M unit :=
  with_rec i (fun r =>
    found ← gets (fun s => record_ws s r);
    match found with
    | Some (w, k) =>
        if readyState_eqb (ws_readyState k) OPEN then emit (WsPing w) else mret tt
    | None => mret tt
    end).

(** *** [node.on('input')] *)

(** [throw new Error(text)], caught at the end of the listener. *)
Definition throw (text : string) : M unit :=
  emit (NodeError text);;
  emit (Done (Some text)).

Definition ack (t : string) (p : out_payload) : M unit :=
  emit (NodeSend {| websocketId := "CMD"; topic := t; payload := p; meta := MNone |}).

(** The [switch (cmd.action)] of the listener, case by case. *)
Definition on_command (cmd : jsval) : M unit :=
  let action := as_string (field "action" cmd) in
  let id := as_string (field "id" cmd) in
  let url := as_string (field "url" cmd) in
  if is_action action "create" then
    match id, url with
    | Some id, Some url =>
        if negb (truthy (Some id)) || negb (truthy (Some url))
        then throw "create requires id and url"
        else
          openConnection id (create_opts url cmd);;
          ack "create" (PIdUrl id url);;
          emit (Done None)
    | _, _ => throw "create requires id and url"
    end
  else if is_action action "close" then
    match id with
    | Some id =>
        if negb (truthy (Some id)) then throw "close requires id"
        else
          closeConnection id false false;;
          ack "close" (PId id);;
          emit (Done None)
    | None => throw "close requires id"
    end
  else if is_action action "delete" then
    match id with
    | Some id =>
        if negb (truthy (Some id)) then throw "delete requires id"
        else
          closeConnection id true false;;
          ack "delete" (PId id);;
          emit (Done None)
    | None => throw "delete requires id"
    end
  else if is_action action "closeAll" then
    keys ← gets (fun s => map fst (connections s));
    for_each (fun id => closeConnection id false false) keys;;
    ack "closeAll" (PBool true);;
    emit (Done None)
  else
    listState;;
    emit (Done None).

Definition missing_websocketId : string :=
  "Missing websocketId (or use websocketId = " ++ String dquote "CMD"
    ++ String dquote " for management).".

Definition on_input (m : msg) : M unit :=
  match msg_websocketId m with
  | Some wsid =>
      if String.eqb wsid "CMD" then on_command (msg_payload m)
      else if negb (String.eqb wsid "") then
        sendTo wsid (msg_payload m);;
        emit (Done None)
      else
        emit (NodeWarn missing_websocketId);;
        emit (Done None)
  | None =>
      emit (NodeWarn missing_websocketId);;
      emit (Done None)
  end.

(** [node.on('close')] *)
Definition on_node_close : M unit :=
  keys ← gets (fun s => map fst (connections s));
  for_each (fun id => closeConnection id true true) keys;;
  emit (Done None).

(** *** The constructor of the node *)

Definition empty_state : state :=
  {| connections := []; records := []; sockets := []; timers := []; draws := 0 |}.

Definition node_start : M unit :=
  emit (NodeStatus "grey" "dot" "idle");;
  match cfg_initialConnections cfg with
  | InitAbsent => mret tt
  | InitInvalid => emit (NodeWarn "Invalid initialConnections JSON")
  | InitEntries entries =>
      for_each (fun kv => openConnection (fst kv) (snd kv)) entries
  end.

Definition initial_state : state := snd (fst (node_start empty_state)).

(** *** One turn of the event loop

    An event is a message on the input, the shutdown of the node, a timer
    that fires, or something a transport does.  The [ws] library sets
    [readyState] before it calls a listener; [WsClosing] is the change to
    [CLOSING] that it makes on its own (the peer starts the closing
    handshake, or the connection fails), for which no listener runs.
    [None]: the event cannot happen in this state. *)

Definition on_socket (w : nat) (ok : readyState -> bool) (next : readyState)
    (h : socket -> M unit) (s : state) : option (state * list output) :=
  match sockets s !! w with
  | Some k =>
      if ok (ws_readyState k) then
        let '(_, s', out) :=
          (modify (with_sockets (alter (set_readyState next) w));; h k) s in
        Some (s', out)
      else None
  | None => None
  end.

Definition run_handler (h : M unit) (s : state) : option (state * list output) :=
  let '(_, s', out) := h s in Some (s', out).

Definition step (e : event) (s : state) : option (state * list output) :=
  match e with
  | Input m => run_handler (on_input m) s
  | NodeClosed => run_handler on_node_close s
  | WsOpened w =>
      on_socket w (fun st => readyState_eqb st CONNECTING) OPEN on_open s
  | WsMessage w data isBinary =>
      match sockets s !! w with
      | Some k =>
          match ws_readyState k with
          | OPEN | CLOSING => run_handler (on_message k data isBinary) s
          | _ => None
          end
      | None => None
      end
  | WsClosed w code reason =>
      on_socket w (fun st => negb (readyState_eqb st CLOSED)) CLOSED
        (fun k => on_close k code reason) s
  | WsErrored w message code =>
      match sockets s !! w with
      | Some k =>
          if readyState_eqb (ws_readyState k) CLOSED then None
          else run_handler (on_error k message code) s
      | None => None
      end
  | WsUnexpected w statusCode hdrs body =>
      match sockets s !! w with
      | Some k =>
          match ws_readyState k with
          | CONNECTING | CLOSING =>
              run_handler (on_unexpected_response k statusCode hdrs body) s
          | _ => None
          end
      | None => None
      end
  | WsClosing w =>
      on_socket w is_up CLOSING (fun _ => mret tt) s
  | TimerFired t =>
      match timers s !! t with
      | Some tm =>
          if tm_pending tm then
            match tm_kind tm with
            | ReconnectTimer =>
                run_handler
                  (modify (with_timers (alter (set_pending false) t));;
                   connect (tm_rec tm) None) s
            | PingTimer => run_handler (on_ping (tm_rec tm)) s
            end
          else None
      | None => None
      end
  end.

(** A run: the events in order, what was emitted in order. *)
Fixpoint run (es : list event) (s : state) : option (state * list output) :=
  match es with
  | [] => Some (s, [])
  | e :: rest =>
      match step e s with
      | Some (s1, o1) =>
          match run rest s1 with
          | Some (s2, o2) => Some (s2, (o1 ++ o2)%list)
          | None => None
          end
      | None => None
      end
  end.

Definition reachable (s : state) : Prop :=
  exists es out, run es initial_state = Some (s, out).

End Pool.


(** ** Vocabulary of the properties *)






(** *** The store after a handler *)

(** After [clearTimeout(h)] or [clearInterval(h)]. *)
Definition cleared (h : option nat) (s : state) : state :=
  match h with
  | Some t => with_timers (alter (set_pending false) t) s
  | None => s
  end.

(** After [scheduleReconnect(rec)] for a record [r] at reference [i] that is
    not closed by the user. *)
Definition scheduled (E : env) (i : nat) (r : conn) (s : state) : state :=
  upd_rec i (set_reconnectTimer (Some (length (timers s))))
    (with_timers
       (fun ts => ts ++ [{| tm_kind := ReconnectTimer; tm_rec := i;
                            tm_delay := nextBackoff (node_config E)
                                          (rec_reconnectAttempts r)
                                          (random E (draws s));
                            tm_pending := true |}])%list
       (upd_rec i (set_reconnectAttempts (S (rec_reconnectAttempts r)))
          (with_draws S (cleared (rec_reconnectTimer r) s)))).

(** After a dial of record [r] at reference [i] whose constructor returns. *)
Definition dialed (i : nat) (r : conn) (o : ws_options) (s : state) : state :=
  upd_rec i (set_ws (Some (length (sockets s))))
    (with_sockets
       (fun ws => ws ++ [{| ws_rec := i; ws_readyState := CONNECTING;
                            ws_url := rec_url r; ws_protocols := rec_protocols r;
                            ws_ctorOpts := o |}])%list s).

(** After [connect(rec, wsOptions)]. *)
Definition connected (E : env) (i : nat) (r : conn) (wsOptions : option ws_options)
    (s : state) : state :=
  match ws_ctor_error E (rec_url r) with
  | Some _ => scheduled E i r s
  | None => dialed i r (default (reconnect_options E r) wsOptions) s
  end.

(** After the [close] listener of a transport [w] of record [r] at [i]. *)
Definition closed (E : env) (w i : nat) (r : conn) (s : state) : state :=
  let s1 := cleared (rec_pingTimer r)
              (with_sockets (alter (set_readyState CLOSED) w) s) in
  if rec_manualClose r then s1 else scheduled E i r s1.

(** After the [open] listener of a transport [w] of record [r] at [i]. *)
Definition opened (w i : nat) (r : conn) (s : state) : state :=
  let s1 := cleared (rec_pingTimer r)
              (upd_rec i (set_reconnectAttempts 0%nat)
                 (with_sockets (alter (set_readyState OPEN) w) s)) in
  if 0 <? rec_pingInterval r then
    upd_rec i (set_pingTimer (Some (length (timers s))))
      (with_timers
         (fun ts => ts ++ [{| tm_kind := PingTimer; tm_rec := i;
                              tm_delay := Fin (rec_pingInterval r);
                              tm_pending := true |}])%list s1)
  else s1.

(** After the teardown of [closeConnection] on the record [r] at [i]. *)
Definition torn_down (i : nat) (r : conn) (s : state) : state :=
  let s1 := cleared (rec_pingTimer r)
              (cleared (rec_reconnectTimer r) (upd_rec i (set_manualClose true) s)) in
  match record_ws s r with
  | Some (w, k) =>
      if is_up (ws_readyState k)
      then with_sockets (alter (set_readyState CLOSING) w) s1
      else s1
  | None => s1
  end.

(** What the node shows for a reconnect that it schedules. *)
Definition reconnect_status (E : env) (r : conn) (s : state) : output :=
  NodeStatus "yellow" "ring"
    ("reconnect " ++ rec_id r ++ " in "
       ++ string_of_num (nextBackoff (node_config E) (rec_reconnectAttempts r)
                           (random E (draws s)))
       ++ "ms").

(** What [connect(rec, wsOptions)] emits. *)
Definition connect_outputs (E : env) (r : conn) (s : state) : list output :=
  match ws_ctor_error E (rec_url r) with
  | Some err =>
      [NodeError ("connect error for " ++ rec_id r ++ ": " ++ err);
       reconnect_status E r s]
  | None => [NodeStatus "yellow" "dot" ("connecting " ++ rec_id r)]
  end.

(** What the [close] listener of a transport [k] of record [r] emits. *)
Definition close_event (r : conn) (k : socket) (code : Z) (reason : string) : out_msg :=
  {| websocketId := rec_id r; topic := "close"; payload := PBool false;
     meta := MClose code reason (ws_url k) |}.

Definition close_outputs (E : env) (r : conn) (k : socket) (code : Z)
    (reason : string) (s : state) : list output :=
  [NodeSend (close_event r k code reason);
   NodeStatus (if rec_manualClose r then "grey" else "red") "ring"
     ("closed " ++ rec_id r ++ " (" ++ string_of_Z code ++ ")")]
  ++ (if rec_manualClose r then [] else [reconnect_status E r s]).

(** What the [open] listener of a transport [k] of record [r] emits. *)
Definition open_event (r : conn) (k : socket) : out_msg :=
  {| websocketId := rec_id r; topic := "open"; payload := PBool true;
     meta := MUrl (ws_url k) |}.

(** What the [unexpected-response] listener emits. *)
Definition http_error_event (r : conn) (statusCode : Z) (hdrs : headers)
    (body : string) : out_msg :=
  {| websocketId := rec_id r; topic := "error";
     payload := PHttp ("Unexpected server response: " ++ string_of_Z statusCode)
                  statusCode hdrs (slice0 2048 body);
     meta := MUrl (rec_url r) |}.

(** What the teardown of [closeConnection] asks of the transport of [r]. *)
Definition teardown_outputs (s : state) (r : conn) : list output :=
  match record_ws s r with
  | Some (w, k) =>
      if is_up (ws_readyState k) then [WsClose w 1000 "closed by node-red"] else []
  | None => []
  end.

(** After the new record of [openConnection] is stored under [id]. *)
Definition installed (c : config) (id : string) (o : opts) (s : state) : state :=
  with_connections (assoc_set id (length (records s)))
    (with_records (fun rs => rs ++ [new_record c id o])%list s).

(** The proxy agent of [openConnection]. *)
Definition proxy_agent (E : env) (o : opts) : option string :=
  if truthy (o_proxy o) then
    match proxy_error E (default "" (o_proxy o)) with
    | None => o_proxy o
    | Some _ => None
    end
  else None.

Definition proxy_outputs (E : env) (id : string) (o : opts) : list output :=
  if truthy (o_proxy o) then
    match proxy_error E (default "" (o_proxy o)) with
    | None => []
    | Some err => [NodeWarn ("invalid proxy url for " ++ id ++ ": " ++ err)]
    end
  else [].

(** *** The invariant of the store *)

(** A timer of record [i] is pending. *)
Definition pending (s : state) (kind : timer_kind) (i t : nat) : Prop :=
  exists tm, timers s !! t = Some tm /\ tm_pending tm = true /\
             tm_kind tm = kind /\ tm_rec tm = i.

(** Every reference leads somewhere; a transport that is not closed is the
    transport of its record; a pending timer is the timer of its record; a
    reconnect is pending only for a record that the user has not closed and
    whose transport is closed; a ping interval is pending only for such a
    record with a positive interval whose transport is open or closing, and
    is pending for every one whose transport is open; the transport of a
    record closed by the user is neither connecting nor open; a record that
    the user has not closed is the entry of its id. *)
Record Inv (s : state) : Prop := {
  inv_entry : forall id i,
    assoc_get id (connections s) = Some i ->
    exists r, records s !! i = Some r /\ rec_id r = id;
  inv_ws : forall i r w,
    records s !! i = Some r -> rec_ws r = Some w ->
    exists k, sockets s !! w = Some k /\ ws_rec k = i;
  inv_rtimer : forall i r t,
    records s !! i = Some r -> rec_reconnectTimer r = Some t ->
    exists tm, timers s !! t = Some tm /\ tm_rec tm = i /\ tm_kind tm = ReconnectTimer;
  inv_ptimer : forall i r t,
    records s !! i = Some r -> rec_pingTimer r = Some t ->
    exists tm, timers s !! t = Some tm /\ tm_rec tm = i /\ tm_kind tm = PingTimer;
  inv_live : forall w k,
    sockets s !! w = Some k -> ws_readyState k <> CLOSED ->
    exists r, records s !! ws_rec k = Some r /\ rec_ws r = Some w;
  inv_reconnect : forall t tm,
    timers s !! t = Some tm -> tm_pending tm = true -> tm_kind tm = ReconnectTimer ->
    exists r, records s !! tm_rec tm = Some r /\ rec_reconnectTimer r = Some t /\
              rec_manualClose r = false /\ record_state s r = CLOSED;
  inv_ping : forall t tm,
    timers s !! t = Some tm -> tm_pending tm = true -> tm_kind tm = PingTimer ->
    exists r, records s !! tm_rec tm = Some r /\ rec_pingTimer r = Some t /\
              rec_manualClose r = false /\ 0 < rec_pingInterval r /\
              (record_state s r = OPEN \/ record_state s r = CLOSING);
  inv_open : forall i r,
    records s !! i = Some r -> record_state s r = OPEN -> 0 < rec_pingInterval r ->
    exists t tm, rec_pingTimer r = Some t /\ timers s !! t = Some tm /\
                 tm_pending tm = true;
  inv_manual : forall i r,
    records s !! i = Some r -> rec_manualClose r = true ->
    is_up (record_state s r) = false;
  inv_mapped : forall i r,
    records s !! i = Some r -> rec_manualClose r = false ->
    assoc_get (rec_id r) (connections s) = Some i
}.

(** Record [i] has nothing in flight: its transport is closed and none of
    its timers is pending. *)
Definition at_rest (s : state) (i : nat) : Prop :=
  (forall r, records s !! i = Some r -> record_state s r = CLOSED) /\
  (forall t tm, timers s !! t = Some tm -> tm_rec tm = i -> tm_pending tm = false).

(** Every record that carries the id is closed by the user. *)
Definition all_manual (id : string) (s : state) : Prop :=
  forall i r, records s !! i = Some r -> rec_id r = id -> rec_manualClose r = true.


(** The [readyState] behind a transport reference, [CLOSED] without one. *)
Definition socket_state (ws : list socket) (h : option nat) : readyState :=
  match h with
  | Some w => match ws !! w with
              | Some k => ws_readyState k
              | None => CLOSED
              end
  | None => CLOSED
  end.

(** The part of the invariant that speaks of record [i], of the transports
    and of the timers that belong to it. *)
Record local (s : state) (i : nat) : Prop := {
  loc_ws : forall r w,
    records s !! i = Some r -> rec_ws r = Some w ->
    exists k, sockets s !! w = Some k /\ ws_rec k = i;
  loc_rtimer : forall r t,
    records s !! i = Some r -> rec_reconnectTimer r = Some t ->
    exists tm, timers s !! t = Some tm /\ tm_rec tm = i /\ tm_kind tm = ReconnectTimer;
  loc_ptimer : forall r t,
    records s !! i = Some r -> rec_pingTimer r = Some t ->
    exists tm, timers s !! t = Some tm /\ tm_rec tm = i /\ tm_kind tm = PingTimer;
  loc_live : forall w k,
    sockets s !! w = Some k -> ws_rec k = i -> ws_readyState k <> CLOSED ->
    exists r, records s !! i = Some r /\ rec_ws r = Some w;
  loc_reconnect : forall t tm,
    timers s !! t = Some tm -> tm_rec tm = i -> tm_pending tm = true ->
    tm_kind tm = ReconnectTimer ->
    exists r, records s !! i = Some r /\ rec_reconnectTimer r = Some t /\
              rec_manualClose r = false /\ record_state s r = CLOSED;
  loc_ping : forall t tm,
    timers s !! t = Some tm -> tm_rec tm = i -> tm_pending tm = true ->
    tm_kind tm = PingTimer ->
    exists r, records s !! i = Some r /\ rec_pingTimer r = Some t /\
              rec_manualClose r = false /\ 0 < rec_pingInterval r /\
              (record_state s r = OPEN \/ record_state s r = CLOSING);
  loc_open : forall r,
    records s !! i = Some r -> record_state s r = OPEN -> 0 < rec_pingInterval r ->
    exists t tm, rec_pingTimer r = Some t /\ timers s !! t = Some tm /\
                 tm_pending tm = true;
  loc_manual : forall r,
    records s !! i = Some r -> rec_manualClose r = true ->
    is_up (record_state s r) = false
}.

(** Two stores hold the same records, transports and timers, apart from
    record [i] and what belongs to it. *)
Definition agree_except (i : nat) (s s' : state) : Prop :=
  (forall j, j <> i -> records s' !! j = records s !! j) /\
  (forall w k, ws_rec k <> i -> sockets s' !! w = Some k <-> sockets s !! w = Some k) /\
  (forall t tm, tm_rec tm <> i -> timers s' !! t = Some tm <-> timers s !! t = Some tm).

(** The entries lead to records of their id, and every record that the user
    has not closed is an entry. *)
Definition entries_ok (s : state) : Prop :=
  (forall id i, assoc_get id (connections s) = Some i ->
                exists r, records s !! i = Some r /\ rec_id r = id) /\
  (forall i r, records s !! i = Some r -> rec_manualClose r = false ->
               assoc_get (rec_id r) (connections s) = Some i).

(** *** Reasoning about handlers *)

(** The store after a handler, what it emitted. *)
Definition exec {A : Type} (c : M A) (s : state) : state := snd (fst (c s)).
Definition emitted {A : Type} (c : M A) (s : state) : list output := snd (c s).

(** The handler keeps a property of the store. *)
Definition keeps {A : Type} (J : state -> Prop) (c : M A) : Prop :=
  forall s, J s -> J (exec c s).

(** Everything the handler emits has [P]. *)
Definition emits {A : Type} (P : output -> Prop) (c : M A) : Prop :=
  forall s, Forall P (emitted c s).

(** A property of the store that no assignment of the handlers breaks,
    as long as the records created carry an id that is [allowed]. *)
Record stable (J : state -> Prop) (allowed : string -> Prop) : Prop := {
  st_timers : forall f s, J s -> J (with_timers f s);
  st_sockets : forall f s, J s -> J (with_sockets f s);
  st_draws : forall f s, J s -> J (with_draws f s);
  st_manual : forall i s, J s -> J (upd_rec i (set_manualClose true) s);
  st_ws : forall i v s, J s -> J (upd_rec i (set_ws v) s);
  st_pingTimer : forall i v s, J s -> J (upd_rec i (set_pingTimer v) s);
  st_attempts : forall i v s, J s -> J (upd_rec i (set_reconnectAttempts v) s);
  st_reconnectTimer : forall i v s, J s -> J (upd_rec i (set_reconnectTimer v) s);
  st_delete : forall id s, J s -> J (with_connections (assoc_delete id) s);
  st_record : forall c id o s,
    allowed id -> J s -> J (with_records (fun rs => rs ++ [new_record c id o])%list s);
  st_set : forall id i s, J s -> J (with_connections (assoc_set id i) s)
}.

(** The id that a [create] command on the input names, if the message is
    one. *)
Definition created_id (e : event) : option string :=
  match e with
  | Input m =>
      if match msg_websocketId m with
         | Some wsid => String.eqb wsid "CMD"
         | None => false
         end
      then if is_action (as_string (field "action" (msg_payload m))) "create"
           then as_string (field "id" (msg_payload m))
           else None
      else None
  | _ => None
  end.

(** The output is not an event for the flow. *)
Definition not_event (o : output) : Prop :=
  match o with
  | NodeSend _ => False
  | _ => True
  end.

(** The output is not an [open] event. *)
Definition not_open_event (o : output) : Prop :=
  match o with
  | NodeSend m => topic m <> "open"
  | _ => True
  end.

(** The output is not a ping. *)
Definition not_ping (o : output) : Prop :=
  match o with
  | WsPing _ => False
  | _ => True
  end.

(** A message on the control channel: [{websocketId: "CMD", payload: cmd}]. *)
Definition control (cmd : jsval) : event :=
  Input {| msg_websocketId := Some "CMD"; msg_payload := cmd |}.
(** ** Concrete platforms, configurations and inputs *)

Module Demo.

(** A parser for the two texts that the runs below receive. *)
Definition parse (t : string) : option jsval :=
  if String.eqb t "{}" then Some (JObj [])
  else if String.eqb t "[1]" then Some (JArr [JNum 1])
  else None.

(** [new WS(url)] throws on a url that is not a WebSocket url. *)
Definition ctor_error (url : string) : option string :=
  if String.prefix "ws://" url || String.prefix "wss://" url then None
  else Some ("Invalid URL: " ++ url).

(** Every setting left to its default: 1000 ms, 30000 ms. *)
Definition cfg_default : config :=
  {| cfg_pingInterval := CfgUndef; cfg_reconnectMin := CfgUndef;
     cfg_reconnectMax := CfgUndef; cfg_timeoutMs := CfgUndef;
     cfg_initialConnections := InitAbsent |}.


Definition platform (c : config) : env :=
  {| JSON_parse := parse; ws_ctor_error := ctor_error;
     proxy_error := fun _ => None; random := fun _ => 0;
     node_config := c |}.

Definition E0 : env := platform cfg_default.

(** [{websocketId: "CMD", payload: {action: "create", id, url}}] *)
Definition create (id url : string) : event :=
  Input {| msg_websocketId := Some "CMD";
           msg_payload := JObj [("action", JStr "create"); ("id", JStr id);
                                ("url", JStr url)] |}.

(** [{websocketId: "CMD", payload: {action, id}}] *)
Definition command (action id : string) : event :=
  Input {| msg_websocketId := Some "CMD";
           msg_payload := JObj [("action", JStr action); ("id", JStr id)] |}.

(** [{websocketId: id, payload: v}] *)
Definition send (id : string) (v : jsval) : event :=
  Input {| msg_websocketId := Some id; msg_payload := v |}.

(** The store after a run from the start of the node. *)
Definition state_after (E : env) (es : list event) : state :=
  match run E es (initial_state E) with
  | Some (s, _) => s
  | None => empty_state
  end.

(** Two entries, both open. *)
Definition two_open : list event :=
  [create "a" "ws://x"; WsOpened 0; create "b" "ws://y"; WsOpened 1].

(** One entry, open. *)
Definition one_open : list event := [create "a" "ws://x"; WsOpened 0].

(** An entry declared in the editor with TLS material, a proxy, its own
    handshake timeout and compression switched off. *)
Definition tls_opts : opts :=
  {| o_url := "wss://x"; o_protocols := None;
     o_headers := Some [("X-Key", "1")];
     o_username := None; o_password := None; o_bearerToken := None;
     o_origin := None; o_userAgent := None;
     o_rejectUnauthorized := Some false;
     o_ca := Some "CA"; o_cert := Some "CERT"; o_key := Some "KEY";
     o_passphrase := Some "secret"; o_servername := Some "x.example";
     o_handshakeTimeout := Some 5000; o_timeoutMs := None;
     o_perMessageDeflate := Some false;
     o_proxy := Some "http://proxy:3128";
     o_pingInterval := None |}.

Definition cfg_tls : config :=
  {| cfg_pingInterval := CfgUndef; cfg_reconnectMin := CfgUndef;
     cfg_reconnectMax := CfgUndef; cfg_timeoutMs := CfgUndef;
     cfg_initialConnections := InitEntries [("a", tls_opts)] |}.


(** An entry whose peer has started the closing handshake. *)
Definition peer_closing : list event :=
  [create "a" "ws://x"; WsOpened 0; WsClosing 0].

(** An entry closed by the user while open. *)
Definition closed_by_user : list event :=
  [create "a" "ws://x"; WsOpened 0; command "close" "a"].




End Demo.

(** ** Vocabulary of further properties *)

(** [!v] for a field of a command: [undefined], [null], [false], [0] and
    the empty string. *)
Definition falsy (v : jsval) : bool :=
  match v with
  | JUndefined | JNull | JBool false => true
  | JNum z => z =? 0
  | JStr s => String.eqb s ""
  | _ => false
  end.

(** The output is not the call of [done]. *)
Definition not_done (o : output) : Prop :=
  match o with
  | Done _ => False
  | _ => True
  end.

(** The handler ends with [done()], called once. *)
Definition finishes (c : M unit) : Prop :=
  forall s, exists pre, emitted c s = (pre ++ [Done None])%list /\ Forall not_done pre.




(** Nothing is in flight: no timer is pending and no transport is
    connecting or open. *)
Definition quiescent (s : state) : Prop :=
  (forall t tm, timers s !! t = Some tm -> tm_pending tm = false) /\
  (forall w k, sockets s !! w = Some k -> is_up (ws_readyState k) = false).

(** Every record is closed by the user. *)
Definition all_closed (s : state) : Prop :=
  forall i r, records s !! i = Some r -> rec_manualClose r = true.

(** What the node does when it shuts down: it closes transports and calls
    [done]. *)
Definition shutdown_output (o : output) : Prop :=
  match o with
  | WsClose _ _ _ | Done _ => True
  | _ => False
  end.

(** The event is a [create] command on the input. *)
Definition creates (e : event) : bool :=
  match e with
  | Input m =>
      match msg_websocketId m with
      | Some wsid =>
          String.eqb wsid "CMD"
          && is_action (as_string (field "action" (msg_payload m))) "create"
      | None => false
      end
  | _ => false
  end.

(** A call on a transport that the state of the transport allows: [send]
    and [ping] on an open transport, [close] on one that is connecting or
    open. *)
Definition legal_call (s : state) (o : output) : Prop :=
  match o with
  | WsSend w _ | WsPing w =>
      exists k, sockets s !! w = Some k /\ ws_readyState k = OPEN
  | WsClose w _ _ =>
      exists k, sockets s !! w = Some k /\ is_up (ws_readyState k) = true
  | _ => True
  end.

(** The output is not a call on a transport. *)
Definition no_call (o : output) : Prop :=
  match o with
  | WsSend _ _ | WsPing _ | WsClose _ _ _ => False
  | _ => True
  end.

(** Every call that the handler makes is allowed by the store in which the
    handler starts. *)
Definition calls_allowed {A : Type} (c : M A) : Prop :=
  forall s, Forall (legal_call s) (emitted c s).

(** A transport that is connecting or open after the handler was the same
    before it: the handler makes no transport and revives none. *)
Definition no_revival {A : Type} (c : M A) : Prop :=
  forall s w k, sockets (exec c s) !! w = Some k -> is_up (ws_readyState k) = true ->
                sockets s !! w = Some k.

(** The settings of a record that are fixed when it is created. *)
Definition same_settings (r r' : conn) : Prop :=
  rec_id r' = rec_id r /\ rec_url r' = rec_url r /\
  rec_protocols r' = rec_protocols r /\ rec_headers r' = rec_headers r /\
  rec_opts r' = rec_opts r /\ rec_pingInterval r' = rec_pingInterval r.

(** Record [i] is there, with the settings of [r]. *)
Definition settled (i : nat) (r : conn) (s : state) : Prop :=
  exists r', records s !! i = Some r' /\ same_settings r r'.

(** Traffic: a message for a connection, a frame, an error or a rejected
    handshake reported by a transport, a ping interval that fires. *)
Definition traffic (s : state) (e : event) : Prop :=
  match e with
  | Input m =>
      match msg_websocketId m with
      | Some wsid => wsid <> "CMD"
      | None => True
      end
  | WsMessage _ _ _ | WsErrored _ _ _ | WsUnexpected _ _ _ _ => True
  | TimerFired t =>
      exists tm, timers s !! t = Some tm /\ tm_kind tm = PingTimer
  | _ => False
  end.

(** A record whose transport is open has its attempt counter at zero. *)
Definition fresh_backoff (s : state) : Prop :=
  forall i r, records s !! i = Some r -> record_state s r = OPEN ->
              rec_reconnectAttempts r = 0%nat.

(** The invariant of the store, with the counters of the open records. *)
Definition sound (s : state) : Prop := Inv s /\ fresh_backoff s.

(** Number of calls of [close] on transport [w] among the outputs. *)
Fixpoint closes (w : nat) (out : list output) : nat :=
  match out with
  | [] => 0
  | WsClose w' _ _ :: rest => (if Nat.eqb w w' then 1 else 0) + closes w rest
  | _ :: rest => closes w rest
  end.

(** How often [close] can still be called on transport [w]: once if the
    transport is connecting or open, or is not made yet, never otherwise. *)
Definition credit (s : state) (w : nat) : nat :=
  match sockets s !! w with
  | Some k => if is_up (ws_readyState k) then 1 else 0
  | None => 1
  end.

(** The handler pays for each call of [close] on a transport. *)
Definition spends {A : Type} (c : M A) : Prop :=
  forall s w, (closes w (emitted c s) + credit (exec c s) w <= credit s w)%nat.

(** The value of a digit of base64. *)
Definition base64_value (c : ascii) : option N :=
  let n := N_of_ascii c in
  if ((65 <=? n) && (n <=? 90))%N then Some (n - 65)%N
  else if ((97 <=? n) && (n <=? 122))%N then Some (n - 71)%N
  else if ((48 <=? n) && (n <=? 57))%N then Some (n + 4)%N
  else if (n =? 43)%N then Some 62%N
  else if (n =? 47)%N then Some 63%N
  else None.

Definition is_pad (c : ascii) : bool := Ascii.eqb c "=".

(** Reading base64 with padding back into bytes, as a server does with
    the token of a [Basic] authorization. *)
Fixpoint base64_decode_go (s : string) : option (list N) :=
  match s with
  | EmptyString => Some []
  | String c1 (String c2 (String c3 (String c4 rest))) =>
      match base64_value c1, base64_value c2 with
      | Some d1, Some d2 =>
          if is_pad c3 then
            if is_pad c4 && String.eqb rest "" then Some [d1 * 4 + d2 / 16]%N else None
          else
            match base64_value c3 with
            | Some d3 =>
                if is_pad c4 then
                  if String.eqb rest ""
                  then Some [d1 * 4 + d2 / 16; d2 mod 16 * 16 + d3 / 4]%N
                  else None
                else
                  match base64_value c4, base64_decode_go rest with
                  | Some d4, Some bs =>
                      Some (d1 * 4 + d2 / 16 :: d2 mod 16 * 16 + d3 / 4
                              :: d3 mod 4 * 64 + d4 :: bs)%N
                  | _, _ => None
                  end
            | None => None
            end
      | _, _ => None
      end
  | _ => None
  end.

Fixpoint bytes_of (ns : list N) : option buffer :=
  match ns with
  | [] => Some []
  | n :: rest =>
      match Byte.of_N n, bytes_of rest with
      | Some b, Some bs => Some (b :: bs)
      | _, _ => None
      end
  end.

Definition base64_decode (s : string) : option buffer :=
  match base64_decode_go s with
  | Some ns => bytes_of ns
  | None => None
  end.

(** A character of a base64 token: a letter, a digit, [+], [/] or [=]. *)
Definition token_char (c : ascii) : bool :=
  match base64_value c with
  | Some _ => true
  | None => is_pad c
  end.

Fixpoint all_chars (p : ascii -> bool) (s : string) : bool :=
  match s with
  | EmptyString => true
  | String c rest => p c && all_chars p rest
  end.

(** The transport that reports the event. *)
Definition socket_of (e : event) : option nat :=
  match e with
  | WsOpened w | WsMessage w _ _ | WsClosed w _ _ | WsErrored w _ _
  | WsUnexpected w _ _ _ | WsClosing w => Some w
  | _ => None
  end.

(** The output is no event, or the answer to a command. *)
Definition answer_only (o : output) : Prop :=
  match o with
  | NodeSend m => websocketId m = "CMD" /\ meta m = MNone
  | _ => True
  end.

(** The topics of the events of a connection. *)
Definition connection_topic (t : string) : Prop :=
  t = "open" \/ t = "message" \/ t = "close" \/ t = "error".

(** Record [i] is not forgotten: if the user has not closed it and its
    transport is closed, its reconnect timer is pending. *)
Definition tended_at (s : state) (i : nat) : Prop :=
  forall r, records s !! i = Some r -> rec_manualClose r = false ->
            record_state s r = CLOSED ->
            exists t, rec_reconnectTimer r = Some t /\ pending s ReconnectTimer i t.

Definition tended (s : state) : Prop := forall i, tended_at s i.

(** The invariant of the store, with the reconnects of the closed records. *)
Definition kept (s : state) : Prop := Inv s /\ tended s.
(** ** More concrete inputs *)

Module Scene.

(** [{websocketId: "CMD", payload: {action}}] *)
Definition plain (action : string) : jsval := JObj [("action", JStr action)].

(** A [create] command without a url. *)
Definition create_without_url : jsval :=
  JObj [("action", JStr "create"); ("id", JStr "a")].

(** A [create] command with a url that is not a WebSocket url. *)
Definition create_http : jsval :=
  JObj [("action", JStr "create"); ("id", JStr "a"); ("url", JStr "http://x")].


Definition close_of (id : string) : jsval :=
  JObj [("action", JStr "close"); ("id", JStr id)].


(** An entry with a url that is not a WebSocket url. *)
Definition rejected_url : list event := [control create_http].

(** An entry closed twice by the user. *)
Definition closed_twice : list event :=
  [control (close_of "a"); control (close_of "a")].

End Scene.
(** * Properties *)

(** ** The backoff *)












(** ** Single turns of the event loop *)

#[local] Arguments nextBackoff : simpl never.
#[local] Arguments string_of_num : simpl never.
#[local] Arguments string_of_Z : simpl never.
#[local] Arguments String.append : simpl never.
#[local] Arguments JSON_stringify : simpl never.
#[local] Arguments slice0 : simpl never.
#[local] Arguments trim : simpl never.

Ltac munfold :=
  cbv beta iota zeta delta
    [mbind mret M_bind M_ret gets modify emit with_rec run_handler
     newTimer newSocket].

Lemma eqb_false_of_ne (a b : string) : a <> b -> String.eqb a b = false.
Proof. intros H. apply String.eqb_neq. exact H. Qed.

Section Steps.

Context (E : env).

Lemma sendTo_not_open (id : string) (v : jsval) (s : state) :
  entry_state id s <> Some OPEN ->
  sendTo id v s = (tt, s, [NodeWarn ("send failed: " ++ id ++ " not open")]).
Proof.
  intros Hst. unfold sendTo, entry_state, record_state in *. munfold. simpl in Hst.
  destruct (entry id s) as [r |]; simpl in *; [| reflexivity].
  destruct (record_ws s r) as [[w k] |]; simpl in *; [| reflexivity].
  destruct (ws_readyState k); simpl; try reflexivity. congruence.
Qed.

Lemma on_input_data (id : string) (v : jsval) (s : state) :
  id <> "CMD" -> id <> "" ->
  on_input E {| msg_websocketId := Some id; msg_payload := v |} s
  = (sendTo id v ;; emit (Done None)) s.
Proof.
  intros H1 H2. unfold on_input. simpl.
  rewrite (eqb_false_of_ne _ _ H1), (eqb_false_of_ne _ _ H2). reflexivity.
Qed.

(** C5: a message for a name whose entry is missing, or whose transport is
    not open, leaves the store as it is, calls [done()] without an error and
    emits one warning: nothing is handed to a transport. *)
Theorem send_to_closed_entry_warns (id : string) (v : jsval) (s : state) :
  id <> "CMD" -> id <> "" ->
  entry_state id s <> Some OPEN ->
  step E (Input {| msg_websocketId := Some id; msg_payload := v |}) s
  = Some (s, [NodeWarn ("send failed: " ++ id ++ " not open"); Done None]).
Proof.
  intros H1 H2 Hst. unfold step, run_handler.
  rewrite on_input_data by assumption. munfold.
  rewrite sendTo_not_open by assumption. reflexivity.
Qed.




(** *** Inbound frames *)











(** *** Handlers as functions of the store *)

Lemma clearTimer_run (h : option nat) (s : state) :
  clearTimer h s = (tt, cleared h s, []).
Proof. destruct h; reflexivity. Qed.

Lemma cleared_records h s : records (cleared h s) = records s.
Proof. destruct h; reflexivity. Qed.
Lemma cleared_sockets h s : sockets (cleared h s) = sockets s.
Proof. destruct h; reflexivity. Qed.
Lemma cleared_connections h s : connections (cleared h s) = connections s.
Proof. destruct h; reflexivity. Qed.
Lemma cleared_draws h s : draws (cleared h s) = draws s.
Proof. destruct h; reflexivity. Qed.
Lemma cleared_timers_length h s : length (timers (cleared h s)) = length (timers s).
Proof. destruct h; simpl; [apply length_alter | reflexivity]. Qed.

Lemma scheduleReconnect_run (i : nat) (r : conn) (s : state) :
  records s !! i = Some r -> rec_manualClose r = false ->
  scheduleReconnect E i s
  = (tt, scheduled E i r s, [reconnect_status E r s]).
Proof.
  intros Hr Hm. unfold scheduleReconnect, Math_random. munfold.
  rewrite Hr, Hm. munfold. rewrite clearTimer_run.
  unfold scheduled, upd_rec. simpl.
  rewrite cleared_draws, cleared_timers_length. reflexivity.
Qed.

Lemma scheduleReconnect_manual (i : nat) (r : conn) (s : state) :
  records s !! i = Some r -> rec_manualClose r = true ->
  scheduleReconnect E i s = (tt, s, []).
Proof.
  intros Hr Hm. unfold scheduleReconnect. munfold. rewrite Hr, Hm. reflexivity.
Qed.

Lemma connect_run (i : nat) (r : conn) (o : option ws_options) (s : state) :
  records s !! i = Some r -> rec_manualClose r = false ->
  connect E i o s = (tt, connected E i r o s, connect_outputs E r s).
Proof.
  intros Hr Hm. unfold connect, connected, connect_outputs. munfold. rewrite Hr.
  destruct (ws_ctor_error E (rec_url r)) as [err |].
  - munfold. rewrite (scheduleReconnect_run i r s Hr Hm). reflexivity.
  - destruct o; reflexivity.
Qed.

Lemma step_closed (s : state) (w : nat) (k : socket) (r : conn) (code : Z)
    (reason : string) :
  sockets s !! w = Some k -> ws_readyState k <> CLOSED ->
  records s !! ws_rec k = Some r ->
  step E (WsClosed w code reason) s
  = Some (closed E w (ws_rec k) r s, close_outputs E r k code reason s).
Proof.
  intros Hk Hst Hr. unfold step, on_socket. rewrite Hk.
  destruct (ws_readyState k) eqn:Hrs; try congruence; simpl;
    unfold on_close; munfold; simpl; rewrite Hr; munfold;
    rewrite clearTimer_run; unfold closed, close_outputs, close_event;
    destruct (rec_manualClose r) eqn:Hm; try reflexivity;
    (erewrite scheduleReconnect_run;
     [ | rewrite cleared_records; simpl; exact Hr | exact Hm ]);
    unfold reconnect_status; rewrite cleared_draws; reflexivity.
Qed.

Lemma step_opened (s : state) (w : nat) (k : socket) (r : conn) :
  sockets s !! w = Some k -> ws_readyState k = CONNECTING ->
  records s !! ws_rec k = Some r ->
  step E (WsOpened w) s
  = Some (opened w (ws_rec k) r s,
          [NodeStatus "green" "dot" ("open " ++ rec_id r);
           NodeSend (open_event r k)]).
Proof.
  intros Hk Hst Hr. unfold step, on_socket. rewrite Hk, Hst. simpl.
  unfold on_open, setupPing. munfold. simpl.
  rewrite list_lookup_alter_eq, Hr. simpl. rewrite clearTimer_run.
  unfold opened. destruct (0 <? rec_pingInterval r) eqn:Hp; munfold;
    unfold upd_rec; simpl; rewrite ?cleared_records, ?cleared_timers_length; simpl;
    rewrite !list_lookup_alter_eq, Hr; reflexivity.
Qed.

Lemma step_unexpected (s : state) (w : nat) (k : socket) (r : conn)
    (statusCode : Z) (hdrs : headers) (body : string) :
  sockets s !! w = Some k ->
  ws_readyState k = CONNECTING \/ ws_readyState k = CLOSING ->
  records s !! ws_rec k = Some r ->
  step E (WsUnexpected w statusCode hdrs body) s
  = Some (s, [NodeSend (http_error_event r statusCode hdrs body);
              NodeStatus "red" "ring"
                ("HTTP " ++ string_of_Z statusCode ++ " on " ++ rec_id r)]).
Proof.
  intros Hk Hst Hr. unfold step. rewrite Hk.
  destruct Hst as [-> | ->]; unfold on_unexpected_response; munfold;
    rewrite Hr; reflexivity.
Qed.

Lemma step_reconnect_timer (s : state) (t : nat) (tm : timer) (r : conn) :
  timers s !! t = Some tm -> tm_pending tm = true -> tm_kind tm = ReconnectTimer ->
  records s !! tm_rec tm = Some r -> rec_manualClose r = false ->
  step E (TimerFired t) s
  = Some (connected E (tm_rec tm) r None (cleared (Some t) s),
          connect_outputs E r s).
Proof.
  intros Ht Hp Hk Hr Hm. unfold step. rewrite Ht, Hp, Hk. munfold.
  change (with_timers (alter (set_pending false) t) s) with (cleared (Some t) s).
  rewrite (connect_run (tm_rec tm) r None (cleared (Some t) s) Hr Hm). reflexivity.
Qed.



(** *** A rejected handshake *)





End Steps.

(** ** The invariant holds in every store the node can reach *)

Lemma lookup_alter_Some {A : Type} (f : A -> A) (l : list A) (i j : nat) (x : A) :
  alter f i l !! j = Some x ->
  (i = j /\ exists y, l !! j = Some y /\ x = f y) \/ (i <> j /\ l !! j = Some x).
Proof.
  intros H. destruct (decide (i = j)) as [-> | Hne].
  - left. rewrite list_lookup_alter_eq in H.
    destruct (l !! j) as [y |]; simpl in H; [| discriminate].
    injection H as <-. eauto.
  - right. rewrite list_lookup_alter_ne in H by assumption. auto.
Qed.

Lemma lookup_snoc_inv {A : Type} (l : list A) (a : A) (j : nat) (x : A) :
  (l ++ [a])%list !! j = Some x -> l !! j = Some x \/ (j = length l /\ x = a).
Proof.
  intros H. apply lookup_snoc_Some in H. destruct H as [[_ H] | [-> ->]]; auto.
Qed.

Lemma lookup_snoc_old {A : Type} (l : list A) (a : A) (j : nat) (x : A) :
  l !! j = Some x -> (l ++ [a])%list !! j = Some x.
Proof. intros H. apply lookup_app_l_Some. exact H. Qed.

Lemma lookup_snoc_new {A : Type} (l : list A) (a : A) :
  (l ++ [a])%list !! length l = Some a.
Proof. apply list_lookup_middle. reflexivity. Qed.

Lemma lookup_alter_same {A : Type} (f : A -> A) (l : list A) (i : nat) (x : A) :
  l !! i = Some x -> alter f i l !! i = Some (f x).
Proof. intros H. rewrite list_lookup_alter_eq, H. reflexivity. Qed.

Lemma lookup_alter_other {A : Type} (f : A -> A) (l : list A) (i j : nat) (x : A) :
  i <> j -> l !! j = Some x -> alter f i l !! j = Some x.
Proof. intros Hne H. rewrite list_lookup_alter_ne by assumption. exact H. Qed.

Lemma record_state_socket_state (s : state) (r : conn) :
  record_state s r = socket_state (sockets s) (rec_ws r).
Proof.
  unfold record_state, record_ws, socket_state.
  destruct (rec_ws r) as [w |]; simpl; [| reflexivity].
  destruct (sockets s !! w); reflexivity.
Qed.

Lemma socket_state_alter (ws : list socket) (w : nat) (st : readyState) (h : option nat) :
  socket_state (alter (set_readyState st) w ws) h
  = if decide (h = Some w /\ is_Some (ws !! w)) then st else socket_state ws h.
Proof.
  unfold socket_state. destruct h as [w' |].
  - destruct (decide (w = w')) as [-> | Hne].
    + rewrite list_lookup_alter_eq. destruct (ws !! w') as [k |] eqn:Hk; simpl.
      * rewrite decide_True by eauto. reflexivity.
      * rewrite decide_False; [reflexivity |]. intros [_ [? ?]]. discriminate.
    + rewrite list_lookup_alter_ne by assumption.
      rewrite decide_False; [reflexivity |]. intros [? _]. congruence.
  - rewrite decide_False; [reflexivity |]. intros [? _]. discriminate.
Qed.

Lemma socket_state_snoc_old (ws : list socket) (k : socket) (w : nat) (k0 : socket) :
  ws !! w = Some k0 -> socket_state (ws ++ [k]) (Some w) = socket_state ws (Some w).
Proof. intros H. unfold socket_state. rewrite (lookup_snoc_old _ _ _ _ H), H. reflexivity. Qed.

Lemma socket_state_snoc_new (ws : list socket) (k : socket) :
  socket_state (ws ++ [k]) (Some (length ws)) = ws_readyState k.
Proof. unfold socket_state. rewrite lookup_snoc_new. reflexivity. Qed.

(** *** Association lists *)

Lemma assoc_get_set_eq {V : Type} (k : string) (v : V) (m : list (string * V)) :
  assoc_get k (assoc_set k v m) = Some v.
Proof.
  induction m as [| [k' v'] m IH]; simpl.
  - rewrite String.eqb_refl. reflexivity.
  - destruct (String.eqb k k') eqn:Hk; simpl.
    + rewrite String.eqb_refl. reflexivity.
    + rewrite Hk. exact IH.
Qed.

Lemma assoc_get_set_ne {V : Type} (k k0 : string) (v : V) (m : list (string * V)) :
  k0 <> k -> assoc_get k0 (assoc_set k v m) = assoc_get k0 m.
Proof.
  intros Hne. induction m as [| [k' v'] m IH]; simpl.
  - rewrite (eqb_false_of_ne _ _ Hne). reflexivity.
  - destruct (String.eqb_spec k k') as [<- | Hk]; simpl.
    + rewrite (eqb_false_of_ne _ _ Hne). reflexivity.
    + rewrite IH. reflexivity.
Qed.

Lemma assoc_get_delete_eq {V : Type} (k : string) (m : list (string * V)) :
  assoc_get k (assoc_delete k m) = None.
Proof.
  induction m as [| [k' v'] m IH]; simpl; [reflexivity |].
  destruct (String.eqb k k') eqn:Hk; simpl; [exact IH |]. rewrite Hk. exact IH.
Qed.

Lemma assoc_get_delete_ne {V : Type} (k k0 : string) (m : list (string * V)) :
  k0 <> k -> assoc_get k0 (assoc_delete k m) = assoc_get k0 m.
Proof.
  intros Hne. induction m as [| [k' v'] m IH]; simpl; [reflexivity |].
  destruct (String.eqb_spec k k') as [<- | Hk]; simpl.
  - rewrite (eqb_false_of_ne _ _ Hne). exact IH.
  - rewrite IH. reflexivity.
Qed.

(** *** Timers and transports after an update *)

Lemma set_pending_false_id (tm : timer) :
  tm_pending tm = false -> set_pending false tm = tm.
Proof. destruct tm; simpl; intros ->; reflexivity. Qed.

(** A timer after [clearTimeout]: the same timer, no longer pending when it
    is the one cleared. *)
Lemma cleared_lookup (h : option nat) (s : state) (t : nat) (tm : timer) :
  timers (cleared h s) !! t = Some tm ->
  exists tm0, timers s !! t = Some tm0 /\ tm_kind tm = tm_kind tm0 /\
              tm_rec tm = tm_rec tm0 /\
              (tm_pending tm = true -> tm0 = tm /\ h <> Some t).
Proof.
  destruct h as [t0 |]; simpl; intros H.
  - apply lookup_alter_Some in H as [[-> (tm0 & H0 & ->)] | [Hne H]].
    + exists tm0. split; [exact H0 |]. split; [reflexivity |]. split; [reflexivity |].
      simpl. discriminate.
    + exists tm. repeat split; auto; congruence.
  - exists tm. repeat split; auto; discriminate.
Qed.

Lemma cleared_lookup_old (h : option nat) (s : state) (t : nat) (tm0 : timer) :
  timers s !! t = Some tm0 ->
  exists tm, timers (cleared h s) !! t = Some tm /\ tm_kind tm = tm_kind tm0 /\
             tm_rec tm = tm_rec tm0 /\
             (h <> Some t -> tm = tm0).
Proof.
  intros H0. destruct h as [t0 |]; simpl.
  - destruct (decide (t0 = t)) as [-> | Hne].
    + exists (set_pending false tm0). rewrite (lookup_alter_same _ _ _ _ H0).
      repeat split; auto; congruence.
    + exists tm0. rewrite (lookup_alter_other _ _ _ _ _ Hne H0). auto.
  - exists tm0. auto.
Qed.

(** Clearing a timer that is not pending changes nothing. *)
Lemma cleared_idle (h : option nat) (s : state) :
  (forall t tm, h = Some t -> timers s !! t = Some tm -> tm_pending tm = false) ->
  cleared h s = s.
Proof.
  intros Hidle. destruct h as [t |]; simpl; [| reflexivity].
  destruct s as [cs rs ws ts d]. unfold with_timers. simpl in *. f_equal.
  apply list_eq. intros t'. destruct (decide (t = t')) as [<- | Hne].
  - rewrite list_lookup_alter_eq. destruct (ts !! t) as [tm |] eqn:Htm; simpl; [| reflexivity].
    rewrite set_pending_false_id; [reflexivity |]. exact (Hidle t tm eq_refl Htm).
  - apply list_lookup_alter_ne. exact Hne.
Qed.

Lemma sockets_alter_lookup (st : readyState) (w : nat) (ws : list socket) (w' : nat)
    (k' : socket) :
  alter (set_readyState st) w ws !! w' = Some k' ->
  exists k0, ws !! w' = Some k0 /\ ws_rec k' = ws_rec k0 /\
             ws_url k' = ws_url k0 /\
             ((w' = w /\ ws_readyState k' = st) \/ (w' <> w /\ k' = k0)).
Proof.
  intros H. apply lookup_alter_Some in H as [[-> (k0 & H0 & ->)] | [Hne H]].
  - exists k0. simpl. split; [exact H0 |]. split; [reflexivity |].
    split; [reflexivity |]. left. split; reflexivity.
  - exists k'. split; [exact H |]. split; [reflexivity |].
    split; [reflexivity |]. right. split; [congruence | reflexivity].
Qed.

Lemma sockets_alter_lookup_old (st : readyState) (w : nat) (ws : list socket) (w' : nat)
    (k0 : socket) :
  ws !! w' = Some k0 ->
  exists k', alter (set_readyState st) w ws !! w' = Some k' /\ ws_rec k' = ws_rec k0 /\
             (w' <> w -> k' = k0) /\ (w' = w -> ws_readyState k' = st).
Proof.
  intros H0. destruct (decide (w = w')) as [-> | Hne].
  - exists (set_readyState st k0). rewrite (lookup_alter_same _ _ _ _ H0).
    repeat split; auto; congruence.
  - exists k0. rewrite (lookup_alter_other _ _ _ _ _ Hne H0).
    repeat split; auto; congruence.
Qed.

(** *** Agreement outside a record *)

Lemma agree_records_alter (i : nat) (f : conn -> conn) (rs : list conn) (j : nat) :
  j <> i -> alter f i rs !! j = rs !! j.
Proof. intros Hne. apply list_lookup_alter_ne. congruence. Qed.

Lemma agree_records_snoc (rs : list conn) (r : conn) (j : nat) :
  j <> length rs -> (rs ++ [r])%list !! j = rs !! j.
Proof.
  intros Hne. destruct (decide (j < length rs)%nat) as [Hlt | Hge].
  - apply lookup_app_l. exact Hlt.
  - rewrite !lookup_ge_None_2; [reflexivity | lia |].
    rewrite length_app. simpl. lia.
Qed.

Lemma agree_sockets_alter (i : nat) (st : readyState) (w : nat) (ws : list socket) :
  (forall k, ws !! w = Some k -> ws_rec k = i) ->
  forall w' k', ws_rec k' <> i ->
    alter (set_readyState st) w ws !! w' = Some k' <-> ws !! w' = Some k'.
Proof.
  intros Hown w' k' Hne. split; intros H.
  - apply sockets_alter_lookup in H as (k0 & H0 & Hr & _ & [[-> _] | [_ ->]]); [| exact H0].
    exfalso. apply Hne. rewrite Hr. apply Hown. exact H0.
  - apply lookup_alter_other; [| exact H]. intros ->. apply Hne, Hown, H.
Qed.

Lemma agree_sockets_snoc (i : nat) (k : socket) (ws : list socket) :
  ws_rec k = i ->
  forall w' k', ws_rec k' <> i -> (ws ++ [k])%list !! w' = Some k' <-> ws !! w' = Some k'.
Proof.
  intros Hown w' k' Hne. split; intros H.
  - apply lookup_snoc_inv in H as [H | [_ ->]]; [exact H | congruence].
  - apply lookup_snoc_old, H.
Qed.

Lemma agree_timers_cleared (i : nat) (h : option nat) (s : state) :
  (forall t tm, h = Some t -> timers s !! t = Some tm -> tm_rec tm = i) ->
  forall t tm, tm_rec tm <> i ->
    timers (cleared h s) !! t = Some tm <-> timers s !! t = Some tm.
Proof.
  intros Hown t tm Hne. destruct h as [t0 |]; simpl; [| reflexivity]. split; intros H.
  - apply lookup_alter_Some in H as [[-> (tm0 & H0 & ->)] | [_ H]]; [| exact H].
    exfalso. apply Hne. simpl. eapply Hown; eauto.
  - apply lookup_alter_other; [| exact H]. intros ->. apply Hne. eapply Hown; eauto.
Qed.

Lemma agree_timers_snoc (i : nat) (tm0 : timer) (ts : list timer) :
  tm_rec tm0 = i ->
  forall t tm, tm_rec tm <> i -> (ts ++ [tm0])%list !! t = Some tm <-> ts !! t = Some tm.
Proof.
  intros Hown t tm Hne. split; intros H.
  - apply lookup_snoc_inv in H as [H | [_ ->]]; [exact H | congruence].
  - apply lookup_snoc_old, H.
Qed.

Section Invariant.

Context (E : env).

Lemma Inv_local (s : state) (i : nat) : Inv s -> local s i.
Proof.
  intros HI. split.
  - intros r w. apply (inv_ws s HI).
  - intros r t. apply (inv_rtimer s HI).
  - intros r t. apply (inv_ptimer s HI).
  - intros w k Hk <- Hl. apply (inv_live s HI w k Hk Hl).
  - intros t tm Ht <-. apply (inv_reconnect s HI t tm Ht).
  - intros t tm Ht <-. apply (inv_ping s HI t tm Ht).
  - intros r. apply (inv_open s HI).
  - intros r. apply (inv_manual s HI).
Qed.

Lemma Inv_entries (s : state) : Inv s -> entries_ok s.
Proof. intros HI. split; [apply (inv_entry s HI) | apply (inv_mapped s HI)]. Qed.

Lemma Inv_of_local (s : state) :
  (forall i, local s i) -> entries_ok s -> Inv s.
Proof.
  intros HL [He Hm]. split.
  - exact He.
  - intros i r w. apply (loc_ws s i (HL i)).
  - intros i r t. apply (loc_rtimer s i (HL i)).
  - intros i r t. apply (loc_ptimer s i (HL i)).
  - intros w k Hk. apply (loc_live s _ (HL (ws_rec k)) w k Hk eq_refl).
  - intros t tm Ht. apply (loc_reconnect s _ (HL (tm_rec tm)) t tm Ht eq_refl).
  - intros t tm Ht. apply (loc_ping s _ (HL (tm_rec tm)) t tm Ht eq_refl).
  - intros i r. apply (loc_open s i (HL i)).
  - intros i r. apply (loc_manual s i (HL i)).
  - exact Hm.
Qed.

(** The state of a record that the change does not touch. *)
Lemma record_state_agree (s s' : state) (i j : nat) (r : conn) :
  Inv s -> agree_except i s s' -> j <> i -> records s !! j = Some r ->
  record_state s' r = record_state s r.
Proof.
  intros HI (_ & Hs & _) Hne Hr. rewrite !record_state_socket_state.
  unfold socket_state. destruct (rec_ws r) as [w |] eqn:Hws; [| reflexivity].
  destruct (inv_ws s HI j r w Hr Hws) as (k & Hk & Hown).
  assert (sockets s' !! w = Some k) as Hk' by (apply Hs; congruence).
  rewrite Hk, Hk'. reflexivity.
Qed.

(** What the change does not touch keeps its part of the invariant. *)
Lemma local_frame (s s' : state) (i j : nat) :
  Inv s -> agree_except i s s' -> j <> i -> local s' j.
Proof.
  intros HI Hag Hne. pose proof Hag as (Hr & Hs & Ht).
  assert (forall r, records s' !! j = Some r -> records s !! j = Some r) as Hold
    by (intros r H; rewrite <- (Hr j Hne); exact H).
  split.
  - intros r w Hrj Hws. apply Hold in Hrj.
    destruct (inv_ws s HI j r w Hrj Hws) as (k & Hk & Hown).
    exists k. split; [apply Hs; congruence | exact Hown].
  - intros r t Hrj Hrt. apply Hold in Hrj.
    destruct (inv_rtimer s HI j r t Hrj Hrt) as (tm & Htm & Hown & Hkd).
    exists tm. split; [apply Ht; congruence | auto].
  - intros r t Hrj Hrt. apply Hold in Hrj.
    destruct (inv_ptimer s HI j r t Hrj Hrt) as (tm & Htm & Hown & Hkd).
    exists tm. split; [apply Ht; congruence | auto].
  - intros w k Hk Hown Hl. apply Hs in Hk; [| congruence].
    destruct (inv_live s HI w k Hk Hl) as (r & Hrj & Hws).
    exists r. rewrite (Hr j Hne), <- Hown. auto.
  - intros t tm Htm Hown Hp Hkd. apply Ht in Htm; [| congruence].
    destruct (inv_reconnect s HI t tm Htm Hp Hkd) as (r & Hrj & Hrt & Hm & Hst).
    rewrite Hown in Hrj.
    exists r. rewrite (Hr j Hne), (record_state_agree s s' i j r HI Hag Hne Hrj). auto.
  - intros t tm Htm Hown Hp Hkd. apply Ht in Htm; [| congruence].
    destruct (inv_ping s HI t tm Htm Hp Hkd) as (r & Hrj & Hrt & Hm & Hpos & Hst).
    rewrite Hown in Hrj.
    exists r. rewrite (Hr j Hne), (record_state_agree s s' i j r HI Hag Hne Hrj). auto.
  - intros r Hrj Hst Hpos. apply Hold in Hrj.
    rewrite (record_state_agree s s' i j r HI Hag Hne Hrj) in Hst.
    destruct (inv_open s HI j r Hrj Hst Hpos) as (t & tm & Hpt & Htm & Hp).
    exists t, tm. repeat split; try assumption.
    destruct (inv_ptimer s HI j r t Hrj Hpt) as (tm' & Htm' & Hown & _).
    rewrite Htm in Htm'. injection Htm' as <-. apply Ht; congruence.
  - intros r Hrj Hm. apply Hold in Hrj.
    rewrite (record_state_agree s s' i j r HI Hag Hne Hrj).
    apply (inv_manual s HI j r Hrj Hm).
Qed.

(** A change that keeps its hands off the other records re-establishes the
    invariant as soon as it does for the record it touches. *)
Lemma Inv_focus (s s' : state) (i : nat) :
  Inv s -> agree_except i s s' -> local s' i -> entries_ok s' -> Inv s'.
Proof.
  intros HI Hag Hloc Hent. apply Inv_of_local; [| exact Hent].
  intros j. destruct (decide (j = i)) as [-> | Hne]; [exact Hloc |].
  exact (local_frame s s' i j HI Hag Hne).
Qed.

End Invariant.

(** *** Each change of the store keeps the invariant *)

Section Transitions.

Context (E : env).

Lemma live_state (s : state) (w : nat) (k : socket) (r : conn) :
  Inv s -> sockets s !! w = Some k -> ws_readyState k <> CLOSED ->
  records s !! ws_rec k = Some r ->
  rec_ws r = Some w /\ record_state s r = ws_readyState k.
Proof.
  intros HI Hk Hlive Hr.
  destruct (inv_live s HI w k Hk Hlive) as (r0 & Hr0 & Hws0).
  rewrite Hr in Hr0. injection Hr0 as <-. split; [exact Hws0 |].
  rewrite record_state_socket_state, Hws0. unfold socket_state. rewrite Hk.
  reflexivity.
Qed.

Lemma live_has_record (s : state) (w : nat) (k : socket) :
  Inv s -> sockets s !! w = Some k -> ws_readyState k <> CLOSED ->
  exists r, records s !! ws_rec k = Some r /\ rec_ws r = Some w /\
            record_state s r = ws_readyState k.
Proof.
  intros HI Hk Hlive.
  destruct (inv_live s HI w k Hk Hlive) as (r & Hr & Hws).
  exists r. split; [exact Hr |]. apply (live_state s w k r HI Hk Hlive Hr).
Qed.

Lemma socket_state_altered (st : readyState) (w : nat) (ws : list socket) (k : socket) :
  ws !! w = Some k -> socket_state (alter (set_readyState st) w ws) (Some w) = st.
Proof.
  intros Hk. unfold socket_state. rewrite (lookup_alter_same _ _ _ _ Hk). reflexivity.
Qed.

(** A transport of a record that is not the one the record holds is
    closed. *)
Lemma stale_closed (s : state) (w : nat) (k : socket) (r : conn) (w0 : nat) :
  Inv s -> sockets s !! w = Some k -> records s !! ws_rec k = Some r ->
  rec_ws r = Some w0 -> w <> w0 -> ws_readyState k = CLOSED.
Proof.
  intros HI Hk Hr Hws Hne.
  destruct (ws_readyState k) eqn:Hst; try reflexivity; exfalso;
    (destruct (inv_live s HI w k Hk ltac:(congruence)) as (r0 & Hr0 & Hws0);
     congruence).
Qed.

(** [WsClosing]: a transport that was connecting or open is closing. *)
Lemma Inv_closing (s : state) (w : nat) (k : socket) :
  Inv s -> sockets s !! w = Some k -> is_up (ws_readyState k) = true ->
  Inv (with_sockets (alter (set_readyState CLOSING) w) s).
Proof.
  intros HI Hk Hup.
  assert (ws_readyState k <> CLOSED) as Hlive
    by (intros Hc; rewrite Hc in Hup; discriminate).
  destruct (live_has_record s w k HI Hk Hlive) as (r & Hr & Hws & Hst).
  apply (Inv_focus s _ (ws_rec k) HI).
  - split; [reflexivity |]. split; [| reflexivity]. simpl.
    apply agree_sockets_alter. intros k0 Hk0. congruence.
  - assert (forall r0, records s !! ws_rec k = Some r0 ->
              record_state (with_sockets (alter (set_readyState CLOSING) w) s) r0
              = CLOSING) as Hnew.
    { intros r0 Hr0. assert (r0 = r) as -> by congruence.
      rewrite record_state_socket_state, Hws. simpl.
      apply (socket_state_altered _ _ _ k Hk). }
    split; simpl.
    + intros r0 w0 Hr0 Hws0.
      destruct (inv_ws s HI _ r0 w0 Hr0 Hws0) as (k0 & Hk0 & Hown).
      destruct (sockets_alter_lookup_old CLOSING w _ w0 k0 Hk0) as (k' & Hk' & Hrec & _).
      exists k'. split; [exact Hk' | congruence].
    + intros r0 t. apply (inv_rtimer s HI).
    + intros r0 t. apply (inv_ptimer s HI).
    + intros w0 k0 Hk0 Hown Hl0.
      apply sockets_alter_lookup in Hk0 as (k1 & Hk1 & Hrec & _ & [[-> _] | [Hne ->]]).
      * exists r. auto.
      * exfalso. apply Hl0. rewrite <- Hown in Hr.
        apply (stale_closed s w0 k1 r w HI Hk1 Hr Hws Hne).
    + intros t tm Ht Hown Hp Hkd. exfalso.
      destruct (inv_reconnect s HI t tm Ht Hp Hkd) as (r0 & Hr0 & _ & _ & Hst0).
      rewrite Hown in Hr0. assert (r0 = r) as -> by congruence. congruence.
    + intros t tm Ht Hown Hp Hkd.
      destruct (inv_ping s HI t tm Ht Hp Hkd) as (r0 & Hr0 & Hpt & Hm & Hpos & _).
      rewrite Hown in Hr0. exists r0. rewrite (Hnew r0 Hr0). naive_solver.
    + intros r0 Hr0 Hst0. rewrite (Hnew r0 Hr0) in Hst0. discriminate.
    + intros r0 Hr0 _. rewrite (Hnew r0 Hr0). reflexivity.
  - apply (Inv_entries s HI).
Qed.

(** The [close] listener, before it schedules anything: the transport is
    closed, the ping interval cleared, the record at rest. *)
Lemma Inv_socket_closed (s : state) (w : nat) (k : socket) (r : conn) :
  Inv s -> sockets s !! w = Some k -> ws_readyState k <> CLOSED ->
  records s !! ws_rec k = Some r ->
  let s1 := cleared (rec_pingTimer r)
              (with_sockets (alter (set_readyState CLOSED) w) s) in
  Inv s1 /\ at_rest s1 (ws_rec k).
Proof.
  intros HI Hk Hlive Hr s1.
  destruct (live_state s w k r HI Hk Hlive Hr) as [Hws Hst].
  assert (records s1 = records s) as Hrecs by (unfold s1; rewrite cleared_records; reflexivity).
  assert (sockets s1 = alter (set_readyState CLOSED) w (sockets s)) as Hsocks
    by (unfold s1; rewrite cleared_sockets; reflexivity).
  assert (connections s1 = connections s) as Hconns
    by (unfold s1; rewrite cleared_connections; reflexivity).
  assert (forall r0, records s !! ws_rec k = Some r0 -> record_state s1 r0 = CLOSED)
    as Hnew.
  { intros r0 Hr0. assert (r0 = r) as -> by congruence.
    rewrite record_state_socket_state, Hws, Hsocks.
    apply (socket_state_altered _ _ _ k Hk). }
  assert (forall t tm, timers s1 !! t = Some tm -> tm_rec tm = ws_rec k ->
                       tm_pending tm = false) as Hidle.
  { intros t tm Ht Hown. destruct (tm_pending tm) eqn:Hp; [exfalso | reflexivity].
    apply cleared_lookup in Ht as (tm0 & Ht0 & _ & _ & Hsame).
    destruct (Hsame Hp) as [-> Hne]. simpl in Ht0.
    destruct (tm_kind tm) eqn:Hkd.
    - destruct (inv_reconnect s HI t tm Ht0 Hp Hkd) as (r0 & Hr0 & _ & _ & Hst0).
      rewrite Hown in Hr0. assert (r0 = r) as -> by congruence. congruence.
    - destruct (inv_ping s HI t tm Ht0 Hp Hkd) as (r0 & Hr0 & Hpt & _).
      rewrite Hown in Hr0. assert (r0 = r) as -> by congruence. congruence. }
  split; [| split; [rewrite Hrecs; exact Hnew | exact Hidle]].
  apply (Inv_focus s _ (ws_rec k) HI).
  - split; [intros j _; rewrite Hrecs; reflexivity |]. split.
    + rewrite Hsocks. apply agree_sockets_alter. intros k0 Hk0. congruence.
    + apply (agree_timers_cleared (ws_rec k) (rec_pingTimer r)
               (with_sockets (alter (set_readyState CLOSED) w) s)).
      simpl. intros t tm Hpt Ht.
      destruct (inv_ptimer s HI _ r t Hr Hpt) as (tm' & Ht' & Hown & _). congruence.
  - split; rewrite ?Hrecs.
    + intros r0 w0 Hr0 Hws0.
      destruct (inv_ws s HI _ r0 w0 Hr0 Hws0) as (k0 & Hk0 & Hown).
      destruct (sockets_alter_lookup_old CLOSED w _ w0 k0 Hk0) as (k' & Hk' & Hrec & _).
      exists k'. rewrite Hsocks. split; [exact Hk' | congruence].
    + intros r0 t Hr0 Hrt.
      destruct (inv_rtimer s HI _ r0 t Hr0 Hrt) as (tm & Ht & Hown & Hkd).
      destruct (cleared_lookup_old (rec_pingTimer r)
                  (with_sockets (alter (set_readyState CLOSED) w) s) t tm Ht)
        as (tm' & Ht' & Hkd' & Hrec' & _).
      exists tm'. split; [exact Ht' | split; congruence].
    + intros r0 t Hr0 Hrt.
      destruct (inv_ptimer s HI _ r0 t Hr0 Hrt) as (tm & Ht & Hown & Hkd).
      destruct (cleared_lookup_old (rec_pingTimer r)
                  (with_sockets (alter (set_readyState CLOSED) w) s) t tm Ht)
        as (tm' & Ht' & Hkd' & Hrec' & _).
      exists tm'. split; [exact Ht' | split; congruence].
    + intros w0 k0 Hk0 Hown Hl0. rewrite Hsocks in Hk0.
      apply sockets_alter_lookup in Hk0 as (k1 & Hk1 & Hrec & _ & [[-> Hc] | [Hne ->]]).
      * congruence.
      * exfalso. apply Hl0. rewrite <- Hown in Hr.
        apply (stale_closed s w0 k1 r w HI Hk1 Hr Hws Hne).
    + intros t tm Ht Hown Hp. rewrite (Hidle t tm Ht Hown) in Hp. discriminate.
    + intros t tm Ht Hown Hp. rewrite (Hidle t tm Ht Hown) in Hp. discriminate.
    + intros r0 Hr0 Hst0. rewrite (Hnew r0 Hr0) in Hst0. discriminate.
    + intros r0 Hr0 _. rewrite (Hnew r0 Hr0). reflexivity.
  - unfold entries_ok. rewrite Hrecs, Hconns. apply (Inv_entries s HI).
Qed.

Lemma at_rest_cleared (s : state) (i : nat) (r : conn) (h : option nat) :
  Inv s -> records s !! i = Some r -> at_rest s i ->
  h = rec_reconnectTimer r \/ h = rec_pingTimer r ->
  cleared h s = s.
Proof.
  intros HI Hr [_ Hidle] Hh. apply cleared_idle. intros t tm -> Ht.
  apply (Hidle t tm Ht). destruct Hh as [Hh | Hh]; symmetry in Hh.
  - destruct (inv_rtimer s HI i r t Hr Hh) as (tm' & Ht' & Hown & _). congruence.
  - destruct (inv_ptimer s HI i r t Hr Hh) as (tm' & Ht' & Hown & _). congruence.
Qed.

(** A transport of a record at rest is closed. *)
Lemma at_rest_sockets (s : state) (i : nat) (w : nat) (k : socket) :
  Inv s -> at_rest s i -> sockets s !! w = Some k -> ws_rec k = i ->
  ws_readyState k = CLOSED.
Proof.
  intros HI [Hst _] Hk Hown.
  destruct (ws_readyState k) eqn:Hrs; try reflexivity; exfalso;
    (destruct (live_has_record s w k HI Hk ltac:(congruence)) as (r & Hr & _ & Hs);
     rewrite Hown in Hr; specialize (Hst r Hr); congruence).
Qed.

(** [scheduleReconnect] for a record at rest that the user has not closed. *)
Lemma Inv_scheduled (s : state) (i : nat) (r : conn) :
  Inv s -> records s !! i = Some r -> rec_manualClose r = false -> at_rest s i ->
  Inv (scheduled E i r s).
Proof.
  intros HI Hr Hm Hrest. pose proof Hrest as [Hst Hidle].
  unfold scheduled.
  rewrite (at_rest_cleared s i r _ HI Hr Hrest (or_introl eq_refl)).
  set (tn := length (timers s)).
  set (ntm := {| tm_kind := ReconnectTimer; tm_rec := i;
                 tm_delay := nextBackoff (node_config E) (rec_reconnectAttempts r)
                               (random E (draws s));
                 tm_pending := true |}).
  set (r' := set_reconnectTimer (Some tn)
               (set_reconnectAttempts (S (rec_reconnectAttempts r)) r)).
  set (s' := upd_rec i _ _).
  assert (records s' !! i = Some r') as Hr'.
  { unfold s'. simpl. rewrite !list_lookup_alter_eq, Hr. reflexivity. }
  assert (forall j, j <> i -> records s' !! j = records s !! j) as Hother.
  { intros j Hne. unfold s'. simpl. rewrite !agree_records_alter by assumption.
    reflexivity. }
  assert (sockets s' = sockets s) as Hsocks by reflexivity.
  assert (timers s' = (timers s ++ [ntm])%list) as Htimers by reflexivity.
  assert (record_state s' r' = CLOSED) as Hnew.
  { rewrite record_state_socket_state, Hsocks.
    change (rec_ws r') with (rec_ws r). rewrite <- record_state_socket_state.
    apply (Hst r Hr). }
  apply (Inv_focus s s' i HI).
  - split; [exact Hother |]. split; [rewrite Hsocks; reflexivity |].
    rewrite Htimers. apply agree_timers_snoc. reflexivity.
  - split; rewrite ?Hr'.
    + intros r0 w0 [= <-] Hws0. rewrite Hsocks. apply (inv_ws s HI i r w0 Hr Hws0).
    + intros r0 t [= <-] [= <-]. exists ntm. rewrite Htimers.
      split; [apply lookup_snoc_new | split; reflexivity].
    + intros r0 t [= <-] Hpt.
      destruct (inv_ptimer s HI i r t Hr Hpt) as (tm & Ht & Hown & Hkd).
      exists tm. rewrite Htimers. split; [apply lookup_snoc_old, Ht | auto].
    + intros w0 k0 Hk0 Hown Hl0. exfalso. apply Hl0.
      apply (at_rest_sockets s i w0 k0 HI Hrest Hk0 Hown).
    + intros t tm Ht Hown Hp Hkd. rewrite Htimers in Ht.
      apply lookup_snoc_inv in Ht as [Ht | [-> ->]].
      * rewrite (Hidle t tm Ht Hown) in Hp. discriminate.
      * exists r'. auto.
    + intros t tm Ht Hown Hp Hkd. rewrite Htimers in Ht.
      apply lookup_snoc_inv in Ht as [Ht | [-> ->]].
      * rewrite (Hidle t tm Ht Hown) in Hp. discriminate.
      * discriminate.
    + intros r0 [= <-] Hst0. congruence.
    + intros r0 [= <-] Hm0. simpl in Hm0. congruence.
  - split.
    + intros id j Hj. destruct (inv_entry s HI id j Hj) as (r0 & Hr0 & Hid).
      destruct (decide (j = i)) as [-> | Hne].
      * exists r'. split; [exact Hr' |]. assert (r0 = r) as -> by congruence. exact Hid.
      * exists r0. rewrite (Hother j Hne). auto.
    + intros j r0 Hr0 Hm0. destruct (decide (j = i)) as [-> | Hne].
      * assert (r0 = r') as -> by congruence. apply (inv_mapped s HI i r Hr Hm).
      * rewrite (Hother j Hne) in Hr0. apply (inv_mapped s HI j r0 Hr0 Hm0).
Qed.

(** The entries stay in order when one record is updated and keeps its
    id, and is not handed back to the user. *)
Lemma entries_kept (s s' : state) (i : nat) (r r' : conn) :
  Inv s -> connections s' = connections s ->
  records s !! i = Some r -> records s' !! i = Some r' ->
  rec_id r' = rec_id r ->
  (rec_manualClose r' = false -> rec_manualClose r = false) ->
  (forall j, j <> i -> records s' !! j = records s !! j) ->
  entries_ok s'.
Proof.
  intros HI Hc Hr Hr' Hid Hm Hother. split; rewrite Hc.
  - intros id j Hj. destruct (inv_entry s HI id j Hj) as (r0 & Hr0 & Hid0).
    destruct (decide (j = i)) as [-> | Hne].
    + exists r'. split; [exact Hr' |]. assert (r0 = r) as -> by congruence. congruence.
    + exists r0. rewrite (Hother j Hne). auto.
  - intros j r0 Hr0 Hm0. destruct (decide (j = i)) as [-> | Hne].
    + assert (r0 = r') as -> by congruence. rewrite Hid.
      apply (inv_mapped s HI i r Hr (Hm Hm0)).
    + rewrite (Hother j Hne) in Hr0. apply (inv_mapped s HI j r0 Hr0 Hm0).
Qed.

(** The [close] listener. *)
Lemma Inv_closed (s : state) (w : nat) (k : socket) (r : conn) :
  Inv s -> sockets s !! w = Some k -> ws_readyState k <> CLOSED ->
  records s !! ws_rec k = Some r ->
  Inv (closed E w (ws_rec k) r s).
Proof.
  intros HI Hk Hlive Hr.
  destruct (Inv_socket_closed s w k r HI Hk Hlive Hr) as [HI1 Hrest].
  unfold closed. destruct (rec_manualClose r) eqn:Hm; [exact HI1 |].
  apply Inv_scheduled; try assumption.
  rewrite cleared_records. exact Hr.
Qed.

(** A dial of a record at rest that the user has not closed. *)
Lemma Inv_dialed (s : state) (i : nat) (r : conn) (o : ws_options) :
  Inv s -> records s !! i = Some r -> rec_manualClose r = false -> at_rest s i ->
  Inv (dialed i r o s).
Proof.
  intros HI Hr Hm Hrest. pose proof Hrest as [Hst Hidle].
  unfold dialed.
  set (wn := length (sockets s)).
  set (nk := {| ws_rec := i; ws_readyState := CONNECTING; ws_url := rec_url r;
                ws_protocols := rec_protocols r; ws_ctorOpts := o |}).
  set (r' := set_ws (Some wn) r).
  set (s' := upd_rec i _ _).
  assert (records s' !! i = Some r') as Hr'.
  { unfold s'. simpl. rewrite list_lookup_alter_eq, Hr. reflexivity. }
  assert (forall j, j <> i -> records s' !! j = records s !! j) as Hother.
  { intros j Hne. unfold s'. simpl. apply agree_records_alter. exact Hne. }
  assert (sockets s' = (sockets s ++ [nk])%list) as Hsocks by reflexivity.
  assert (timers s' = timers s) as Htimers by reflexivity.
  assert (record_state s' r' = CONNECTING) as Hnew.
  { rewrite record_state_socket_state, Hsocks. apply socket_state_snoc_new. }
  apply (Inv_focus s s' i HI).
  - split; [exact Hother |]. split; [| rewrite Htimers; reflexivity].
    rewrite Hsocks. apply agree_sockets_snoc. reflexivity.
  - split; rewrite ?Hr', ?Htimers.
    + intros r0 w0 [= <-] [= <-]. exists nk. rewrite Hsocks.
      split; [apply lookup_snoc_new | reflexivity].
    + intros r0 t [= <-]. apply (inv_rtimer s HI i r t Hr).
    + intros r0 t [= <-]. apply (inv_ptimer s HI i r t Hr).
    + intros w0 k0 Hk0 Hown Hl0. rewrite Hsocks in Hk0.
      apply lookup_snoc_inv in Hk0 as [Hk0 | [-> ->]].
      * exfalso. apply Hl0. apply (at_rest_sockets s i w0 k0 HI Hrest Hk0 Hown).
      * exists r'. auto.
    + intros t tm Ht Hown Hp. rewrite (Hidle t tm Ht Hown) in Hp. discriminate.
    + intros t tm Ht Hown Hp. rewrite (Hidle t tm Ht Hown) in Hp. discriminate.
    + intros r0 [= <-] Hst0. congruence.
    + intros r0 [= <-] Hm0. simpl in Hm0. congruence.
  - apply (entries_kept s s' i r r' HI); auto.
Qed.

(** [connect] for a record at rest that the user has not closed. *)
Lemma Inv_connected (s : state) (i : nat) (r : conn) (o : option ws_options) :
  Inv s -> records s !! i = Some r -> rec_manualClose r = false -> at_rest s i ->
  Inv (connected E i r o s).
Proof.
  intros HI Hr Hm Hrest. unfold connected.
  destruct (ws_ctor_error E (rec_url r)).
  - apply Inv_scheduled; assumption.
  - apply Inv_dialed; assumption.
Qed.

(** A reconnect timer that fires leaves its record at rest. *)
Lemma Inv_fired (s : state) (t : nat) (tm : timer) :
  Inv s -> timers s !! t = Some tm -> tm_pending tm = true ->
  tm_kind tm = ReconnectTimer ->
  exists r, records s !! tm_rec tm = Some r /\ rec_manualClose r = false /\
            Inv (cleared (Some t) s) /\ at_rest (cleared (Some t) s) (tm_rec tm).
Proof.
  intros HI Ht Hp Hkd.
  destruct (inv_reconnect s HI t tm Ht Hp Hkd) as (r & Hr & Hrt & Hm & Hst).
  exists r. split; [exact Hr |]. split; [exact Hm |].
  set (s' := cleared (Some t) s).
  assert (forall t' tm', timers s' !! t' = Some tm' -> tm_rec tm' = tm_rec tm ->
                         tm_pending tm' = false) as Hidle.
  { intros t' tm' Ht' Hown. destruct (tm_pending tm') eqn:Hp'; [exfalso | reflexivity].
    apply cleared_lookup in Ht' as (tm0 & Ht0 & _ & _ & Hsame).
    destruct (Hsame Hp') as [-> Hne].
    destruct (tm_kind tm') eqn:Hkd'.
    - destruct (inv_reconnect s HI t' tm' Ht0 Hp' Hkd') as (r0 & Hr0 & Hrt0 & _).
      rewrite Hown in Hr0. assert (r0 = r) as -> by congruence. congruence.
    - destruct (inv_ping s HI t' tm' Ht0 Hp' Hkd') as (r0 & Hr0 & _ & _ & _ & Hst0).
      rewrite Hown in Hr0. assert (r0 = r) as -> by congruence.
      destruct Hst0; congruence. }
  assert (forall r0, record_state s' r0 = record_state s r0) as Hsame
    by (intros r0; rewrite !record_state_socket_state; reflexivity).
  split; [| split; [intros r0 Hr0; rewrite Hsame; simpl in Hr0; congruence
                    | exact Hidle]].
  apply (Inv_focus s s' (tm_rec tm) HI).
  - split; [reflexivity |]. split; [reflexivity |].
    apply agree_timers_cleared. intros t0 tm0 [= <-] Ht0. congruence.
  - split; simpl records; simpl sockets.
    + intros r0 w0. apply (inv_ws s HI).
    + intros r0 t0 Hr0 Hrt0.
      destruct (inv_rtimer s HI _ r0 t0 Hr0 Hrt0) as (tm0 & Ht0 & Hown & Hkd0).
      destruct (cleared_lookup_old (Some t) s t0 tm0 Ht0) as (tm' & Ht' & ? & ? & _).
      exists tm'. split; [exact Ht' | split; congruence].
    + intros r0 t0 Hr0 Hrt0.
      destruct (inv_ptimer s HI _ r0 t0 Hr0 Hrt0) as (tm0 & Ht0 & Hown & Hkd0).
      destruct (cleared_lookup_old (Some t) s t0 tm0 Ht0) as (tm' & Ht' & ? & ? & _).
      exists tm'. split; [exact Ht' | split; congruence].
    + intros w0 k0 Hk0 <-. apply (inv_live s HI w0 k0 Hk0).
    + intros t0 tm0 Ht0 Hown Hp0. rewrite (Hidle t0 tm0 Ht0 Hown) in Hp0. discriminate.
    + intros t0 tm0 Ht0 Hown Hp0. rewrite (Hidle t0 tm0 Ht0 Hown) in Hp0. discriminate.
    + intros r0 Hr0 Hst0. rewrite Hsame in Hst0. congruence.
    + intros r0 Hr0 Hm0. congruence.
  - apply (Inv_entries s HI).
Qed.

(** The [open] listener. *)
Lemma Inv_opened (s : state) (w : nat) (k : socket) (r : conn) :
  Inv s -> sockets s !! w = Some k -> ws_readyState k = CONNECTING ->
  records s !! ws_rec k = Some r ->
  Inv (opened w (ws_rec k) r s).
Proof.
  intros HI Hk Hrs Hr.
  assert (ws_readyState k <> CLOSED) as Hlive by congruence.
  destruct (live_state s w k r HI Hk Hlive Hr) as [Hws Hst].
  assert (rec_manualClose r = false) as Hm.
  { destruct (rec_manualClose r) eqn:Hm; [| reflexivity].
    pose proof (inv_manual s HI _ r Hr Hm) as Hup. rewrite Hst, Hrs in Hup.
    discriminate. }
  assert (forall t tm, timers s !! t = Some tm -> tm_rec tm = ws_rec k ->
                       tm_pending tm = false) as Hidle.
  { intros t tm Ht Hown. destruct (tm_pending tm) eqn:Hp; [exfalso | reflexivity].
    destruct (tm_kind tm) eqn:Hkd.
    - destruct (inv_reconnect s HI t tm Ht Hp Hkd) as (r0 & Hr0 & _ & _ & Hst0).
      rewrite Hown in Hr0. assert (r0 = r) as -> by congruence. congruence.
    - destruct (inv_ping s HI t tm Ht Hp Hkd) as (r0 & Hr0 & _ & _ & _ & Hst0).
      rewrite Hown in Hr0. assert (r0 = r) as -> by congruence.
      destruct Hst0; congruence. }
  unfold opened.
  set (s0 := upd_rec (ws_rec k) (set_reconnectAttempts 0%nat)
               (with_sockets (alter (set_readyState OPEN) w) s)).
  assert (cleared (rec_pingTimer r) s0 = s0) as ->.
  { apply cleared_idle. intros t tm Hpt Ht. simpl in Ht.
    destruct (inv_ptimer s HI _ r t Hr Hpt) as (tm' & Ht' & Hown & _).
    apply (Hidle t tm Ht). congruence. }
  set (i := ws_rec k) in *.
  set (tn := length (timers s)).
  set (ntm := {| tm_kind := PingTimer; tm_rec := i;
                 tm_delay := Fin (rec_pingInterval r); tm_pending := true |}).
  match goal with |- Inv ?x => set (s' := x) end.
  set (r' := if 0 <? rec_pingInterval r
             then set_pingTimer (Some tn) (set_reconnectAttempts 0%nat r)
             else set_reconnectAttempts 0%nat r).
  assert (records s' !! i = Some r') as Hr'.
  { unfold s', r'. destruct (0 <? rec_pingInterval r); simpl;
      rewrite !list_lookup_alter_eq, Hr; reflexivity. }
  assert (forall j, j <> i -> records s' !! j = records s !! j) as Hother.
  { intros j Hne. unfold s'. destruct (0 <? rec_pingInterval r); simpl;
      rewrite !agree_records_alter by assumption; reflexivity. }
  assert (sockets s' = alter (set_readyState OPEN) w (sockets s)) as Hsocks
    by (unfold s'; destruct (0 <? rec_pingInterval r); reflexivity).
  assert (timers s' = if 0 <? rec_pingInterval r
                      then (timers s ++ [ntm])%list else timers s) as Htimers
    by (unfold s'; destruct (0 <? rec_pingInterval r); reflexivity).
  assert (connections s' = connections s) as Hconns
    by (unfold s'; destruct (0 <? rec_pingInterval r); reflexivity).
  assert (rec_ws r' = Some w) as Hws'
    by (unfold r'; destruct (0 <? rec_pingInterval r); exact Hws).
  assert (rec_manualClose r' = false) as Hm'
    by (unfold r'; destruct (0 <? rec_pingInterval r); exact Hm).
  assert (rec_pingInterval r' = rec_pingInterval r) as Hint
    by (unfold r'; destruct (0 <? rec_pingInterval r); reflexivity).
  assert (record_state s' r' = OPEN) as Hnew.
  { rewrite record_state_socket_state, Hsocks, Hws'.
    apply (socket_state_altered _ _ _ k Hk). }
  assert (forall t tm, timers s !! t = Some tm -> timers s' !! t = Some tm) as Hkeep.
  { intros t tm Ht. rewrite Htimers. destruct (0 <? rec_pingInterval r);
      [apply lookup_snoc_old |]; exact Ht. }
  apply (Inv_focus s s' i HI).
  - split; [exact Hother |]. split.
    + rewrite Hsocks. apply agree_sockets_alter. intros k0 Hk0.
      assert (k0 = k) as -> by congruence. reflexivity.
    + rewrite Htimers. destruct (0 <? rec_pingInterval r); [| reflexivity].
      apply agree_timers_snoc. reflexivity.
  - split; rewrite ?Hr'.
    + intros r0 w0 [= <-] Hws0. assert (w0 = w) as -> by congruence.
      destruct (sockets_alter_lookup_old OPEN w _ w k Hk) as (k' & Hk' & Hrec & _).
      exists k'. rewrite Hsocks. split; [exact Hk' | exact Hrec].
    + intros r0 t [= <-] Hrt.
      assert (rec_reconnectTimer r = Some t) as Hrt0
        by (unfold r' in Hrt; destruct (0 <? rec_pingInterval r); exact Hrt).
      destruct (inv_rtimer s HI i r t Hr Hrt0) as (tm & Ht & Hown & Hkd).
      exists tm. split; [apply Hkeep, Ht | auto].
    + intros r0 t [= <-] Hpt. rewrite Htimers. unfold r' in Hpt.
      destruct (0 <? rec_pingInterval r).
      * injection Hpt as <-. exists ntm. split; [apply lookup_snoc_new | auto].
      * apply (inv_ptimer s HI i r t Hr Hpt).
    + intros w0 k0 Hk0 Hown Hl0. rewrite Hsocks in Hk0.
      apply sockets_alter_lookup in Hk0 as (k1 & Hk1 & Hrec & _ & [[-> _] | [Hne ->]]).
      * exists r'. auto.
      * exfalso. apply Hl0. fold i in Hr. rewrite <- Hown in Hr.
        apply (stale_closed s w0 k1 r w HI Hk1 Hr Hws Hne).
    + intros t tm Ht Hown Hp Hkd. exfalso. rewrite Htimers in Ht.
      destruct (0 <? rec_pingInterval r).
      * apply lookup_snoc_inv in Ht as [Ht | [-> ->]]; [| discriminate].
        rewrite (Hidle t tm Ht Hown) in Hp. discriminate.
      * rewrite (Hidle t tm Ht Hown) in Hp. discriminate.
    + intros t tm Ht Hown Hp Hkd. rewrite Htimers in Ht. unfold r' in *.
      destruct (0 <? rec_pingInterval r) eqn:Hpos.
      * apply lookup_snoc_inv in Ht as [Ht | [-> ->]].
        -- rewrite (Hidle t tm Ht Hown) in Hp. discriminate.
        -- eexists. split; [reflexivity |]. apply Z.ltb_lt in Hpos. auto.
      * rewrite (Hidle t tm Ht Hown) in Hp. discriminate.
    + intros r0 [= <-] _ Hpos. rewrite Hint in Hpos. apply Z.ltb_lt in Hpos.
      rewrite Htimers. unfold r'. rewrite Hpos.
      exists tn, ntm. split; [reflexivity |]. split; [apply lookup_snoc_new | reflexivity].
    + intros r0 [= <-] Hm0. congruence.
  - apply (entries_kept s s' i r r' HI); auto.
    + unfold r'. destruct (0 <? rec_pingInterval r); reflexivity.
Qed.

(** The teardown of [closeConnection]: the record is closed by the user,
    none of its timers is pending, its transport is neither connecting nor
    open. *)
Lemma Inv_torn_down (s : state) (i : nat) (r : conn) :
  Inv s -> records s !! i = Some r ->
  let s' := torn_down i r s in
  Inv s' /\ records s' !! i = Some (set_manualClose true r) /\
  connections s' = connections s /\
  (forall j, j <> i -> records s' !! j = records s !! j) /\
  (forall t tm, timers s' !! t = Some tm -> tm_rec tm = i -> tm_pending tm = false).
Proof.
  intros HI Hr s'.
  set (s1 := cleared (rec_pingTimer r)
               (cleared (rec_reconnectTimer r) (upd_rec i (set_manualClose true) s))).
  set (r' := set_manualClose true r).
  assert (records s1 = alter (set_manualClose true) i (records s)) as Hrecs1
    by (unfold s1; rewrite !cleared_records; reflexivity).
  assert (sockets s1 = sockets s) as Hsocks1
    by (unfold s1; rewrite !cleared_sockets; reflexivity).
  assert (connections s1 = connections s) as Hconns1
    by (unfold s1; rewrite !cleared_connections; reflexivity).
  (* the timers of the record *)
  assert (forall t tm, timers s1 !! t = Some tm ->
            exists tm0, timers s !! t = Some tm0 /\ tm_kind tm = tm_kind tm0 /\
                        tm_rec tm = tm_rec tm0 /\
                        (tm_pending tm = true ->
                         tm0 = tm /\ rec_pingTimer r <> Some t /\
                         rec_reconnectTimer r <> Some t)) as Htm1.
  { intros t tm Ht. unfold s1 in Ht.
    apply cleared_lookup in Ht as (tm1 & Ht1 & Hk1 & Hr1 & Hp1).
    apply cleared_lookup in Ht1 as (tm0 & Ht0 & Hk0 & Hr0 & Hp0).
    exists tm0. simpl in Ht0. split; [exact Ht0 |].
    split; [congruence |]. split; [congruence |].
    intros Hp. destruct (Hp1 Hp) as [-> Hne1]. destruct (Hp0 Hp) as [-> Hne0]. auto. }
  assert (forall t tm0, timers s !! t = Some tm0 ->
            exists tm, timers s1 !! t = Some tm /\ tm_kind tm = tm_kind tm0 /\
                       tm_rec tm = tm_rec tm0) as Htm1'.
  { intros t tm0 Ht0.
    destruct (cleared_lookup_old (rec_reconnectTimer r)
                (upd_rec i (set_manualClose true) s) t tm0 Ht0)
      as (tm1 & Ht1 & Hk1 & Hr1 & _).
    destruct (cleared_lookup_old (rec_pingTimer r) _ t tm1 Ht1)
      as (tm & Ht & Hk & Hr2 & _).
    exists tm. split; [exact Ht | split; congruence]. }
  assert (forall t tm, timers s1 !! t = Some tm -> tm_rec tm = i ->
                       tm_pending tm = false) as Hidle1.
  { intros t tm Ht Hown. destruct (tm_pending tm) eqn:Hp; [exfalso | reflexivity].
    destruct (Htm1 t tm Ht) as (tm0 & Ht0 & _ & _ & Hsame).
    destruct (Hsame Hp) as (-> & Hnp & Hnr).
    destruct (tm_kind tm) eqn:Hkd.
    - destruct (inv_reconnect s HI t tm Ht0 Hp Hkd) as (r0 & Hr0 & Hrt0 & _).
      rewrite Hown in Hr0. assert (r0 = r) as -> by congruence. congruence.
    - destruct (inv_ping s HI t tm Ht0 Hp Hkd) as (r0 & Hr0 & Hpt0 & _).
      rewrite Hown in Hr0. assert (r0 = r) as -> by congruence. congruence. }
  assert (forall t tm, tm_rec tm <> i ->
            timers s1 !! t = Some tm <-> timers s !! t = Some tm) as Hagt.
  { intros t tm Hne. unfold s1. etransitivity.
    - apply (agree_timers_cleared i (rec_pingTimer r)
               (cleared (rec_reconnectTimer r) (upd_rec i (set_manualClose true) s)));
        [| exact Hne].
      intros t0 tm0 Hpt Ht0.
      apply cleared_lookup in Ht0 as (tm1 & Ht1 & _ & Hrec & _).
      destruct (inv_ptimer s HI i r t0 Hr Hpt) as (tm' & Ht' & Hown & _).
      simpl in Ht1. congruence.
    - apply (agree_timers_cleared i (rec_reconnectTimer r)
               (upd_rec i (set_manualClose true) s)); [| exact Hne].
      intros t0 tm0 Hrt Ht0.
      destruct (inv_rtimer s HI i r t0 Hr Hrt) as (tm' & Ht' & Hown & _).
      simpl in Ht0. congruence. }
  (* the transports of the record *)
  assert (exists ws',
            sockets s' = ws' /\ records s' = records s1 /\ timers s' = timers s1 /\
            connections s' = connections s1 /\
            is_up (socket_state ws' (rec_ws r)) = false /\
            (forall w0 k0, sockets s !! w0 = Some k0 ->
               exists k', ws' !! w0 = Some k' /\ ws_rec k' = ws_rec k0) /\
            (forall w0 k', ws' !! w0 = Some k' ->
               exists k0, sockets s !! w0 = Some k0 /\ ws_rec k' = ws_rec k0 /\
                          (ws_readyState k' <> CLOSED -> ws_readyState k0 <> CLOSED)) /\
            (forall w0 k', ws_rec k' <> i ->
               ws' !! w0 = Some k' <-> sockets s !! w0 = Some k'))
    as (ws' & Hsocks & Hrecs & Htimers & Hconns & Hdown & Hfw & Hbw & Hags).
  { unfold s', torn_down. fold s1. unfold record_ws.
    destruct (rec_ws r) as [w |] eqn:Hws; simpl.
    - destruct (inv_ws s HI i r w Hr Hws) as (k & Hk & Hown). rewrite Hk. simpl.
      destruct (is_up (ws_readyState k)) eqn:Hup.
      + exists (alter (set_readyState CLOSING) w (sockets s)).
        cbn [sockets with_sockets records timers connections].
        rewrite Hsocks1. do 4 (split; [reflexivity |]).
        split; [| split; [| split]].
        * unfold socket_state. rewrite (lookup_alter_same _ _ _ _ Hk). reflexivity.
        * intros w0 k0 Hk0.
          destruct (sockets_alter_lookup_old CLOSING w _ w0 k0 Hk0) as (k' & ? & ? & _).
          eauto.
        * intros w0 k' Hk'.
          apply sockets_alter_lookup in Hk' as (k0 & Hk0 & Hrec & _ & Hcase).
          exists k0. split; [exact Hk0 |]. split; [exact Hrec |].
          destruct Hcase as [[-> _] | [_ ->]]; [| auto].
          intros _ Hc. assert (k0 = k) as -> by congruence.
          rewrite Hc in Hup. discriminate.
        * apply agree_sockets_alter. intros k0 Hk0. congruence.
      + exists (sockets s). rewrite Hsocks1. do 4 (split; [reflexivity |]).
        split; [unfold socket_state; rewrite Hk; exact Hup |].
        split; [eauto |].
        split; [intros w0 k' Hk'; exists k'; auto |].
        intros w0 k' _. reflexivity.
    - exists (sockets s). rewrite Hsocks1. do 4 (split; [reflexivity |]).
      split; [reflexivity |].
      split; [eauto |].
      split; [intros w0 k' Hk'; exists k'; auto |].
      intros w0 k' _. reflexivity. }
  assert (records s' !! i = Some r') as Hr'
    by (rewrite Hrecs, Hrecs1, list_lookup_alter_eq, Hr; reflexivity).
  assert (forall j, j <> i -> records s' !! j = records s !! j) as Hother
    by (intros j Hne; rewrite Hrecs, Hrecs1; apply agree_records_alter; exact Hne).
  assert (is_up (record_state s' r') = false) as Hnew
    by (rewrite record_state_socket_state, Hsocks; exact Hdown).
  split; [| split; [exact Hr' | split; [congruence | split; [exact Hother |]]]].
  2: { rewrite Htimers. exact Hidle1. }
  apply (Inv_focus s s' i HI).
  - split; [exact Hother |]. split; [rewrite Hsocks; exact Hags |].
    rewrite Htimers. exact Hagt.
  - split; rewrite ?Hr', ?Htimers, ?Hsocks.
    + intros r0 w0 [= <-] Hws0.
      destruct (inv_ws s HI i r w0 Hr Hws0) as (k0 & Hk0 & Hown).
      destruct (Hfw w0 k0 Hk0) as (k' & Hk' & Hrec). exists k'. split; [exact Hk' | congruence].
    + intros r0 t [= <-] Hrt.
      destruct (inv_rtimer s HI i r t Hr Hrt) as (tm & Ht & Hown & Hkd).
      destruct (Htm1' t tm Ht) as (tm' & Ht' & ? & ?).
      exists tm'. split; [exact Ht' | split; congruence].
    + intros r0 t [= <-] Hpt.
      destruct (inv_ptimer s HI i r t Hr Hpt) as (tm & Ht & Hown & Hkd).
      destruct (Htm1' t tm Ht) as (tm' & Ht' & ? & ?).
      exists tm'. split; [exact Ht' | split; congruence].
    + intros w0 k' Hk' Hown Hl.
      destruct (Hbw w0 k' Hk') as (k0 & Hk0 & Hrec & Hlive).
      destruct (inv_live s HI w0 k0 Hk0 (Hlive Hl)) as (r0 & Hr0 & Hws0).
      rewrite <- Hrec, Hown in Hr0. assert (r0 = r) as -> by congruence.
      exists r'. auto.
    + intros t tm Ht Hown Hp. rewrite (Hidle1 t tm Ht Hown) in Hp. discriminate.
    + intros t tm Ht Hown Hp. rewrite (Hidle1 t tm Ht Hown) in Hp. discriminate.
    + intros r0 [= <-] Hst0. rewrite Hst0 in Hnew. discriminate.
    + intros r0 [= <-] _. exact Hnew.
  - apply (entries_kept s s' i r r' HI); auto; [congruence | discriminate].
Qed.

Lemma local_same (s s' : state) (i : nat) :
  records s' = records s -> sockets s' = sockets s -> timers s' = timers s ->
  local s i -> local s' i.
Proof.
  intros Hr Hs Ht HL.
  assert (forall r, record_state s' r = record_state s r) as Hst
    by (intros r; rewrite !record_state_socket_state, Hs; reflexivity).
  destruct HL as [H1 H2 H3 H4 H5 H6 H7 H8].
  split; rewrite ?Hr, ?Hs, ?Ht; try assumption.
  - intros t tm Htm Hown Hp Hkd. destruct (H5 t tm Htm Hown Hp Hkd) as (r & ?).
    exists r. rewrite Hst. assumption.
  - intros t tm Htm Hown Hp Hkd. destruct (H6 t tm Htm Hown Hp Hkd) as (r & ?).
    exists r. rewrite Hst. assumption.
  - intros r. rewrite Hst. apply H7.
  - intros r. rewrite Hst. apply H8.
Qed.

(** [connections.delete(id)] for an entry closed by the user. *)
Lemma Inv_unmapped (s : state) (id : string) :
  Inv s ->
  (forall i r, assoc_get id (connections s) = Some i -> records s !! i = Some r ->
               rec_manualClose r = true) ->
  Inv (with_connections (assoc_delete id) s).
Proof.
  intros HI Hman. apply Inv_of_local.
  - intros i. apply (local_same s); try reflexivity. apply Inv_local, HI.
  - split; simpl.
    + intros id0 i Hi. destruct (String.eqb_spec id0 id) as [-> | Hne].
      * rewrite assoc_get_delete_eq in Hi. discriminate.
      * rewrite assoc_get_delete_ne in Hi by exact Hne. apply (inv_entry s HI id0 i Hi).
    + intros i r Hr Hm. pose proof (inv_mapped s HI i r Hr Hm) as Hi.
      destruct (String.eqb_spec (rec_id r) id) as [Heq | Hne].
      * rewrite Heq in Hi. rewrite (Hman i r Hi Hr) in Hm. discriminate.
      * rewrite assoc_get_delete_ne by exact Hne. exact Hi.
Qed.

(** The new record of [openConnection], stored under its id. *)
Lemma Inv_installed (s : state) (c : config) (id : string) (o : opts) :
  Inv s ->
  (forall i r, assoc_get id (connections s) = Some i -> records s !! i = Some r ->
               rec_manualClose r = true) ->
  let s' := installed c id o s in
  let n := length (records s) in
  Inv s' /\ records s' !! n = Some (new_record c id o) /\ at_rest s' n.
Proof.
  intros HI Hman s' n.
  assert (records s !! n = None) as Hfresh by (apply lookup_ge_None_2; reflexivity).
  assert (records s' !! n = Some (new_record c id o)) as Hn
    by (apply lookup_snoc_new).
  assert (forall j, j <> n -> records s' !! j = records s !! j) as Hother
    by (intros j Hne; apply agree_records_snoc; exact Hne).
  assert (forall t tm, timers s !! t = Some tm -> tm_rec tm = n ->
                       tm_pending tm = false) as Hidle.
  { intros t tm Ht Hown. destruct (tm_pending tm) eqn:Hp; [exfalso | reflexivity].
    destruct (tm_kind tm) eqn:Hkd.
    - destruct (inv_reconnect s HI t tm Ht Hp Hkd) as (r0 & Hr0 & _). congruence.
    - destruct (inv_ping s HI t tm Ht Hp Hkd) as (r0 & Hr0 & _). congruence. }
  assert (forall r, records s' !! n = Some r -> record_state s' r = CLOSED) as Hnew
    by (intros r Hr; assert (r = new_record c id o) as -> by congruence; reflexivity).
  split; [| split; [exact Hn | split; [exact Hnew | exact Hidle]]].
  apply (Inv_focus s s' n HI).
  - split; [exact Hother |]. split; reflexivity.
  - split; rewrite ?Hn.
    + intros r w [= <-]. discriminate.
    + intros r t [= <-]. discriminate.
    + intros r t [= <-]. discriminate.
    + intros w k Hk Hown Hl. exfalso.
      destruct (inv_live s HI w k Hk Hl) as (r0 & Hr0 & _). congruence.
    + intros t tm Ht Hown Hp. rewrite (Hidle t tm Ht Hown) in Hp. discriminate.
    + intros t tm Ht Hown Hp. rewrite (Hidle t tm Ht Hown) in Hp. discriminate.
    + intros r [= <-]. discriminate.
    + intros r [= <-]. discriminate.
  - split; simpl.
    + intros id0 i Hi. destruct (String.eqb_spec id0 id) as [-> | Hne].
      * rewrite assoc_get_set_eq in Hi. injection Hi as <-.
        exists (new_record c id o). split; [exact Hn | reflexivity].
      * rewrite assoc_get_set_ne in Hi by exact Hne.
        destruct (inv_entry s HI id0 i Hi) as (r & Hr & Hid).
        exists r. split; [apply lookup_snoc_old, Hr | exact Hid].
    + intros i r Hr Hm. apply lookup_snoc_inv in Hr as [Hr | [-> ->]].
      * pose proof (inv_mapped s HI i r Hr Hm) as Hi.
        destruct (String.eqb_spec (rec_id r) id) as [Heq | Hne].
        -- rewrite Heq in Hi. rewrite (Hman i r Hi Hr) in Hm. discriminate.
        -- rewrite assoc_get_set_ne by exact Hne. exact Hi.
      * simpl. apply assoc_get_set_eq.
Qed.

End Transitions.

(** *** Handlers, turns and runs keep the invariant *)

Section Handlers.

Context (E : env).

Lemma exec_bind {A B : Type} (c : M A) (k : A -> M B) (s : state) :
  exec (c ≫= k) s = exec (k (fst (fst (c s)))) (exec c s).
Proof.
  unfold exec, mbind, M_bind. destruct (c s) as [[a s1] o1]. simpl.
  destruct (k a s1) as [[b s2] o2]. reflexivity.
Qed.

Lemma emitted_bind {A B : Type} (c : M A) (k : A -> M B) (s : state) :
  emitted (c ≫= k) s
  = (emitted c s ++ emitted (k (fst (fst (c s)))) (exec c s))%list.
Proof.
  unfold emitted, exec, mbind, M_bind. destruct (c s) as [[a s1] o1]. simpl.
  destruct (k a s1) as [[b s2] o2]. reflexivity.
Qed.

Lemma keeps_bind {A B : Type} (J : state -> Prop) (c : M A) (k : A -> M B) :
  keeps J c -> (forall a, keeps J (k a)) -> keeps J (c ≫= k).
Proof. intros Hc Hk s HJ. rewrite exec_bind. apply Hk, Hc, HJ. Qed.

Lemma keeps_ret {A : Type} (J : state -> Prop) (a : A) : keeps J (mret a : M A).
Proof. intros s HJ. exact HJ. Qed.

Lemma keeps_gets {A : Type} (J : state -> Prop) (f : state -> A) : keeps J (gets f).
Proof. intros s HJ. exact HJ. Qed.

Lemma keeps_emit (J : state -> Prop) (o : output) : keeps J (emit o).
Proof. intros s HJ. exact HJ. Qed.

Lemma keeps_modify (J : state -> Prop) (f : state -> state) :
  (forall s, J s -> J (f s)) -> keeps J (modify f).
Proof. intros Hf s HJ. apply Hf, HJ. Qed.

Lemma keeps_for_each {A : Type} (J : state -> Prop) (f : A -> M unit) (l : list A) :
  (forall a, keeps J (f a)) -> keeps J (for_each f l).
Proof.
  intros Hf. induction l as [| a l IH]; simpl.
  - apply keeps_ret.
  - apply keeps_bind; [apply Hf | intros _; exact IH].
Qed.

Lemma emits_bind {A B : Type} (P : output -> Prop) (c : M A) (k : A -> M B) :
  emits P c -> (forall a, emits P (k a)) -> emits P (c ≫= k).
Proof.
  intros Hc Hk s. rewrite emitted_bind. apply Forall_app. split; [apply Hc | apply Hk].
Qed.

Lemma emits_ret {A : Type} (P : output -> Prop) (a : A) : emits P (mret a : M A).
Proof. intros s. constructor. Qed.

Lemma emits_gets {A : Type} (P : output -> Prop) (f : state -> A) : emits P (gets f).
Proof. intros s. constructor. Qed.

Lemma emits_modify (P : output -> Prop) (f : state -> state) : emits P (modify f).
Proof. intros s. constructor. Qed.

Lemma emits_emit (P : output -> Prop) (o : output) : P o -> emits P (emit o).
Proof. intros Ho s. constructor; [exact Ho | constructor]. Qed.

Lemma emits_for_each {A : Type} (P : output -> Prop) (f : A -> M unit) (l : list A) :
  (forall a, emits P (f a)) -> emits P (for_each f l).
Proof.
  intros Hf. induction l as [| a l IH]; simpl.
  - apply emits_ret.
  - apply emits_bind; [apply Hf | intros _; exact IH].
Qed.

(** *** [closeConnection] and [openConnection] *)

Lemma closeConnection_absent (id : string) (remove silent : bool) (s : state) :
  assoc_get id (connections s) = None ->
  closeConnection id remove silent s = (tt, s, []).
Proof. intros Hi. unfold closeConnection. munfold. rewrite Hi. reflexivity. Qed.

Lemma closeConnection_run (id : string) (remove silent : bool) (s : state)
    (i : nat) (r : conn) :
  assoc_get id (connections s) = Some i -> records s !! i = Some r ->
  closeConnection id remove silent s
  = (tt,
     (if remove then with_connections (assoc_delete id) (torn_down i r s)
      else torn_down i r s),
     (teardown_outputs s r
      ++ (if silent then [] else [NodeStatus "grey" "ring" ("closed " ++ id)]))%list).
Proof.
  intros Hi Hr. unfold closeConnection, close_if_up. munfold. rewrite Hi. munfold.
  cbn [records upd_rec with_records]. rewrite list_lookup_alter_eq, Hr.
  cbn [fmap option_fmap option_map]. rewrite !clearTimer_run.
  cbn [rec_reconnectTimer rec_pingTimer rec_ws set_manualClose].
  unfold torn_down, teardown_outputs, record_ws.
  destruct (rec_ws r) as [w |]; cbn [mbind option_bind].
  - rewrite !cleared_sockets. cbn [sockets upd_rec with_records].
    destruct (sockets s !! w) as [k |]; cbn [mbind option_bind].
    + destruct (is_up (ws_readyState k)); destruct remove, silent; reflexivity.
    + destruct remove, silent; reflexivity.
  - destruct remove, silent; reflexivity.
Qed.

(** After [closeConnection], every record of the id that is still an entry
    is closed by the user. *)
Lemma closeConnection_post (id : string) (remove silent : bool) (s : state) :
  Inv s ->
  let s' := exec (closeConnection id remove silent) s in
  Inv s' /\
  (forall i r, assoc_get id (connections s') = Some i -> records s' !! i = Some r ->
               rec_manualClose r = true) /\
  length (records s') = length (records s) /\
  (forall i r, records s !! i = Some r ->
     exists r', records s' !! i = Some r' /\ rec_id r' = rec_id r /\
                (rec_manualClose r = true -> rec_manualClose r' = true)).
Proof.
  intros HI. unfold exec.
  destruct (assoc_get id (connections s)) as [i |] eqn:Hi.
  - destruct (inv_entry s HI id i Hi) as (r & Hr & Hid).
    rewrite (closeConnection_run id remove silent s i r Hi Hr). cbn [fst snd].
    destruct (Inv_torn_down s i r HI Hr) as (HI' & Hr' & Hc' & Hother & _).
    assert (length (records (torn_down i r s)) = length (records s)) as Hlen.
    { unfold torn_down. destruct (record_ws s r) as [[w k] |];
        [destruct (is_up (ws_readyState k)) |]; cbn [records with_sockets];
        rewrite !cleared_records; apply length_alter. }
    assert (forall j r0, records s !! j = Some r0 ->
              exists r', records (torn_down i r s) !! j = Some r' /\
                         rec_id r' = rec_id r0 /\
                         (rec_manualClose r0 = true -> rec_manualClose r' = true))
      as Hrecs.
    { intros j r0 Hr0. destruct (decide (j = i)) as [-> | Hne].
      - exists (set_manualClose true r). assert (r0 = r) as -> by congruence. auto.
      - exists r0. rewrite (Hother j Hne). auto. }
    assert (forall j r0, assoc_get id (connections (torn_down i r s)) = Some j ->
              records (torn_down i r s) !! j = Some r0 -> rec_manualClose r0 = true)
      as Hman.
    { intros j r0 Hj Hr0. rewrite Hc', Hi in Hj. injection Hj as <-.
      rewrite Hr' in Hr0. injection Hr0 as <-. reflexivity. }
    destruct remove.
    + split; [apply Inv_unmapped; assumption |]. split; [| split; [exact Hlen | exact Hrecs]].
      intros j r0 Hj. cbn [connections with_connections] in Hj.
      rewrite assoc_get_delete_eq in Hj. discriminate.
    + auto.
  - rewrite (closeConnection_absent id remove silent s Hi). cbn [fst snd].
    split; [exact HI |]. split; [intros i r Hi'; congruence |]. split; [reflexivity |].
    intros i r Hr. eauto.
Qed.

Lemma Inv_closeConnection (id : string) (remove silent : bool) :
  keeps Inv (closeConnection id remove silent).
Proof. intros s HI. apply (closeConnection_post id remove silent s HI). Qed.

(** The store after [openConnection]: the old entry torn down, the new
    record stored and dialed. *)
Lemma openConnection_exec (id : string) (o : opts) (s : state) :
  let s1 := exec (closeConnection id false true) s in
  exec (openConnection E id o) s
  = connected E (length (records s1)) (new_record (node_config E) id o)
      (Some (new_options o (proxy_agent E o)))
      (installed (node_config E) id o s1).
Proof.
  intros s1. subst s1. unfold exec, openConnection. munfold.
  assert (forall s1, records (installed (node_config E) id o s1)
                       !! length (records s1)
                     = Some (new_record (node_config E) id o)) as Hn
    by (intros s1; apply lookup_snoc_new).
  destruct (assoc_get id (connections s)) as [i |] eqn:Hi.
  - destruct (closeConnection id false true s) as [[u s1] o1]. cbn [fst snd].
    unfold proxy_agent.
    destruct (truthy (o_proxy o)); [destruct (proxy_error E (default "" (o_proxy o))) |];
      munfold;
      match goal with
      | |- context [connect E ?n ?opt ?st] =>
          change st with (installed (node_config E) id o s1);
          rewrite (connect_run E n (new_record (node_config E) id o) opt
                     (installed (node_config E) id o s1) (Hn s1) eq_refl)
      end; reflexivity.
  - rewrite (closeConnection_absent id false true s Hi). cbn [fst snd].
    unfold proxy_agent.
    destruct (truthy (o_proxy o)); [destruct (proxy_error E (default "" (o_proxy o))) |];
      munfold;
      match goal with
      | |- context [connect E ?n ?opt ?st] =>
          change st with (installed (node_config E) id o s);
          rewrite (connect_run E n (new_record (node_config E) id o) opt
                     (installed (node_config E) id o s) (Hn s) eq_refl)
      end; reflexivity.
Qed.

Lemma Inv_openConnection (id : string) (o : opts) : keeps Inv (openConnection E id o).
Proof.
  intros s HI. rewrite openConnection_exec.
  destruct (closeConnection_post id false true s HI) as (HI1 & Hman & _).
  destruct (Inv_installed _ (node_config E) id o HI1 Hman) as (HI2 & Hn & Hrest).
  apply Inv_connected; auto.
Qed.

(** *** The listeners of the node *)

Ltac keeps_structure :=
  repeat first
    [ apply keeps_ret | apply keeps_emit | apply keeps_gets
    | apply Inv_closeConnection | apply Inv_openConnection
    | apply keeps_for_each; intros
    | apply keeps_bind; [| intros]
    | match goal with |- keeps _ (match ?x with _ => _ end) => destruct x end ].

Lemma Inv_on_command (cmd : jsval) : keeps Inv (on_command E cmd).
Proof. unfold on_command, throw, ack, listState. keeps_structure. Qed.

Lemma Inv_on_input (m : msg) : keeps Inv (on_input E m).
Proof.
  unfold on_input, sendTo.
  destruct (msg_websocketId m) as [wsid |]; [| keeps_structure].
  destruct (String.eqb wsid "CMD"); [apply Inv_on_command |].
  keeps_structure.
Qed.

Lemma Inv_on_node_close : keeps Inv on_node_close.
Proof. unfold on_node_close. keeps_structure. Qed.

Lemma Inv_on_message (k : socket) (data : wsdata) (b : bool) :
  keeps Inv (on_message E k data b).
Proof. unfold on_message, with_rec. keeps_structure. Qed.

Lemma Inv_on_error (k : socket) (message : string) (code : option string) :
  keeps Inv (on_error k message code).
Proof. unfold on_error, with_rec. keeps_structure. Qed.

Lemma Inv_on_unexpected_response (k : socket) (statusCode : Z) (hdrs : headers)
    (body : string) :
  keeps Inv (on_unexpected_response k statusCode hdrs body).
Proof. unfold on_unexpected_response, with_rec. keeps_structure. Qed.

Lemma Inv_on_ping (i : nat) : keeps Inv (on_ping i).
Proof. unfold on_ping, with_rec. keeps_structure. Qed.

Lemma run_handler_exec (h : M unit) (s s' : state) (out : list output) :
  run_handler h s = Some (s', out) -> s' = exec h s /\ out = emitted h s.
Proof.
  unfold run_handler, exec, emitted. destruct (h s) as [[u s1] o1].
  intros [= <- <-]. auto.
Qed.

(** One turn of the event loop keeps the invariant. *)
Lemma step_Inv (e : event) (s s' : state) (out : list output) :
  Inv s -> step E e s = Some (s', out) -> Inv s'.
Proof.
  intros HI Hstep. destruct e as [m | | w | w data b | w code reason | w msg code
                                 | w sc hdrs body | w | t]; simpl in Hstep.
  - apply run_handler_exec in Hstep as [-> _]. apply Inv_on_input, HI.
  - apply run_handler_exec in Hstep as [-> _]. apply Inv_on_node_close, HI.
  - destruct (sockets s !! w) as [k |] eqn:Hk;
      [| unfold on_socket in Hstep; rewrite Hk in Hstep; discriminate].
    destruct (readyState_eqb (ws_readyState k) CONNECTING) eqn:Hst;
      [| unfold on_socket in Hstep; rewrite Hk, Hst in Hstep; discriminate].
    assert (ws_readyState k = CONNECTING) as Hrs
      by (destruct (ws_readyState k); try discriminate; reflexivity).
    destruct (inv_live s HI w k Hk ltac:(congruence)) as (r & Hr & _).
    change (step E (WsOpened w) s = Some (s', out)) in Hstep.
    rewrite (step_opened E s w k r Hk Hrs Hr) in Hstep. injection Hstep as <- _.
    apply Inv_opened; assumption.
  - destruct (sockets s !! w) as [k |]; [| discriminate].
    destruct (ws_readyState k); try discriminate;
      apply run_handler_exec in Hstep as [-> _]; apply Inv_on_message, HI.
  - destruct (sockets s !! w) as [k |] eqn:Hk;
      [| unfold on_socket in Hstep; rewrite Hk in Hstep; discriminate].
    destruct (readyState_eqb (ws_readyState k) CLOSED) eqn:Hst;
      [unfold on_socket in Hstep; rewrite Hk, Hst in Hstep; discriminate |].
    assert (ws_readyState k <> CLOSED) as Hlive
      by (intros Hc; rewrite Hc in Hst; discriminate).
    destruct (inv_live s HI w k Hk Hlive) as (r & Hr & _).
    change (step E (WsClosed w code reason) s = Some (s', out)) in Hstep.
    rewrite (step_closed E s w k r code reason Hk Hlive Hr) in Hstep.
    injection Hstep as <- _. apply Inv_closed; assumption.
  - destruct (sockets s !! w) as [k |]; [| discriminate].
    destruct (readyState_eqb (ws_readyState k) CLOSED); [discriminate |].
    apply run_handler_exec in Hstep as [-> _]. apply Inv_on_error, HI.
  - destruct (sockets s !! w) as [k |]; [| discriminate].
    destruct (ws_readyState k); try discriminate;
      apply run_handler_exec in Hstep as [-> _];
      apply Inv_on_unexpected_response, HI.
  - unfold on_socket in Hstep.
    destruct (sockets s !! w) as [k |] eqn:Hk; [| discriminate].
    destruct (is_up (ws_readyState k)) eqn:Hup; [| discriminate].
    injection Hstep as <- _. apply (Inv_closing s w k HI Hk Hup).
  - destruct (timers s !! t) as [tm |] eqn:Ht; [| discriminate].
    destruct (tm_pending tm) eqn:Hp; [| discriminate].
    destruct (tm_kind tm) eqn:Hkd.
    + destruct (Inv_fired s t tm HI Ht Hp Hkd) as (r & Hr & Hm & HI1 & Hrest).
      change (match tm_kind tm with
              | ReconnectTimer => _
              | PingTimer => _
              end) with (match tm_kind tm with
                         | ReconnectTimer =>
                             run_handler
                               (modify (with_timers (alter (set_pending false) t));;
                                connect E (tm_rec tm) None) s
                         | PingTimer => run_handler (on_ping (tm_rec tm)) s
                         end) in Hstep.
      pose proof (step_reconnect_timer E s t tm r Ht Hp Hkd Hr Hm) as Hs.
      simpl in Hs. rewrite Ht, Hp, Hkd in Hs. rewrite Hs in Hstep.
      injection Hstep as <- _. apply Inv_connected; assumption.
    + apply run_handler_exec in Hstep as [-> _]. apply Inv_on_ping, HI.
Qed.

Lemma Inv_empty : Inv empty_state.
Proof. split; simpl; intros; try discriminate. Qed.

Lemma Inv_initial : Inv (initial_state E).
Proof.
  unfold initial_state. change (Inv (exec (node_start E) empty_state)).
  assert (keeps Inv (node_start E)) as Hk.
  { unfold node_start. keeps_structure. }
  apply Hk, Inv_empty.
Qed.

Lemma run_Inv (es : list event) (s s' : state) (out : list output) :
  Inv s -> run E es s = Some (s', out) -> Inv s'.
Proof.
  revert s out. induction es as [| e es IH]; intros s out HI Hrun; simpl in Hrun.
  - injection Hrun as <- _. exact HI.
  - destruct (step E e s) as [[s1 o1] |] eqn:Hstep; [| discriminate].
    destruct (run E es s1) as [[s2 o2] |] eqn:Hrest; [| discriminate].
    injection Hrun as <- _. apply (IH s1 o2); [| exact Hrest].
    apply (step_Inv e s s1 o1 HI Hstep).
Qed.

(** The invariant holds in every store that the node can reach. *)
Lemma reachable_Inv (s : state) : reachable E s -> Inv s.
Proof. intros (es & out & Hrun). apply (run_Inv es _ s out Inv_initial Hrun). Qed.

End Handlers.

(** *** Properties of the store that every assignment keeps *)

Section Stable.

Context (E : env) (J : state -> Prop) (allowed : string -> Prop).
Hypothesis HS : stable J allowed.

Ltac leaf :=
  first [ apply (st_timers J allowed HS) | apply (st_sockets J allowed HS)
        | apply (st_draws J allowed HS) | apply (st_manual J allowed HS)
        | apply (st_ws J allowed HS) | apply (st_pingTimer J allowed HS)
        | apply (st_attempts J allowed HS) | apply (st_reconnectTimer J allowed HS)
        | apply (st_delete J allowed HS) | apply (st_set J allowed HS)
        | apply (st_record J allowed HS) ];
  assumption.

Ltac walk :=
  repeat first
    [ apply keeps_ret | apply keeps_emit | apply keeps_gets
    | apply keeps_bind; [| intros]
    | apply keeps_for_each; intros
    | apply keeps_modify; intros; leaf
    | match goal with |- keeps _ (match ?x with _ => _ end) => destruct x end
    | progress (unfold clearTimer, newTimer, newSocket, close_if_up, Math_random,
                  with_rec, scheduleReconnect, setupPing, connect, closeConnection,
                  throw, ack, listState, sendTo) ].

Lemma stable_scheduleReconnect (i : nat) : keeps J (scheduleReconnect E i).
Proof. unfold scheduleReconnect, with_rec, clearTimer, Math_random, newTimer. walk. Qed.

Lemma stable_setupPing (i : nat) : keeps J (setupPing i).
Proof. unfold setupPing, with_rec, clearTimer, newTimer. walk. Qed.

Lemma stable_connect (i : nat) (o : option ws_options) : keeps J (connect E i o).
Proof.
  unfold connect, with_rec, newSocket. walk.
Qed.

Lemma stable_closeConnection (id : string) (remove silent : bool) :
  keeps J (closeConnection id remove silent).
Proof. unfold closeConnection, with_rec, clearTimer, close_if_up. walk. Qed.

Lemma stable_openConnection (id : string) (o : opts) :
  allowed id -> keeps J (openConnection E id o).
Proof.
  intros Hid. unfold openConnection.
  apply keeps_bind; [apply keeps_gets | intros existing].
  apply keeps_bind;
    [destruct existing; [apply stable_closeConnection | apply keeps_ret] | intros _].
  apply keeps_bind; [walk | intros agent].
  apply keeps_bind; [apply keeps_gets | intros i].
  apply keeps_bind; [apply keeps_modify; intros; leaf | intros _].
  apply keeps_bind; [apply keeps_modify; intros; leaf | intros _].
  apply stable_connect.
Qed.

Lemma stable_on_command (cmd : jsval) :
  (forall id, is_action (as_string (field "action" cmd)) "create" = true ->
              as_string (field "id" cmd) = Some id -> allowed id) ->
  keeps J (on_command E cmd).
Proof.
  intros Hid. unfold on_command, throw, ack, listState.
  destruct (is_action (as_string (field "action" cmd)) "create").
  - destruct (as_string (field "id" cmd)) as [id |]; [| walk].
    destruct (as_string (field "url" cmd)) as [url |]; [| walk].
    destruct (negb (truthy (Some id)) || negb (truthy (Some url))); [walk |].
    apply keeps_bind; [apply stable_openConnection; auto | intros _]. walk.
  - walk.
Qed.

Lemma stable_step (e : event) (s s' : state) (out : list output) :
  (forall id, created_id e = Some id -> allowed id) ->
  J s -> step E e s = Some (s', out) -> J s'.
Proof.
  intros Hid HJ Hstep.
  assert (forall h, keeps J h -> run_handler h s = Some (s', out) -> J s') as Hrun.
  { intros h Hh Hr. apply run_handler_exec in Hr as [-> _]. apply Hh, HJ. }
  assert (forall w ok next h, (forall k, keeps J (h k)) ->
            on_socket w ok next h s = Some (s', out) -> J s') as Hsock.
  { intros w ok next h Hh Hr. unfold on_socket in Hr.
    destruct (sockets s !! w) as [k |]; [| discriminate].
    destruct (ok (ws_readyState k)); [| discriminate].
    apply (Hrun (modify (with_sockets (alter (set_readyState next) w));; h k));
      [| exact Hr].
    apply keeps_bind; [apply keeps_modify; intros; leaf | intros _; apply Hh]. }
  destruct e as [m | | w | w data b | w code reason | w msg code
                | w sc hdrs body | w | t]; simpl in Hstep.
  - apply (Hrun (on_input E m)); [| exact Hstep].
    unfold on_input, sendTo. simpl in Hid.
    destruct (msg_websocketId m) as [wsid |]; [| walk].
    destruct (String.eqb wsid "CMD"); [| walk].
    apply stable_on_command. intros id Ha Hi. apply Hid. rewrite Ha. exact Hi.
  - apply (Hrun on_node_close); [| exact Hstep].
    unfold on_node_close. walk.
  - refine (Hsock _ _ _ _ _ Hstep). intros k. unfold on_open. walk.
  - destruct (sockets s !! w) as [k |]; [| discriminate].
    destruct (ws_readyState k); try discriminate;
      (apply (Hrun (on_message E k data b)); [| exact Hstep];
       unfold on_message, with_rec; walk).
  - refine (Hsock _ _ _ _ _ Hstep). intros k. unfold on_close. walk.
  - destruct (sockets s !! w) as [k |]; [| discriminate].
    destruct (readyState_eqb (ws_readyState k) CLOSED); [discriminate |].
    apply (Hrun (on_error k msg code)); [| exact Hstep].
    unfold on_error, with_rec. walk.
  - destruct (sockets s !! w) as [k |]; [| discriminate].
    destruct (ws_readyState k); try discriminate;
      (apply (Hrun (on_unexpected_response k sc hdrs body)); [| exact Hstep];
       unfold on_unexpected_response, with_rec; walk).
  - refine (Hsock _ _ _ _ _ Hstep). intros k. walk.
  - destruct (timers s !! t) as [tm |]; [| discriminate].
    destruct (tm_pending tm); [| discriminate].
    destruct (tm_kind tm).
    + refine (Hrun _ _ Hstep).
      apply keeps_bind; [apply keeps_modify; intros; leaf
                        | intros _; apply stable_connect].
    + apply (Hrun (on_ping (tm_rec tm))); [| exact Hstep].
      unfold on_ping, with_rec. walk.
Qed.

Lemma stable_run (es : list event) (s s' : state) (out : list output) :
  (forall e id, In e es -> created_id e = Some id -> allowed id) ->
  J s -> run E es s = Some (s', out) -> J s'.
Proof.
  revert s out. induction es as [| e es IH]; intros s out Hid HJ Hrun; simpl in Hrun.
  - injection Hrun as <- _. exact HJ.
  - destruct (step E e s) as [[s1 o1] |] eqn:Hstep; [| discriminate].
    destruct (run E es s1) as [[s2 o2] |] eqn:Hrest; [| discriminate].
    injection Hrun as <- _. apply (IH s1 o2); [| | exact Hrest].
    + intros e' id Hin. apply Hid. right. exact Hin.
    + apply (stable_step e s s1 o1); [| exact HJ | exact Hstep].
      intros id. apply Hid. left. reflexivity.
Qed.

End Stable.

(** *** One entry per name, and records that stay closed *)






Lemma all_manual_update (id : string) (i : nat) (f : conn -> conn) (s : state) :
  (forall r, rec_id (f r) = rec_id r) ->
  (forall r, rec_manualClose r = true -> rec_manualClose (f r) = true) ->
  all_manual id s -> all_manual id (upd_rec i f s).
Proof.
  intros Hid Hm HJ j r Hr Hrid. simpl in Hr.
  apply lookup_alter_Some in Hr as [[-> (y & Hy & ->)] | [_ Hr]].
  - apply Hm. apply (HJ j y Hy). rewrite <- Hid. exact Hrid.
  - apply (HJ j r Hr Hrid).
Qed.

Lemma stable_all_manual (id : string) :
  stable (all_manual id) (fun id' => id' <> id).
Proof.
  split.
  - intros f s HJ. exact HJ.
  - intros f s HJ. exact HJ.
  - intros f s HJ. exact HJ.
  - intros i s HJ. apply all_manual_update; auto.
  - intros i v s HJ. apply all_manual_update; auto.
  - intros i v s HJ. apply all_manual_update; auto.
  - intros i v s HJ. apply all_manual_update; auto.
  - intros i v s HJ. apply all_manual_update; auto.
  - intros id0 s HJ. exact HJ.
  - intros c id' o s Hne HJ j r Hr Hrid. simpl in Hr.
    apply lookup_snoc_inv in Hr as [Hr | [-> ->]]; [apply (HJ j r Hr Hrid) |].
    simpl in Hrid. congruence.
  - intros id0 i s HJ. exact HJ.
Qed.

Section Names.

Context (E : env).



End Names.

(** *** What a turn can emit *)

Section Outputs.

Context (E : env).

Ltac ewalk :=
  repeat first
    [ apply emits_ret | apply emits_gets | apply emits_modify
    | apply emits_bind; [| intros]
    | apply emits_for_each; intros
    | apply emits_emit; simpl; first [exact I | discriminate]
    | match goal with |- emits _ (match ?x with _ => _ end) => destruct x end
    | progress (unfold clearTimer, newTimer, newSocket, close_if_up, Math_random,
                  with_rec, scheduleReconnect, setupPing, connect, closeConnection,
                  openConnection, throw, ack, listState, sendTo, on_command,
                  on_input, on_node_close, on_message, on_close, on_error,
                  on_unexpected_response) ].


Lemma closeConnection_no_event (id : string) (remove silent : bool) :
  emits not_event (closeConnection id remove silent).
Proof. ewalk. Qed.

Lemma input_not_open (m : msg) : emits not_open_event (on_input E m).
Proof. ewalk. Qed.

Lemma input_not_ping (m : msg) : emits not_ping (on_input E m).
Proof. ewalk. Qed.

Lemma on_socket_handler (w : nat) (ok : readyState -> bool) (next : readyState)
    (h : socket -> M unit) (s s' : state) (out : list output) :
  on_socket w ok next h s = Some (s', out) ->
  exists k, sockets s !! w = Some k /\ ok (ws_readyState k) = true /\
            out = emitted (h k) (with_sockets (alter (set_readyState next) w) s).
Proof.
  unfold on_socket. destruct (sockets s !! w) as [k |]; [| discriminate].
  destruct (ok (ws_readyState k)) eqn:Hok; [| discriminate].
  unfold emitted. munfold.
  destruct (h k (with_sockets (alter (set_readyState next) w) s)) as [[u s1] o1] eqn:Hh.
  intros [= Hs Ho]. exists k. split; [reflexivity |]. split; [exact Hok |].
  rewrite Hh. simpl. symmetry. exact Ho.
Qed.

(** Only the [open] listener of a connecting transport emits an [open]
    event, and it names the record of that transport. *)
Lemma step_open_event (e : event) (s s' : state) (out : list output) (m : out_msg) :
  Inv s -> step E e s = Some (s', out) -> In (NodeSend m) out -> topic m = "open" ->
  exists w k r, e = WsOpened w /\ sockets s !! w = Some k /\
                ws_readyState k = CONNECTING /\ records s !! ws_rec k = Some r /\
                websocketId m = rec_id r.
Proof.
  intros HI Hstep Hin Htopic.
  assert (forall h, emits not_open_event h -> run_handler h s = Some (s', out) -> False)
    as Hno.
  { intros h Hh Hr. apply run_handler_exec in Hr as [_ ->].
    pose proof (Hh s) as Hall. rewrite List.Forall_forall in Hall.
    apply (Hall _ Hin). exact Htopic. }
  assert (forall w ok next h, (forall k, emits not_open_event (h k)) ->
            on_socket w ok next h s = Some (s', out) -> False) as Hsock.
  { intros w ok next h Hh Hr. apply on_socket_handler in Hr as (k & _ & _ & ->).
    pose proof (Hh k (with_sockets (alter (set_readyState next) w) s)) as Hall.
    rewrite List.Forall_forall in Hall. apply (Hall _ Hin). exact Htopic. }
  destruct e as [m0 | | w | w data b | w code reason | w msg code
                | w sc hdrs body | w | t]; simpl in Hstep.
  - exfalso. apply (Hno _ (input_not_open m0) Hstep).
  - exfalso. refine (Hno _ _ Hstep). ewalk.
  - destruct (sockets s !! w) as [k |] eqn:Hk;
      [| unfold on_socket in Hstep; rewrite Hk in Hstep; discriminate].
    destruct (readyState_eqb (ws_readyState k) CONNECTING) eqn:Hst;
      [| unfold on_socket in Hstep; rewrite Hk, Hst in Hstep; discriminate].
    assert (ws_readyState k = CONNECTING) as Hrs
      by (destruct (ws_readyState k); try discriminate; reflexivity).
    destruct (inv_live s HI w k Hk ltac:(congruence)) as (r & Hr & _).
    change (step E (WsOpened w) s = Some (s', out)) in Hstep.
    rewrite (step_opened E s w k r Hk Hrs Hr) in Hstep. injection Hstep as _ <-.
    exists w, k, r. repeat split; auto.
    destruct Hin as [Hin | [Hin | []]]; [discriminate |].
    injection Hin as <-. reflexivity.
  - exfalso. destruct (sockets s !! w) as [k |]; [| discriminate].
    destruct (ws_readyState k); try discriminate; refine (Hno _ _ Hstep); ewalk.
  - exfalso. refine (Hsock _ _ _ _ _ Hstep). intros k. ewalk.
  - exfalso. destruct (sockets s !! w) as [k |]; [| discriminate].
    destruct (readyState_eqb (ws_readyState k) CLOSED); [discriminate |].
    refine (Hno _ _ Hstep). ewalk.
  - exfalso. destruct (sockets s !! w) as [k |]; [| discriminate].
    destruct (ws_readyState k); try discriminate; refine (Hno _ _ Hstep); ewalk.
  - exfalso. refine (Hsock _ _ _ _ _ Hstep). intros k. ewalk.
  - exfalso. destruct (timers s !! t) as [tm |]; [| discriminate].
    destruct (tm_pending tm); [| discriminate].
    destruct (tm_kind tm); refine (Hno _ _ Hstep); unfold on_ping; ewalk.
Qed.

(** Only the callback of a pending ping interval sends a ping, and only
    on the open transport of its record. *)
Lemma step_ping (e : event) (s s' : state) (out : list output) (w : nat) :
  step E e s = Some (s', out) -> In (WsPing w) out ->
  exists t tm r k, e = TimerFired t /\ timers s !! t = Some tm /\
                   tm_pending tm = true /\ tm_kind tm = PingTimer /\
                   records s !! tm_rec tm = Some r /\ rec_ws r = Some w /\
                   sockets s !! w = Some k /\ ws_readyState k = OPEN.
Proof.
  intros Hstep Hin.
  assert (forall h, emits not_ping h -> run_handler h s = Some (s', out) -> False)
    as Hno.
  { intros h Hh Hr. apply run_handler_exec in Hr as [_ ->].
    pose proof (Hh s) as Hall. rewrite List.Forall_forall in Hall.
    apply (Hall _ Hin). }
  assert (forall w ok next h, (forall k, emits not_ping (h k)) ->
            on_socket w ok next h s = Some (s', out) -> False) as Hsock.
  { intros w0 ok next h Hh Hr. apply on_socket_handler in Hr as (k & _ & _ & ->).
    pose proof (Hh k (with_sockets (alter (set_readyState next) w0) s)) as Hall.
    rewrite List.Forall_forall in Hall. apply (Hall _ Hin). }
  destruct e as [m0 | | w0 | w0 data b | w0 code reason | w0 msg code
                | w0 sc hdrs body | w0 | t]; simpl in Hstep.
  - exfalso. apply (Hno _ (input_not_ping m0) Hstep).
  - exfalso. refine (Hno _ _ Hstep). ewalk.
  - exfalso. refine (Hsock _ _ _ _ _ Hstep). intros k. unfold on_open. ewalk.
  - exfalso. destruct (sockets s !! w0) as [k |]; [| discriminate].
    destruct (ws_readyState k); try discriminate; refine (Hno _ _ Hstep); ewalk.
  - exfalso. refine (Hsock _ _ _ _ _ Hstep). intros k. ewalk.
  - exfalso. destruct (sockets s !! w0) as [k |]; [| discriminate].
    destruct (readyState_eqb (ws_readyState k) CLOSED); [discriminate |].
    refine (Hno _ _ Hstep). ewalk.
  - exfalso. destruct (sockets s !! w0) as [k |]; [| discriminate].
    destruct (ws_readyState k); try discriminate; refine (Hno _ _ Hstep); ewalk.
  - exfalso. refine (Hsock _ _ _ _ _ Hstep). intros k. ewalk.
  - destruct (timers s !! t) as [tm |] eqn:Ht; [| discriminate].
    destruct (tm_pending tm) eqn:Hp; [| discriminate].
    destruct (tm_kind tm) eqn:Hkd; [exfalso; refine (Hno _ _ Hstep); ewalk |].
    unfold on_ping, record_ws in Hstep. revert Hstep. munfold.
    destruct (records s !! tm_rec tm) as [r |] eqn:Hr; [| intros [= _ <-]; destruct Hin].
    destruct (rec_ws r) as [w1 |] eqn:Hws; cbn [mbind option_bind];
      [| intros [= _ <-]; destruct Hin].
    destruct (sockets s !! w1) as [k |] eqn:Hk; cbn [mbind option_bind];
      [| intros [= _ <-]; destruct Hin].
    destruct (readyState_eqb (ws_readyState k) OPEN) eqn:Hst;
      [| intros [= _ <-]; destruct Hin].
    intros [= _ <-]. destruct Hin as [[= <-] | []].
    exists t, tm, r, k. repeat split; auto.
    destruct (ws_readyState k); try discriminate; reflexivity.
Qed.

End Outputs.

(** ** Commands on the control channel *)

Section Commands.

Context (E : env).

Lemma step_handler (h : M unit) (s : state) :
  run_handler h s = Some (exec h s, emitted h s).
Proof. unfold run_handler, exec, emitted. destruct (h s) as [[u s1] o1]. reflexivity. Qed.

Lemma truthy_ne (id : string) : id <> "" -> negb (truthy (Some id)) = false.
Proof. intros Hne. simpl. rewrite (eqb_false_of_ne _ _ Hne). reflexivity. Qed.

Lemma step_close_command (cmd : jsval) (id : string) (remove : bool) (s : state) :
  as_string (field "action" cmd) = Some (if remove then "delete" else "close") ->
  as_string (field "id" cmd) = Some id -> id <> "" ->
  step E (control cmd) s
  = Some (exec (closeConnection id remove false) s,
          (emitted (closeConnection id remove false) s
           ++ [NodeSend {| websocketId := "CMD";
                           topic := if remove then "delete" else "close";
                           payload := PId id; meta := MNone |};
               Done None])%list).
Proof.
  intros Ha Hid Hne. unfold control, step, on_input.
  cbn [msg_websocketId msg_payload]. change (String.eqb "CMD" "CMD") with true.
  cbv iota. unfold on_command. rewrite Ha, Hid.
  rewrite (truthy_ne id Hne).
  destruct remove; cbn [is_action String.eqb Ascii.eqb Bool.eqb];
    unfold run_handler, exec, emitted, ack; munfold;
    destruct (closeConnection id _ false s) as [[u s1] o1]; reflexivity.
Qed.


Lemma step_closeAll_command (cmd : jsval) (s : state) :
  as_string (field "action" cmd) = Some "closeAll" ->
  exists out,
    step E (control cmd) s
    = Some (exec (for_each (fun id => closeConnection id false false)
                    (map fst (connections s))) s, out).
Proof.
  intros Ha. unfold control, step, on_input.
  cbn [msg_websocketId msg_payload]. change (String.eqb "CMD" "CMD") with true.
  cbv iota. unfold on_command. rewrite Ha.
  cbn [is_action String.eqb Ascii.eqb Bool.eqb].
  unfold run_handler, exec, ack. munfold.
  destruct (for_each _ _ s) as [[u s1] o1]. eexists. reflexivity.
Qed.

End Commands.

(** ** The life of an entry *)

Section Lifecycle.

Context (E : env).

Lemma assoc_get_Some_In {V : Type} (k : string) (v : V) (m : list (string * V)) :
  assoc_get k m = Some v -> In k (map fst m).
Proof.
  induction m as [| [k0 v0] m IH]; simpl; [discriminate |].
  destruct (String.eqb_spec k k0) as [-> | Hne]; auto.
Qed.

(** A name without an entry has only records closed by the user. *)
Lemma unmapped_all_manual (s : state) (id : string) :
  Inv s -> assoc_get id (connections s) = None -> all_manual id s.
Proof.
  intros HI Hnone i r Hr Hid. destruct (rec_manualClose r) eqn:Hm; [reflexivity |].
  pose proof (inv_mapped s HI i r Hr Hm) as Hi. congruence.
Qed.

(** [closeConnection(id, ...)] closes every record of the id. *)
Lemma closeConnection_all_manual (id : string) (remove silent : bool) (s : state) :
  Inv s -> all_manual id (exec (closeConnection id remove silent) s).
Proof.
  intros HI. destruct (closeConnection_post id remove silent s HI) as (HI' & Hman & _).
  intros i r Hr Hid. destruct (rec_manualClose r) eqn:Hm; [reflexivity |].
  pose proof (inv_mapped _ HI' i r Hr Hm) as Hi. rewrite Hid in Hi.
  rewrite (Hman i r Hi Hr) in Hm. discriminate.
Qed.

Lemma closeAll_all_manual (l : list string) (s : state) (id : string) :
  Inv s -> In id l \/ all_manual id s ->
  all_manual id (exec (for_each (fun id => closeConnection id false false) l) s).
Proof.
  revert s. induction l as [| a l IH]; intros s HI Hcase; simpl.
  - destruct Hcase as [[] | HJ]. exact HJ.
  - rewrite exec_bind. apply IH; [apply Inv_closeConnection, HI |].
    destruct Hcase as [[-> | Hin] | HJ].
    + right. apply closeConnection_all_manual, HI.
    + left. exact Hin.
    + right. apply (stable_closeConnection _ _ (stable_all_manual id)), HJ.
Qed.

(** What holds at every turn once every record of the id is closed by the
    user, as long as no [create] names the id. *)
Lemma manual_turn (s : state) (id : string) (es : list event) (e : event)
    (s1 s2 : state) (o1 o2 : list output) :
  Inv s -> all_manual id s ->
  (forall e', In e' es -> created_id e' <> Some id) -> created_id e <> Some id ->
  run E es s = Some (s1, o1) -> step E e s1 = Some (s2, o2) ->
  Inv s1 /\ all_manual id s1 /\ Inv s2 /\ all_manual id s2.
Proof.
  intros HI HJ Hes He Hrun Hstep.
  assert (Inv s1) as HI1 by (apply (run_Inv E es s s1 o1 HI Hrun)).
  assert (all_manual id s1) as HJ1.
  { apply (stable_run E _ _ (stable_all_manual id) es s s1 o1); auto.
    intros e' id' Hin Hc Heq. apply (Hes e' Hin). congruence. }
  split; [exact HI1 |]. split; [exact HJ1 |].
  split; [apply (step_Inv E e s1 s2 o2 HI1 Hstep) |].
  apply (stable_step E _ _ (stable_all_manual id) e s1 s2 o2); auto.
  intros id' Hc Heq. apply He. congruence.
Qed.

(** C2: in a store that the node can reach, a [close] or [delete] command
    for a name, and a [closeAll] command, leave every record of the name
    closed by the user; and from a store where every record of the name
    is closed by the user, as long as no [create] command names it, every
    turn keeps them so, emits no [open] event for the name, and leaves
    no reconnect pending for a record of the name. *)
Theorem manual_close_is_final (s : state) (id : string) :
  reachable E s ->
  (forall cmd s1 o1,
      as_string (field "action" cmd) = Some "close"
      \/ as_string (field "action" cmd) = Some "delete" ->
      as_string (field "id" cmd) = Some id -> id <> "" ->
      step E (control cmd) s = Some (s1, o1) -> all_manual id s1) /\
  (forall cmd s1 o1,
      as_string (field "action" cmd) = Some "closeAll" ->
      step E (control cmd) s = Some (s1, o1) -> all_manual id s1) /\
  (all_manual id s ->
   forall es e s1 o1 s2 o2,
     (forall e', In e' es -> created_id e' <> Some id) -> created_id e <> Some id ->
     run E es s = Some (s1, o1) -> step E e s1 = Some (s2, o2) ->
     all_manual id s2 /\
     (forall m, In (NodeSend m) o2 -> topic m = "open" -> websocketId m <> id) /\
     (forall i r t, records s2 !! i = Some r -> rec_id r = id ->
                    ~ pending s2 ReconnectTimer i t)).
Proof.
  intros Hreach. pose proof (reachable_Inv E s Hreach) as HI.
  split; [| split].
  - intros cmd s1 o1 Ha Hid Hne Hstep.
    destruct Ha as [Ha | Ha].
    + rewrite (step_close_command E cmd id false s Ha Hid Hne) in Hstep.
      injection Hstep as <- _. apply closeConnection_all_manual, HI.
    + rewrite (step_close_command E cmd id true s Ha Hid Hne) in Hstep.
      injection Hstep as <- _. apply closeConnection_all_manual, HI.
  - intros cmd s1 o1 Ha Hstep.
    destruct (step_closeAll_command E cmd s Ha) as (out & Hs).
    rewrite Hs in Hstep. injection Hstep as <- _.
    apply closeAll_all_manual; [exact HI |].
    destruct (assoc_get id (connections s)) as [i |] eqn:Hi.
    + left. apply (assoc_get_Some_In id i _ Hi).
    + right. apply unmapped_all_manual; assumption.
  - intros HJ es e s1 o1 s2 o2 Hes He Hrun Hstep.
    destruct (manual_turn s id es e s1 s2 o1 o2 HI HJ Hes He Hrun Hstep)
      as (HI1 & HJ1 & HI2 & HJ2).
    split; [exact HJ2 |]. split.
    + intros m Hin Htopic Hid.
      destruct (step_open_event E e s1 s2 o2 m HI1 Hstep Hin Htopic)
        as (w & k & r & _ & Hk & Hst & Hr & Hm).
      assert (rec_manualClose r = true) as Hman
        by (apply (HJ1 _ r Hr); congruence).
      pose proof (inv_manual s1 HI1 _ r Hr Hman) as Hdown.
      destruct (live_state s1 w k r HI1 Hk ltac:(congruence) Hr) as [_ Hrs].
      rewrite Hrs, Hst in Hdown. discriminate.
    + intros i r t Hr Hid (tm & Ht & Hp & Hkd & Hown).
      destruct (inv_reconnect s2 HI2 t tm Ht Hp Hkd) as (r' & Hr' & _ & Hm & _).
      rewrite Hown, Hr in Hr'. injection Hr' as <-.
      rewrite (HJ2 i r Hr Hid) in Hm. discriminate.
Qed.

(** C9 (amended): in a store that the node can reach, a record whose
    transport is open and whose interval is positive has its ping interval
    pending; a pending ping interval belongs to a record with a positive
    interval whose transport is open or closing; a ping is sent only by
    the callback of a pending interval, on the open transport of its
    record; after a [close] command for a name no ping interval of a
    record of the name is pending, and no ping is sent on a transport of
    such a record, as long as no [create] command names it. *)
Theorem heartbeat_timer_state (s : state) :
  reachable E s ->
  (forall i r,
      records s !! i = Some r -> record_state s r = OPEN -> 0 < rec_pingInterval r ->
      exists t, rec_pingTimer r = Some t /\ pending s PingTimer i t) /\
  (forall i t,
      pending s PingTimer i t ->
      exists r, records s !! i = Some r /\ rec_pingTimer r = Some t /\
                0 < rec_pingInterval r /\
                (record_state s r = OPEN \/ record_state s r = CLOSING)) /\
  (forall e s' out w,
      step E e s = Some (s', out) -> In (WsPing w) out ->
      exists t i r, e = TimerFired t /\ pending s PingTimer i t /\
                    records s !! i = Some r /\ rec_ws r = Some w /\
                    record_state s r = OPEN) /\
  (forall cmd id s0 o0,
      as_string (field "action" cmd) = Some "close" ->
      as_string (field "id" cmd) = Some id -> id <> "" ->
      step E (control cmd) s = Some (s0, o0) ->
      (forall i r t, records s0 !! i = Some r -> rec_id r = id ->
                     ~ pending s0 PingTimer i t) /\
      (forall es e s1 o1 s2 o2 w k r,
          (forall e', In e' es -> created_id e' <> Some id) ->
          created_id e <> Some id ->
          run E es s0 = Some (s1, o1) -> step E e s1 = Some (s2, o2) ->
          In (WsPing w) o2 ->
          sockets s1 !! w = Some k -> records s1 !! ws_rec k = Some r ->
          rec_id r <> id)).
Proof.
  intros Hreach. pose proof (reachable_Inv E s Hreach) as HI.
  split; [| split; [| split]].
  - intros i r Hr Hst Hpos.
    destruct (inv_open s HI i r Hr Hst Hpos) as (t & tm & Hpt & Ht & Hp).
    destruct (inv_ptimer s HI i r t Hr Hpt) as (tm' & Ht' & Hown & Hkd).
    exists t. split; [exact Hpt |]. exists tm.
    assert (tm' = tm) as -> by congruence. auto.
  - intros i t (tm & Ht & Hp & Hkd & Hown).
    destruct (inv_ping s HI t tm Ht Hp Hkd) as (r & Hr & Hpt & _ & Hpos & Hst).
    exists r. rewrite <- Hown. auto.
  - intros e s' out w Hstep Hin.
    destruct (step_ping E e s s' out w Hstep Hin)
      as (t & tm & r & k & -> & Ht & Hp & Hkd & Hr & Hws & Hk & Hst).
    exists t, (tm_rec tm), r. split; [reflexivity |].
    split; [exists tm; auto |]. split; [exact Hr |]. split; [exact Hws |].
    rewrite record_state_socket_state, Hws. unfold socket_state. rewrite Hk. exact Hst.
  - intros cmd id s0 o0 Ha Hid Hne Hstep.
    rewrite (step_close_command E cmd id false s Ha Hid Hne) in Hstep.
    injection Hstep as <- _.
    pose proof (Inv_closeConnection id false false s HI) as HI0.
    pose proof (closeConnection_all_manual id false false s HI) as HJ0.
    split.
    + intros i r t Hr Hrid (tm & Ht & Hp & Hkd & Hown).
      destruct (inv_ping _ HI0 t tm Ht Hp Hkd) as (r' & Hr' & _ & Hm & _).
      rewrite Hown, Hr in Hr'. injection Hr' as <-.
      rewrite (HJ0 i r Hr Hrid) in Hm. discriminate.
    + intros es e s1 o1 s2 o2 w k r Hes He Hrun Hstep Hin Hk Hr Hrid.
      destruct (manual_turn _ id es e s1 s2 o1 o2 HI0 HJ0 Hes He Hrun Hstep)
        as (HI1 & HJ1 & _ & _).
      destruct (step_ping E e s1 s2 o2 w Hstep Hin)
        as (t & tm & r0 & k0 & _ & Ht & Hp & Hkd & Hr0 & Hws0 & Hk0 & _).
      destruct (inv_ping s1 HI1 t tm Ht Hp Hkd) as (r1 & Hr1 & _ & Hm & _).
      assert (r1 = r0) as -> by congruence.
      destruct (inv_ws s1 HI1 _ r0 w Hr0 Hws0) as (k1 & Hk1 & Hown).
      assert (k1 = k) as -> by congruence.
      rewrite Hown, Hr0 in Hr. injection Hr as <-.
      rewrite (HJ1 _ r0 Hr0 Hrid) in Hm. discriminate.
Qed.

(** *** Replacing an entry *)

Lemma connected_frame (i : nat) (r : conn) (o : option ws_options) (s : state) :
  connections (connected E i r o s) = connections s /\
  (forall j, j <> i -> records (connected E i r o s) !! j = records s !! j) /\
  (records s !! i = Some r ->
   exists r', records (connected E i r o s) !! i = Some r' /\
              rec_id r' = rec_id r /\ rec_manualClose r' = rec_manualClose r).
Proof.
  unfold connected, scheduled, dialed.
  destruct (ws_ctor_error E (rec_url r)); cbn [connections records upd_rec with_records
    with_timers with_sockets with_draws]; rewrite ?cleared_connections, ?cleared_records.
  - split; [reflexivity |]. split.
    + intros j Hne. rewrite !agree_records_alter by assumption. reflexivity.
    + intros Hr. rewrite !list_lookup_alter_eq, Hr. eexists. split; [reflexivity |].
      split; reflexivity.
  - split; [reflexivity |]. split.
    + intros j Hne. apply agree_records_alter. exact Hne.
    + intros Hr. rewrite list_lookup_alter_eq, Hr. eexists. split; [reflexivity |].
      split; reflexivity.
Qed.


End Lifecycle.

(** ** The properties on concrete runs *)

Lemma reachable_after (E : env) (es : list event) :
  (exists s out, run E es (initial_state E) = Some (s, out)) ->
  reachable E (Demo.state_after E es).
Proof.
  intros (s & out & Hrun). exists es, out. unfold Demo.state_after.
  rewrite Hrun. reflexivity.
Qed.

(** C4 (the code against the claim): with two entries open, a message
    addressed to ["*"] is looked up as the name of an entry, finds none, and
    ends in a warning; nothing is handed to either transport. *)
Theorem star_is_a_plain_name :
  let s := Demo.state_after Demo.E0 Demo.two_open in
  entry_state "a" s = Some OPEN /\ entry_state "b" s = Some OPEN /\
  step Demo.E0 (Demo.send "*" (JStr "hello")) s
  = Some (s, [NodeWarn "send failed: * not open"; Done None]).
Proof. vm_compute. repeat split; reflexivity. Qed.

Lemma send_to_closed_entry_warns_witness :
  step Demo.E0 (Demo.send "b" (JStr "hello")) (Demo.state_after Demo.E0 Demo.one_open)
  = Some (Demo.state_after Demo.E0 Demo.one_open,
          [NodeWarn "send failed: b not open"; Done None]).
Proof.
  apply (send_to_closed_entry_warns Demo.E0 "b" (JStr "hello")
           (Demo.state_after Demo.E0 Demo.one_open)).
  - discriminate.
  - discriminate.
  - vm_compute. discriminate.
Defined.







Lemma manual_close_is_final_witness :
  let s := Demo.state_after Demo.E0 Demo.closed_by_user in
  all_manual "a" s /\
  forall es e s1 o1 s2 o2,
    (forall e', In e' es -> created_id e' <> Some "a") -> created_id e <> Some "a" ->
    run Demo.E0 es s = Some (s1, o1) -> step Demo.E0 e s1 = Some (s2, o2) ->
    forall m, In (NodeSend m) o2 -> topic m = "open" -> websocketId m <> "a".
Proof.
  intros s.
  assert (reachable Demo.E0 (Demo.state_after Demo.E0 Demo.one_open)) as Hreach
    by (apply reachable_after; eexists; eexists; vm_compute; reflexivity).
  assert (reachable Demo.E0 s) as Hreach'
    by (apply reachable_after; eexists; eexists; vm_compute; reflexivity).
  destruct (manual_close_is_final Demo.E0 (Demo.state_after Demo.E0 Demo.one_open) "a"
              Hreach) as (Hclose & _ & _).
  assert (all_manual "a" s) as Hman.
  { apply (Hclose (JObj [("action", JStr "close"); ("id", JStr "a")]) s
             [WsClose 0 1000 "closed by node-red"; NodeStatus "grey" "ring" "closed a";
              NodeSend {| websocketId := "CMD"; topic := "close"; payload := PId "a";
                          meta := MNone |};
              Done None]).
    - left. reflexivity.
    - reflexivity.
    - discriminate.
    - vm_compute. reflexivity. }
  split; [exact Hman |].
  destruct (manual_close_is_final Demo.E0 s "a" Hreach') as (_ & _ & Hfinal).
  intros es e s1 o1 s2 o2 Hes He Hrun Hstep.
  destruct (Hfinal Hman es e s1 o1 s2 o2 Hes He Hrun Hstep) as (_ & Hopen & _).
  exact Hopen.
Defined.

Lemma heartbeat_timer_state_witness :
  let s := Demo.state_after Demo.E0 Demo.one_open in
  (exists r t, records s !! 0%nat = Some r /\ record_state s r = OPEN /\
               rec_pingTimer r = Some t /\ pending s PingTimer 0 t) /\
  forall i r t,
    records (Demo.state_after Demo.E0 Demo.closed_by_user) !! i = Some r ->
    rec_id r = "a" ->
    ~ pending (Demo.state_after Demo.E0 Demo.closed_by_user) PingTimer i t.
Proof.
  intros s.
  destruct (heartbeat_timer_state Demo.E0 s) as (Hopen & _ & _ & Hclose).
  - apply reachable_after. eexists. eexists. vm_compute. reflexivity.
  - split.
    + edestruct (Hopen 0%nat) as (t & Hpt & Hpend).
      * vm_compute. reflexivity.
      * vm_compute. reflexivity.
      * vm_compute. reflexivity.
      * eexists. exists t. split; [vm_compute; reflexivity |].
        split; [vm_compute; reflexivity |]. split; [exact Hpt | exact Hpend].
    + destruct (Hclose (JObj [("action", JStr "close"); ("id", JStr "a")]) "a"
                  (Demo.state_after Demo.E0 Demo.closed_by_user)
                  [WsClose 0 1000 "closed by node-red";
                   NodeStatus "grey" "ring" "closed a";
                   NodeSend {| websocketId := "CMD"; topic := "close";
                               payload := PId "a"; meta := MNone |};
                   Done None]) as (Hnone & _).
      * reflexivity.
      * reflexivity.
      * discriminate.
      * vm_compute. reflexivity.
      * exact Hnone.
Defined.

(** C9 as stated fails: once the peer has started the closing handshake the
    transport of the entry is closing while its ping interval is still
    pending; the interval fires and sends nothing. *)
Lemma ping_interval_pending_while_closing :
  let s := Demo.state_after Demo.E0 Demo.peer_closing in
  entry_state "a" s = Some CLOSING /\
  (exists r, entry "a" s = Some r /\ rec_pingInterval r = 30000 /\
             rec_pingTimer r = Some 0%nat) /\
  timers s !! 0%nat
  = Some {| tm_kind := PingTimer; tm_rec := 0; tm_delay := Fin 30000;
            tm_pending := true |} /\
  step Demo.E0 (TimerFired 0) s = Some (s, []).
Proof.
  intros s. split; [vm_compute; reflexivity |].
  split; [eexists; vm_compute; repeat split; reflexivity |].
  split; vm_compute; reflexivity.
Qed.

(** ** More on the backoff *)



(** ** The commands of the control channel *)

Ltac owalk :=
  repeat first
    [ apply emits_ret | apply emits_gets | apply emits_modify
    | apply emits_bind; [| intros]
    | apply emits_for_each; intros
    | apply emits_emit; simpl; first [exact I | discriminate]
    | match goal with |- emits _ (match ?x with _ => _ end) => destruct x end
    | progress (unfold clearTimer, newTimer, newSocket, close_if_up, Math_random,
                  with_rec, scheduleReconnect, setupPing, connect, closeConnection,
                  openConnection, throw, ack, listState, sendTo, on_command,
                  on_input, on_node_close, on_message, on_close, on_error,
                  on_unexpected_response, on_open, on_ping) ].

Section Control.

Context (E : env).

Lemma finishes_done : finishes (emit (Done None)).
Proof. intros s. exists []. split; [reflexivity | constructor]. Qed.

Lemma finishes_bind {A : Type} (c : M A) (k : A -> M unit) :
  emits not_done c -> (forall a, finishes (k a)) -> finishes (c ≫= k).
Proof.
  intros Hc Hk s. rewrite emitted_bind.
  destruct (Hk (fst (fst (c s))) (exec c s)) as (pre & -> & Hpre).
  exists (emitted c s ++ pre)%list. split; [apply app_assoc |].
  apply Forall_app. split; [apply Hc | exact Hpre].
Qed.

Lemma falsy_string (v : jsval) :
  falsy v = true -> as_string v = None \/ as_string v = Some "".
Proof.
  destruct v; simpl; intros H; try (left; reflexivity); try discriminate.
  right. apply String.eqb_eq in H. subst. reflexivity.
Qed.

(** A command is either refused, the store untouched, or carried out and
    followed by [done()]. *)
Lemma on_command_outcome (cmd : jsval) (s : state) :
  (exists text, on_command E cmd s = (tt, s, [NodeError text; Done (Some text)]))
  \/ (exists pre, emitted (on_command E cmd) s = (pre ++ [Done None])%list /\
                  Forall not_done pre).
Proof.
  assert (forall c : M unit, finishes c ->
            exists pre, emitted c s = (pre ++ [Done None])%list /\ Forall not_done pre)
    as Hfin by (intros c Hc; apply Hc).
  unfold on_command.
  destruct (is_action (as_string (field "action" cmd)) "create").
  { destruct (as_string (field "id" cmd)) as [id |];
      [| left; eexists; reflexivity].
    destruct (as_string (field "url" cmd)) as [url |];
      [| left; eexists; reflexivity].
    destruct (negb (truthy (Some id)) || negb (truthy (Some url)));
      [left; eexists; reflexivity |].
    right. apply Hfin. apply finishes_bind; [owalk |]. intros _.
    apply finishes_bind; [owalk |]. intros _. apply finishes_done. }
  destruct (is_action (as_string (field "action" cmd)) "close").
  { destruct (as_string (field "id" cmd)) as [id |];
      [| left; eexists; reflexivity].
    destruct (negb (truthy (Some id))); [left; eexists; reflexivity |].
    right. apply Hfin. apply finishes_bind; [owalk |]. intros _.
    apply finishes_bind; [owalk |]. intros _. apply finishes_done. }
  destruct (is_action (as_string (field "action" cmd)) "delete").
  { destruct (as_string (field "id" cmd)) as [id |];
      [| left; eexists; reflexivity].
    destruct (negb (truthy (Some id))); [left; eexists; reflexivity |].
    right. apply Hfin. apply finishes_bind; [owalk |]. intros _.
    apply finishes_bind; [owalk |]. intros _. apply finishes_done. }
  destruct (is_action (as_string (field "action" cmd)) "closeAll").
  { right. apply Hfin. apply finishes_bind; [owalk |]. intros keys.
    apply finishes_bind; [owalk |]. intros _.
    apply finishes_bind; [owalk |]. intros _. apply finishes_done. }
  right. apply Hfin. apply finishes_bind; [owalk |]. intros _. apply finishes_done.
Qed.

(** X2: every message on the input is answered by one call of [done],
    which is the last thing the node does for it; when [done] reports
    an error, the message was a command that was refused: the error was
    logged and nothing else happened. *)
Theorem one_done_per_message (m : msg) (s : state) :
  exists s' pre d,
    step E (Input m) s = Some (s', (pre ++ [Done d])%list) /\
    Forall not_done pre /\
    (forall text, d = Some text -> s' = s /\ pre = [NodeError text]).
Proof.
  assert (forall c : M unit, finishes c ->
            exists s' pre d,
              run_handler c s = Some (s', (pre ++ [Done d])%list) /\
              Forall not_done pre /\
              (forall text, d = Some text -> s' = s /\ pre = [NodeError text]))
    as Hfin.
  { intros c Hc. destruct (Hc s) as (pre & Hout & Hpre).
    exists (exec c s), pre, None. rewrite step_handler, Hout.
    split; [reflexivity |]. split; [exact Hpre | discriminate]. }
  unfold step, on_input.
  destruct (msg_websocketId m) as [wsid |].
  - destruct (String.eqb wsid "CMD").
    + destruct (on_command_outcome (msg_payload m) s) as [[text Hr] | (pre & Hout & Hpre)].
      * exists s, [NodeError text], (Some text). unfold run_handler. rewrite Hr.
        split; [reflexivity |]. split; [repeat constructor |].
        intros text' [= <-]. auto.
      * exists (exec (on_command E (msg_payload m)) s), pre, None.
        rewrite step_handler, Hout.
        split; [reflexivity |]. split; [exact Hpre | discriminate].
    + destruct (negb (String.eqb wsid "")).
      * apply Hfin. apply finishes_bind; [owalk |]. intros _. apply finishes_done.
      * apply Hfin. apply finishes_bind; [owalk |]. intros _. apply finishes_done.
  - apply Hfin. apply finishes_bind; [owalk |]. intros _. apply finishes_done.
Qed.

(** X3: a [create] command without an id or without a url, and a
    [close] or [delete] command without an id, are refused: the error
    is logged and handed to [done], and the store is left as it was. *)
Theorem incomplete_command_is_refused (cmd : jsval) (s : state) :
  (as_string (field "action" cmd) = Some "create" ->
   falsy (field "id" cmd) = true \/ falsy (field "url" cmd) = true ->
   step E (control cmd) s
   = Some (s, [NodeError "create requires id and url";
               Done (Some "create requires id and url")])) /\
  (forall a, a = "close" \/ a = "delete" ->
   as_string (field "action" cmd) = Some a ->
   falsy (field "id" cmd) = true ->
   step E (control cmd) s
   = Some (s, [NodeError (a ++ " requires id"); Done (Some (a ++ " requires id"))])).
Proof.
  split.
  - intros Ha Hmiss. unfold control, step, on_input, run_handler.
    cbn [msg_websocketId msg_payload]. change (String.eqb "CMD" "CMD") with true.
    cbv iota. unfold on_command. rewrite Ha. cbn [is_action String.eqb Ascii.eqb Bool.eqb].
    cbv iota.
    destruct Hmiss as [Hid | Hurl].
    + destruct (falsy_string _ Hid) as [-> | ->].
      * reflexivity.
      * destruct (as_string (field "url" cmd)); reflexivity.
    + destruct (falsy_string _ Hurl) as [-> | ->].
      * destruct (as_string (field "id" cmd)); reflexivity.
      * destruct (as_string (field "id" cmd)) as [id |]; [| reflexivity].
        cbn [truthy String.eqb negb]. rewrite orb_true_r. reflexivity.
  - intros a Hcase Ha Hid. unfold control, step, on_input, run_handler.
    cbn [msg_websocketId msg_payload]. change (String.eqb "CMD" "CMD") with true.
    cbv iota. unfold on_command. rewrite Ha.
    destruct Hcase as [-> | ->]; cbn [is_action String.eqb Ascii.eqb Bool.eqb];
      cbv iota; destruct (falsy_string _ Hid) as [-> | ->]; reflexivity.
Qed.

End Control.
(** ** The entries of the pool *)



Lemma torn_down_sockets (i : nat) (r : conn) (s : state) :
  sockets (torn_down i r s)
  = match record_ws s r with
    | Some (w, k) =>
        if is_up (ws_readyState k)
        then alter (set_readyState CLOSING) w (sockets s) else sockets s
    | None => sockets s
    end.
Proof.
  unfold torn_down. destruct (record_ws s r) as [[w k] |];
    [destruct (is_up (ws_readyState k)) |]; cbn [sockets with_sockets];
    rewrite !cleared_sockets; reflexivity.
Qed.

Section Entries.

Context (E : env).

(** The teardown of a record leaves the state of every other record. *)
Lemma torn_down_state_other (s : state) (i j : nat) (r r' : conn) :
  Inv s -> records s !! i = Some r -> records s !! j = Some r' -> j <> i ->
  record_state (torn_down i r s) r' = record_state s r'.
Proof.
  intros HI Hr Hr' Hne. rewrite !record_state_socket_state, torn_down_sockets.
  unfold record_ws. destruct (rec_ws r) as [w |] eqn:Hws; [| reflexivity].
  cbn [mbind option_bind].
  destruct (sockets s !! w) as [k |] eqn:Hk; [| reflexivity]. cbn [mbind option_bind].
  destruct (is_up (ws_readyState k)); [| reflexivity].
  rewrite socket_state_alter. destruct (decide _) as [[Hsame _] | _]; [| reflexivity].
  exfalso. destruct (inv_ws s HI i r w Hr Hws) as (k1 & Hk1 & Hown1).
  destruct (inv_ws s HI j r' w Hr' Hsame) as (k2 & Hk2 & Hown2). congruence.
Qed.

(** The state of a record after its own teardown: neither connecting nor
    open. *)
Lemma torn_down_state_own (s : state) (i : nat) (r : conn) :
  Inv s -> records s !! i = Some r ->
  is_up (record_state (torn_down i r s) (set_manualClose true r)) = false.
Proof.
  intros HI Hr. destruct (Inv_torn_down s i r HI Hr) as (HI' & Hr' & _).
  apply (inv_manual _ HI' i _ Hr'). reflexivity.
Qed.




End Entries.
(** ** Closing everything *)

Lemma assoc_delete_absent {V : Type} (k : string) (m : list (string * V)) :
  assoc_get k m = None -> assoc_delete k m = m.
Proof.
  induction m as [| [k' v'] m IH]; simpl; [reflexivity |].
  destruct (String.eqb k k'); [discriminate |]. intros H. f_equal. apply IH, H.
Qed.

Lemma assoc_delete_keys_ne {V : Type} (k : string) (m : list (string * V)) (k' : string) :
  In k' (map fst (assoc_delete k m)) -> In k' (map fst m) /\ k' <> k.
Proof.
  induction m as [| [k0 v0] m IH]; simpl; [contradiction |].
  destruct (String.eqb_spec k k0) as [-> | Hne].
  - intros Hin. destruct (IH Hin). auto.
  - simpl. intros [<- | Hin]; [auto |]. destruct (IH Hin). auto.
Qed.

Lemma stable_all_closed : stable all_closed (fun _ => False).
Proof.
  assert (forall s, all_closed s <-> forall id, all_manual id s) as Heq.
  { intros s. split.
    - intros H id i r Hr _. apply (H i r Hr).
    - intros H i r Hr. apply (H (rec_id r) i r Hr). reflexivity. }
  split; intros; rewrite Heq in *; intros id0.
  - apply (st_timers _ _ (stable_all_manual id0)); auto.
  - apply (st_sockets _ _ (stable_all_manual id0)); auto.
  - apply (st_draws _ _ (stable_all_manual id0)); auto.
  - apply (st_manual _ _ (stable_all_manual id0)); auto.
  - apply (st_ws _ _ (stable_all_manual id0)); auto.
  - apply (st_pingTimer _ _ (stable_all_manual id0)); auto.
  - apply (st_attempts _ _ (stable_all_manual id0)); auto.
  - apply (st_reconnectTimer _ _ (stable_all_manual id0)); auto.
  - apply (st_delete _ _ (stable_all_manual id0)); auto.
  - contradiction.
  - apply (st_set _ _ (stable_all_manual id0)); auto.
Qed.

(** With every record closed by the user, nothing is in flight. *)
Lemma all_closed_quiescent (s : state) : Inv s -> all_closed s -> quiescent s.
Proof.
  intros HI Hall. split.
  - intros t tm Ht. destruct (tm_pending tm) eqn:Hp; [exfalso | reflexivity].
    destruct (tm_kind tm) eqn:Hk.
    + destruct (inv_reconnect s HI t tm Ht Hp Hk) as (r & Hr & _ & Hm & _).
      rewrite (Hall _ r Hr) in Hm. discriminate.
    + destruct (inv_ping s HI t tm Ht Hp Hk) as (r & Hr & _ & Hm & _).
      rewrite (Hall _ r Hr) in Hm. discriminate.
  - intros w k Hk. destruct (is_up (ws_readyState k)) eqn:Hup; [exfalso | reflexivity].
    destruct (live_has_record s w k HI Hk) as (r & Hr & _ & Hst).
    { intros Hc. rewrite Hc in Hup. discriminate. }
    pose proof (inv_manual s HI _ r Hr (Hall _ r Hr)) as Hdown.
    rewrite Hst, Hup in Hdown. discriminate.
Qed.

Section Quiescence.

Context (E : env).

Lemma closeEach_all_manual (remove silent : bool) (l : list string) (s : state)
    (id : string) :
  Inv s -> In id l \/ all_manual id s ->
  all_manual id (exec (for_each (fun id => closeConnection id remove silent) l) s).
Proof.
  revert s. induction l as [| a l IH]; intros s HI Hcase; simpl.
  - destruct Hcase as [[] | HJ]. exact HJ.
  - rewrite exec_bind. apply IH; [apply Inv_closeConnection, HI |].
    destruct Hcase as [[-> | Hin] | HJ].
    + right. apply closeConnection_all_manual, HI.
    + left. exact Hin.
    + right. apply (stable_closeConnection _ _ (stable_all_manual id)), HJ.
Qed.

Lemma closeEach_all_closed (remove silent : bool) (s : state) :
  Inv s ->
  all_closed (exec (for_each (fun id => closeConnection id remove silent)
                      (map fst (connections s))) s).
Proof.
  intros HI i r Hr.
  apply (closeEach_all_manual remove silent (map fst (connections s)) s (rec_id r) HI
           ltac:(destruct (assoc_get (rec_id r) (connections s)) as [j |] eqn:Hj;
                 [left; apply (assoc_get_Some_In _ j), Hj
                 | right; apply unmapped_all_manual; assumption]) i r Hr).
  reflexivity.
Qed.

Lemma closeConnection_connections (id : string) (remove silent : bool) (s : state) :
  Inv s ->
  connections (exec (closeConnection id remove silent) s)
  = if remove then assoc_delete id (connections s) else connections s.
Proof.
  intros HI. unfold exec. destruct (assoc_get id (connections s)) as [i |] eqn:Hi.
  - destruct (inv_entry s HI id i Hi) as (r & Hr & _).
    rewrite (closeConnection_run id remove silent s i r Hi Hr). cbn [fst snd].
    destruct (Inv_torn_down s i r HI Hr) as (_ & _ & Hc & _).
    destruct remove; cbn [connections with_connections]; rewrite Hc; reflexivity.
  - rewrite (closeConnection_absent id remove silent s Hi). cbn [fst snd].
    destruct remove; [| reflexivity]. symmetry. apply assoc_delete_absent, Hi.
Qed.

Lemma closeEach_keeps (silent : bool) (l : list string) (s : state) :
  Inv s ->
  connections (exec (for_each (fun id => closeConnection id false silent) l) s)
  = connections s.
Proof.
  revert s. induction l as [| a l IH]; intros s HI; simpl; [reflexivity |].
  rewrite exec_bind, IH by (apply Inv_closeConnection, HI).
  apply (closeConnection_connections a false silent s HI).
Qed.

Lemma closeEach_removes (silent : bool) (l : list string) (s : state) :
  Inv s -> (forall k, In k (map fst (connections s)) -> In k l) ->
  connections (exec (for_each (fun id => closeConnection id true silent) l) s) = [].
Proof.
  revert s. induction l as [| a l IH]; intros s HI Hkeys; simpl.
  - change (exec (mret tt) s) with s.
    destruct (connections s) as [| [k v] m]; [reflexivity |].
    destruct (Hkeys k (or_introl eq_refl)).
  - rewrite exec_bind. apply IH; [apply Inv_closeConnection, HI |].
    intros k Hin. rewrite (closeConnection_connections a true silent s HI) in Hin.
    apply assoc_delete_keys_ne in Hin as (Hin & Hne).
    destruct (Hkeys k Hin) as [-> | Hl]; [contradiction | exact Hl].
Qed.

(** Once every record is closed by the user, it stays so, with nothing in
    flight, as long as no [create] command comes. *)
Lemma creates_created_id (e : event) : creates e = false -> created_id e = None.
Proof.
  destruct e as [m | | | | | | | |]; try reflexivity. simpl.
  destruct (msg_websocketId m) as [wsid |]; [| reflexivity].
  destruct (String.eqb wsid "CMD"); [| reflexivity]. simpl. intros ->. reflexivity.
Qed.

Lemma all_closed_run (s : state) (es : list event) (s1 : state) (o1 : list output) :
  Inv s -> all_closed s ->
  (forall e, In e es -> creates e = false) ->
  run E es s = Some (s1, o1) -> all_closed s1 /\ quiescent s1.
Proof.
  intros HI Hall Hes Hrun.
  assert (all_closed s1) as Hall1.
  { apply (stable_run E _ _ stable_all_closed es s s1 o1); [| exact Hall | exact Hrun].
    intros e id Hin Hc. rewrite (creates_created_id e (Hes e Hin)) in Hc.
    discriminate. }
  split; [exact Hall1 |].
  apply all_closed_quiescent; [apply (run_Inv E es s s1 o1 HI Hrun) | exact Hall1].
Qed.

(** X6: a [closeAll] command keeps every entry in the pool, closed by
    the user; from then on nothing is in flight (no timer is pending, no
    transport is connecting or open), whatever the transports and the
    timers do and whatever is sent, until a [create] command comes. *)
Theorem closeAll_silences_the_pool (cmd : jsval) (s s0 : state) (o0 : list output) :
  reachable E s ->
  as_string (field "action" cmd) = Some "closeAll" ->
  step E (control cmd) s = Some (s0, o0) ->
  connections s0 = connections s /\
  forall es s1 o1,
    (forall e, In e es -> creates e = false) ->
    run E es s0 = Some (s1, o1) -> all_closed s1 /\ quiescent s1.
Proof.
  intros Hreach Ha Hstep.
  pose proof (reachable_Inv E s Hreach) as HI.
  pose proof (step_Inv E _ s s0 o0 HI Hstep) as HI0.
  destruct (step_closeAll_command E cmd s Ha) as (out & Hout).
  rewrite Hout in Hstep. injection Hstep as Hs0 _.
  split.
  - rewrite <- Hs0. apply closeEach_keeps, HI.
  - intros es s1 o1 Hes Hrun.
    apply (all_closed_run s0 es s1 o1 HI0); [| exact Hes | exact Hrun].
    rewrite <- Hs0. apply closeEach_all_closed, HI.
Qed.

Lemma on_node_close_exec (s : state) :
  exec on_node_close s
  = exec (for_each (fun id => closeConnection id true true) (map fst (connections s))) s.
Proof. unfold on_node_close. rewrite exec_bind. cbn [gets fst]. rewrite exec_bind. reflexivity. Qed.

(** X7: when the node is closed, the pool is emptied and all that the
    node does is to close transports and call [done]: no event, no status
    and no warning is emitted; from then on nothing is in flight, whatever
    the transports do afterwards. *)
Theorem node_close_empties_the_pool (s s0 : state) (o0 : list output) :
  reachable E s ->
  step E NodeClosed s = Some (s0, o0) ->
  connections s0 = [] /\ Forall shutdown_output o0 /\
  forall es s1 o1,
    (forall e, In e es -> creates e = false) ->
    run E es s0 = Some (s1, o1) -> all_closed s1 /\ quiescent s1.
Proof.
  intros Hreach Hstep.
  pose proof (reachable_Inv E s Hreach) as HI.
  pose proof (step_Inv E _ s s0 o0 HI Hstep) as HI0.
  cbn [step] in Hstep. apply run_handler_exec in Hstep as [Hs0 Ho0].
  rewrite on_node_close_exec in Hs0.
  split; [| split].
  - rewrite Hs0. apply closeEach_removes; auto.
  - rewrite Ho0. assert (emits shutdown_output on_node_close) as Hem by owalk.
    apply Hem.
  - intros es s1 o1 Hes Hrun.
    apply (all_closed_run s0 es s1 o1 HI0); [| exact Hes | exact Hrun].
    rewrite Hs0. apply closeEach_all_closed, HI.
Qed.

End Quiescence.
(** ** The calls on the transports *)

Lemma legal_call_earlier (s s1 : state) (o : output) :
  (forall w k, sockets s1 !! w = Some k -> is_up (ws_readyState k) = true ->
               sockets s !! w = Some k) ->
  legal_call s1 o -> legal_call s o.
Proof.
  intros Hback. destruct o; simpl; try exact (fun H => H).
  - intros (k & Hk & Hst). exists k. split; [| exact Hst].
    apply Hback; [exact Hk | rewrite Hst; reflexivity].
  - intros (k & Hk & Hst). exists k. split; [| exact Hst].
    apply Hback; [exact Hk | rewrite Hst; reflexivity].
  - intros (k & Hk & Hst). exists k. split; [| exact Hst]. apply Hback; assumption.
Qed.

Lemma no_call_legal (s : state) (o : output) : no_call o -> legal_call s o.
Proof. destruct o; simpl; try contradiction; auto. Qed.

Lemma quiet_allowed {A : Type} (c : M A) : emits no_call c -> calls_allowed c.
Proof.
  intros Hc s. eapply List.Forall_impl; [| apply Hc]. intros o. apply no_call_legal.
Qed.

Lemma quiet_anywhere {A : Type} (c : M A) (s s0 : state) :
  emits no_call c -> Forall (legal_call s) (emitted c s0).
Proof.
  intros Hc. eapply List.Forall_impl; [| apply Hc]. intros o. apply no_call_legal.
Qed.

Lemma calls_allowed_bind {A B : Type} (c : M A) (k : A -> M B) :
  calls_allowed c -> no_revival c -> (forall a, calls_allowed (k a)) ->
  calls_allowed (c ≫= k).
Proof.
  intros Hc Hb Hk s. rewrite emitted_bind. apply Forall_app. split; [apply Hc |].
  eapply List.Forall_impl; [| apply Hk]. intros o. apply legal_call_earlier. apply Hb.
Qed.

Lemma calls_allowed_then_quiet {A B : Type} (c : M A) (k : A -> M B) :
  calls_allowed c -> (forall a, emits no_call (k a)) -> calls_allowed (c ≫= k).
Proof.
  intros Hc Hk s. rewrite emitted_bind. apply Forall_app. split; [apply Hc |].
  apply quiet_anywhere, Hk.
Qed.

Lemma no_revival_ret {A : Type} (a : A) : no_revival (mret a : M A).
Proof. intros s w k Hk _. exact Hk. Qed.

Lemma no_revival_gets {A : Type} (f : state -> A) : no_revival (gets f).
Proof. intros s w k Hk _. exact Hk. Qed.

Lemma no_revival_emit (o : output) : no_revival (emit o).
Proof. intros s w k Hk _. exact Hk. Qed.

Lemma no_revival_modify (f : state -> state) :
  (forall s, sockets (f s) = sockets s) -> no_revival (modify f).
Proof. intros Hf s w k Hk _. change (exec (modify f) s) with (f s) in Hk. rewrite Hf in Hk. exact Hk. Qed.

Lemma no_revival_closing (w : nat) :
  no_revival (modify (with_sockets (alter (set_readyState CLOSING) w))).
Proof.
  intros s w0 k Hk Hup.
  change (alter (set_readyState CLOSING) w (sockets s) !! w0 = Some k) in Hk.
  apply lookup_alter_Some in Hk as [(_ & y & _ & ->) | (_ & Hk)]; [discriminate | exact Hk].
Qed.

Lemma no_revival_bind {A B : Type} (c : M A) (k : A -> M B) :
  no_revival c -> (forall a, no_revival (k a)) -> no_revival (c ≫= k).
Proof.
  intros Hc Hk s w k0 Hk0 Hup. rewrite exec_bind in Hk0.
  apply Hc; [| exact Hup]. apply (Hk _ _ _ _ Hk0 Hup).
Qed.

Lemma no_revival_for_each {A : Type} (f : A -> M unit) (l : list A) :
  (forall a, no_revival (f a)) -> no_revival (for_each f l).
Proof.
  intros Hf. induction l as [| a l IH]; simpl.
  - apply no_revival_ret.
  - apply no_revival_bind; [apply Hf | intros _; exact IH].
Qed.

Lemma calls_allowed_for_each {A : Type} (f : A -> M unit) (l : list A) :
  (forall a, calls_allowed (f a)) -> (forall a, no_revival (f a)) ->
  calls_allowed (for_each f l).
Proof.
  intros Hf Hb. induction l as [| a l IH]; simpl.
  - intros s. constructor.
  - apply calls_allowed_bind; [apply Hf | apply Hb | intros _; exact IH].
Qed.

Ltac rwalk :=
  repeat first
    [ apply no_revival_ret | apply no_revival_gets | apply no_revival_emit
    | apply no_revival_closing
    | apply no_revival_modify; intros; reflexivity
    | apply no_revival_bind; [| intros]
    | apply no_revival_for_each; intros
    | match goal with |- no_revival (match ?x with _ => _ end) => destruct x end
    | match goal with |- no_revival (if ?x then _ else _) => destruct x end
    | progress (unfold clearTimer, close_if_up, with_rec, closeConnection) ].

Lemma no_revival_closeConnection (id : string) (remove silent : bool) :
  no_revival (closeConnection id remove silent).
Proof. rwalk. Qed.

Lemma calls_allowed_close_if_up (h : option nat) : calls_allowed (close_if_up h).
Proof.
  intros s. unfold close_if_up. destruct h as [w |]; [| constructor].
  rewrite emitted_bind. cbn [emitted gets fst snd app exec].
  destruct (sockets s !! w) as [k |] eqn:Hk; [| constructor].
  destruct (is_up (ws_readyState k)) eqn:Hup; [| constructor].
  constructor; [| constructor]. exists k. auto.
Qed.

Lemma calls_allowed_closeConnection (id : string) (remove silent : bool) :
  calls_allowed (closeConnection id remove silent).
Proof.
  unfold closeConnection.
  apply calls_allowed_bind; [apply quiet_allowed; owalk | rwalk |]. intros found.
  destruct found as [i |]; [| apply quiet_allowed; owalk].
  apply calls_allowed_bind; [apply quiet_allowed; owalk | rwalk |]. intros _.
  apply calls_allowed_then_quiet; [| intros; owalk].
  unfold with_rec.
  apply calls_allowed_bind; [apply quiet_allowed; owalk | rwalk |]. intros r.
  destruct r as [r |]; [| apply quiet_allowed; owalk].
  apply calls_allowed_bind; [apply quiet_allowed; owalk | rwalk |]. intros _.
  apply calls_allowed_bind; [apply quiet_allowed; owalk | rwalk |]. intros _.
  apply calls_allowed_close_if_up.
Qed.

Lemma calls_allowed_sendTo (id : string) (v : jsval) : calls_allowed (sendTo id v).
Proof.
  intros s. unfold sendTo. rewrite emitted_bind. cbn [emitted gets fst snd app exec].
  destruct (entry id s) as [r |]; cbn [mbind option_bind];
    [| constructor; [exact I | constructor]].
  unfold record_ws. destruct (rec_ws r) as [w |]; cbn [mbind option_bind];
    [| constructor; [exact I | constructor]].
  destruct (sockets s !! w) as [k |] eqn:Hk; cbn [mbind option_bind];
    [| constructor; [exact I | constructor]].
  destruct (ws_readyState k) eqn:Hst; cbn [readyState_eqb];
    try (constructor; [exact I | constructor]).
  constructor; [| constructor]. exists k. auto.
Qed.

Lemma calls_allowed_on_ping (i : nat) : calls_allowed (on_ping i).
Proof.
  intros s. unfold on_ping, with_rec. rewrite emitted_bind.
  cbn [emitted gets fst snd app exec].
  destruct (records s !! i) as [r |]; [| constructor].
  rewrite emitted_bind. cbn [emitted gets fst snd app exec].
  unfold record_ws. destruct (rec_ws r) as [w |]; cbn [mbind option_bind];
    [| constructor].
  destruct (sockets s !! w) as [k |] eqn:Hk; cbn [mbind option_bind]; [| constructor].
  destruct (ws_readyState k) eqn:Hst; cbn [readyState_eqb]; try constructor.
  - exists k. auto.
  - constructor.
Qed.

Section Calls.

Context (E : env).

Lemma calls_allowed_openConnection (id : string) (o : opts) :
  calls_allowed (openConnection E id o).
Proof.
  unfold openConnection.
  apply calls_allowed_bind; [apply quiet_allowed; owalk | rwalk |]. intros existing.
  apply calls_allowed_then_quiet; [| intros; owalk].
  destruct existing; [apply calls_allowed_closeConnection | apply quiet_allowed; owalk].
Qed.

Lemma calls_allowed_on_command (cmd : jsval) : calls_allowed (on_command E cmd).
Proof.
  unfold on_command.
  destruct (is_action (as_string (field "action" cmd)) "create").
  { destruct (as_string (field "id" cmd)) as [id |]; [| apply quiet_allowed; owalk].
    destruct (as_string (field "url" cmd)) as [url |]; [| apply quiet_allowed; owalk].
    destruct (negb (truthy (Some id)) || negb (truthy (Some url)));
      [apply quiet_allowed; owalk |].
    apply calls_allowed_then_quiet; [apply calls_allowed_openConnection | intros; owalk]. }
  destruct (is_action (as_string (field "action" cmd)) "close").
  { destruct (as_string (field "id" cmd)) as [id |]; [| apply quiet_allowed; owalk].
    destruct (negb (truthy (Some id))); [apply quiet_allowed; owalk |].
    apply calls_allowed_then_quiet; [apply calls_allowed_closeConnection | intros; owalk]. }
  destruct (is_action (as_string (field "action" cmd)) "delete").
  { destruct (as_string (field "id" cmd)) as [id |]; [| apply quiet_allowed; owalk].
    destruct (negb (truthy (Some id))); [apply quiet_allowed; owalk |].
    apply calls_allowed_then_quiet; [apply calls_allowed_closeConnection | intros; owalk]. }
  destruct (is_action (as_string (field "action" cmd)) "closeAll").
  { apply calls_allowed_bind; [apply quiet_allowed; owalk | rwalk |]. intros keys.
    apply calls_allowed_then_quiet; [| intros; owalk].
    apply calls_allowed_for_each; intros;
      [apply calls_allowed_closeConnection | apply no_revival_closeConnection]. }
  apply quiet_allowed. owalk.
Qed.

Lemma calls_allowed_on_input (m : msg) : calls_allowed (on_input E m).
Proof.
  unfold on_input. destruct (msg_websocketId m) as [wsid |]; [| apply quiet_allowed; owalk].
  destruct (String.eqb wsid "CMD"); [apply calls_allowed_on_command |].
  destruct (negb (String.eqb wsid "")); [| apply quiet_allowed; owalk].
  apply calls_allowed_then_quiet; [apply calls_allowed_sendTo | intros; owalk].
Qed.

Lemma calls_allowed_on_node_close : calls_allowed on_node_close.
Proof.
  unfold on_node_close.
  apply calls_allowed_bind; [apply quiet_allowed; owalk | rwalk |]. intros keys.
  apply calls_allowed_then_quiet; [| intros; owalk].
  apply calls_allowed_for_each; intros;
    [apply calls_allowed_closeConnection | apply no_revival_closeConnection].
Qed.

(** X8: whatever happens, the node sends and pings only on a transport
    that is open, and calls [close] only on a transport that is connecting
    or open: in every turn, each call that the node makes on a transport is
    allowed by the state the transport has when the turn starts. *)
Theorem calls_fit_the_transport (e : event) (s s' : state) (out : list output) :
  step E e s = Some (s', out) -> Forall (legal_call s) out.
Proof.
  intros Hstep.
  assert (forall h, calls_allowed h -> run_handler h s = Some (s', out) ->
                    Forall (legal_call s) out) as Hrun.
  { intros h Hh Hr. apply run_handler_exec in Hr as [_ ->]. apply Hh. }
  assert (forall w ok next h, (forall k, emits no_call (h k)) ->
            on_socket w ok next h s = Some (s', out) -> Forall (legal_call s) out)
    as Hsock.
  { intros w ok next h Hh Hr. apply on_socket_handler in Hr as (k & _ & _ & ->).
    apply quiet_anywhere, Hh. }
  destruct e as [m | | w | w data b | w code reason | w message code
                | w sc hdrs body | w | t]; cbn [step] in Hstep.
  - apply (Hrun _ (calls_allowed_on_input m) Hstep).
  - apply (Hrun _ calls_allowed_on_node_close Hstep).
  - refine (Hsock _ _ _ _ _ Hstep). intros k. owalk.
  - destruct (sockets s !! w) as [k |]; [| discriminate].
    destruct (ws_readyState k); try discriminate;
      refine (Hrun _ _ Hstep); apply quiet_allowed; owalk.
  - refine (Hsock _ _ _ _ _ Hstep). intros k. owalk.
  - destruct (sockets s !! w) as [k |]; [| discriminate].
    destruct (readyState_eqb (ws_readyState k) CLOSED); [discriminate |].
    refine (Hrun _ _ Hstep). apply quiet_allowed. owalk.
  - destruct (sockets s !! w) as [k |]; [| discriminate].
    destruct (ws_readyState k); try discriminate;
      refine (Hrun _ _ Hstep); apply quiet_allowed; owalk.
  - refine (Hsock _ _ _ _ _ Hstep). intros k. owalk.
  - destruct (timers s !! t) as [tm |]; [| discriminate].
    destruct (tm_pending tm); [| discriminate].
    destruct (tm_kind tm).
    + refine (Hrun _ _ Hstep). apply quiet_allowed. owalk.
    + apply (Hrun _ (calls_allowed_on_ping (tm_rec tm)) Hstep).
Qed.

End Calls.
(** ** Dials *)

Lemma torn_down_draws (i : nat) (r : conn) (s : state) :
  draws (torn_down i r s) = draws s.
Proof.
  unfold torn_down. destruct (record_ws s r) as [[w k] |];
    [destruct (is_up (ws_readyState k)) |]; cbn [draws with_sockets];
    rewrite !cleared_draws; reflexivity.
Qed.

Lemma torn_down_timers_length (i : nat) (r : conn) (s : state) :
  length (timers (torn_down i r s)) = length (timers s).
Proof.
  unfold torn_down. destruct (record_ws s r) as [[w k] |];
    [destruct (is_up (ws_readyState k)) |]; cbn [timers with_sockets];
    rewrite !cleared_timers_length; reflexivity.
Qed.

Lemma torn_down_records_length (i : nat) (r : conn) (s : state) :
  length (records (torn_down i r s)) = length (records s).
Proof.
  unfold torn_down. destruct (record_ws s r) as [[w k] |];
    [destruct (is_up (ws_readyState k)) |]; cbn [records with_sockets];
    rewrite !cleared_records; apply length_alter.
Qed.

Lemma torn_down_sockets_length (i : nat) (r : conn) (s : state) :
  length (sockets (torn_down i r s)) = length (sockets s).
Proof.
  rewrite torn_down_sockets. destruct (record_ws s r) as [[w k] |];
    [destruct (is_up (ws_readyState k)) |]; try reflexivity. apply length_alter.
Qed.

Section Dials.

Context (E : env).

(** The store sizes and the draws after the teardown of [openConnection]. *)
Lemma teardown_sizes (id : string) (remove silent : bool) (s : state) :
  Inv s ->
  let s1 := exec (closeConnection id remove silent) s in
  length (records s1) = length (records s) /\
  length (sockets s1) = length (sockets s) /\
  length (timers s1) = length (timers s) /\ draws s1 = draws s.
Proof.
  intros HI. unfold exec. destruct (assoc_get id (connections s)) as [i |] eqn:Hi.
  - destruct (inv_entry s HI id i Hi) as (r & Hr & _).
    rewrite (closeConnection_run id remove silent s i r Hi Hr). cbn [fst snd].
    destruct remove; cbn [records sockets timers draws with_connections];
      rewrite torn_down_records_length, torn_down_sockets_length,
        torn_down_timers_length, torn_down_draws; auto.
  - rewrite (closeConnection_absent id remove silent s Hi). cbn [fst snd]. auto.
Qed.

(** What [openConnection] emits: the teardown of the old entry, the
    warning about the proxy, the dial. *)
Lemma openConnection_emitted (id : string) (o : opts) (s : state) :
  let s1 := exec (closeConnection id false true) s in
  emitted (openConnection E id o) s
  = (emitted (closeConnection id false true) s ++ proxy_outputs E id o
     ++ connect_outputs E (new_record (node_config E) id o)
          (installed (node_config E) id o s1))%list.
Proof.
  intros s1. subst s1. unfold exec, emitted, openConnection. munfold.
  assert (forall s1, records (installed (node_config E) id o s1)
                       !! length (records s1)
                     = Some (new_record (node_config E) id o)) as Hn
    by (intros s1; apply lookup_snoc_new).
  destruct (assoc_get id (connections s)) as [i |] eqn:Hi.
  - destruct (closeConnection id false true s) as [[u s1] o1]. cbn [fst snd].
    unfold proxy_outputs.
    destruct (truthy (o_proxy o)); [destruct (proxy_error E (default "" (o_proxy o))) |];
      munfold;
      match goal with
      | |- context [connect E ?n ?opt ?st] =>
          change st with (installed (node_config E) id o s1);
          rewrite (connect_run E n (new_record (node_config E) id o) opt
                     (installed (node_config E) id o s1) (Hn s1) eq_refl)
      end; cbn [fst snd app]; rewrite ?app_nil_r; reflexivity.
  - rewrite (closeConnection_absent id false true s Hi). cbn [fst snd].
    unfold proxy_outputs.
    destruct (truthy (o_proxy o)); [destruct (proxy_error E (default "" (o_proxy o))) |];
      munfold;
      match goal with
      | |- context [connect E ?n ?opt ?st] =>
          change st with (installed (node_config E) id o s);
          rewrite (connect_run E n (new_record (node_config E) id o) opt
                     (installed (node_config E) id o s) (Hn s) eq_refl)
      end; reflexivity.
Qed.





End Dials.
(** ** What stays as it is *)

Lemma stable_settled (i : nat) (r : conn) : stable (settled i r) (fun _ => True).
Proof.
  assert (forall f j s,
            (forall r0, same_settings r0 (f r0)) ->
            settled i r s -> settled i r (upd_rec j f s)) as Hupd.
  { intros f j s Hf (r' & Hr' & Hsame).
    destruct (decide (j = i)) as [-> | Hne].
    - exists (f r'). split; [apply lookup_alter_same, Hr' |].
      destruct (Hf r') as (? & ? & ? & ? & ? & ?).
      destruct Hsame as (? & ? & ? & ? & ? & ?). repeat split; congruence.
    - exists r'. split; [| exact Hsame].
      apply lookup_alter_other; [exact Hne | exact Hr']. }
  split; try (intros; assumption).
  - intros j s. apply Hupd. intros r0. repeat split.
  - intros j v s. apply Hupd. intros r0. repeat split.
  - intros j v s. apply Hupd. intros r0. repeat split.
  - intros j v s. apply Hupd. intros r0. repeat split.
  - intros j v s. apply Hupd. intros r0. repeat split.
  - intros c id o s _ (r' & Hr' & Hsame). exists r'. split; [| exact Hsame].
    apply lookup_snoc_old, Hr'.
Qed.

Section Frame.

Context (E : env).

(** X13: a record is never removed and its settings never change: its
    id, url, protocols, headers, options and ping interval are those it was
    created with, whatever happens afterwards; only a new record, made by a
    [create] command, can carry other settings for the name. *)
Theorem settings_are_fixed (es : list event) (s s' : state) (out : list output)
    (i : nat) (r : conn) :
  run E es s = Some (s', out) -> records s !! i = Some r ->
  exists r', records s' !! i = Some r' /\ same_settings r r'.
Proof.
  intros Hrun Hr.
  apply (stable_run E _ _ (stable_settled i r) es s s' out); [auto | | exact Hrun].
  exists r. split; [exact Hr |]. repeat split.
Qed.

(** X14: in a store that the node can reach, a record has at most one
    pending timer of each kind; a reconnect is pending only for a record
    that the user has not closed and whose transport is closed, so that a
    record never has a reconnect and a ping interval pending together, and
    no record is dialed while its transport is alive. *)
Theorem one_timer_of_each_kind (s : state) :
  reachable E s ->
  (forall kind i t1 t2, pending s kind i t1 -> pending s kind i t2 -> t1 = t2) /\
  (forall i t, pending s ReconnectTimer i t ->
     exists r, records s !! i = Some r /\ rec_manualClose r = false /\
               record_state s r = CLOSED /\
               forall t', ~ pending s PingTimer i t').
Proof.
  intros Hreach. pose proof (reachable_Inv E s Hreach) as HI. split.
  - intros kind i t1 t2 (tm1 & Ht1 & Hp1 & Hk1 & Hi1) (tm2 & Ht2 & Hp2 & Hk2 & Hi2).
    destruct kind.
    + destruct (inv_reconnect s HI t1 tm1 Ht1 Hp1 Hk1) as (r1 & Hr1 & Hrt1 & _).
      destruct (inv_reconnect s HI t2 tm2 Ht2 Hp2 Hk2) as (r2 & Hr2 & Hrt2 & _).
      congruence.
    + destruct (inv_ping s HI t1 tm1 Ht1 Hp1 Hk1) as (r1 & Hr1 & Hpt1 & _).
      destruct (inv_ping s HI t2 tm2 Ht2 Hp2 Hk2) as (r2 & Hr2 & Hpt2 & _).
      congruence.
  - intros i t (tm & Ht & Hp & Hk & Hi).
    destruct (inv_reconnect s HI t tm Ht Hp Hk) as (r & Hr & _ & Hm & Hst).
    rewrite Hi in Hr. exists r. split; [exact Hr |]. split; [exact Hm |].
    split; [exact Hst |].
    intros t' (tm' & Ht' & Hp' & Hk' & Hi').
    destruct (inv_ping s HI t' tm' Ht' Hp' Hk') as (r' & Hr' & _ & _ & _ & Hst').
    rewrite Hi' in Hr'. assert (r' = r) as -> by congruence.
    rewrite Hst in Hst'. destruct Hst'; discriminate.
Qed.

Lemma sendTo_exec (id : string) (v : jsval) (s : state) : exec (sendTo id v) s = s.
Proof.
  unfold exec, sendTo. munfold.
  destruct (option_bind _ _ _ (entry id s)) as [[w k] |]; [| reflexivity].
  destruct (readyState_eqb (ws_readyState k) OPEN); reflexivity.
Qed.

(** X15: traffic does not change the pool: a message for a connection,
    a frame, an error or a rejected handshake reported by a transport, and
    a ping interval that fires leave the store exactly as it was; in
    particular none of them schedules a reconnect or closes a transport. *)
Theorem traffic_changes_nothing (e : event) (s s' : state) (out : list output) :
  traffic s e -> step E e s = Some (s', out) -> s' = s.
Proof.
  intros Htr Hstep.
  destruct e as [m | | w | w data b | w code reason | w message code
                | w sc hdrs body | w | t]; cbn [traffic] in Htr; try contradiction;
    cbn [step] in Hstep.
  - apply run_handler_exec in Hstep as [-> _]. unfold on_input.
    destruct (msg_websocketId m) as [wsid |]; [| reflexivity].
    rewrite (eqb_false_of_ne _ _ Htr).
    destruct (negb (String.eqb wsid "")); [| reflexivity].
    rewrite exec_bind. apply sendTo_exec.
  - destruct (sockets s !! w) as [k |]; [| discriminate].
    destruct (ws_readyState k); try discriminate;
      apply run_handler_exec in Hstep as [-> _];
      unfold exec, on_message, with_rec; munfold;
      destruct (records s !! ws_rec k); reflexivity.
  - destruct (sockets s !! w) as [k |]; [| discriminate].
    destruct (readyState_eqb (ws_readyState k) CLOSED); [discriminate |].
    apply run_handler_exec in Hstep as [-> _].
    unfold exec, on_error, with_rec. munfold.
    destruct (records s !! ws_rec k); reflexivity.
  - destruct (sockets s !! w) as [k |]; [| discriminate].
    destruct (ws_readyState k); try discriminate;
      apply run_handler_exec in Hstep as [-> _];
      unfold exec, on_unexpected_response, with_rec; munfold;
      destruct (records s !! ws_rec k); reflexivity.
  - destruct Htr as (tm & Ht & Hk). rewrite Ht, Hk in Hstep.
    destruct (tm_pending tm); [| discriminate].
    apply run_handler_exec in Hstep as [-> _].
    unfold exec, on_ping, with_rec. munfold.
    destruct (records s !! tm_rec tm) as [r |]; [| reflexivity]. munfold.
    destruct (record_ws s r) as [[w k] |]; [| reflexivity].
    destruct (readyState_eqb (ws_readyState k) OPEN); reflexivity.
Qed.

End Frame.
(** ** The attempt counter of an open connection *)

Lemma socket_state_not_opened (st : readyState) (w : nat) (ws : list socket)
    (h : option nat) :
  st <> OPEN -> socket_state (alter (set_readyState st) w ws) h = OPEN ->
  socket_state ws h = OPEN.
Proof.
  intros Hst. rewrite socket_state_alter. destruct (decide _); [contradiction | auto].
Qed.

Lemma torn_down_records (i : nat) (r : conn) (s : state) :
  records (torn_down i r s) = alter (set_manualClose true) i (records s).
Proof.
  unfold torn_down. destruct (record_ws s r) as [[w k] |];
    [destruct (is_up (ws_readyState k)) |]; cbn [records with_sockets];
    rewrite !cleared_records; reflexivity.
Qed.

Lemma fresh_same (s s' : state) :
  records s' = records s -> sockets s' = sockets s ->
  fresh_backoff s -> fresh_backoff s'.
Proof.
  intros Hr Hs HP i r Hi Hst. rewrite Hr in Hi.
  rewrite record_state_socket_state, Hs, <- record_state_socket_state in Hst.
  apply (HP i r Hi Hst).
Qed.

Lemma fresh_cleared (h : option nat) (s : state) :
  fresh_backoff s -> fresh_backoff (cleared h s).
Proof. apply fresh_same; [apply cleared_records | apply cleared_sockets]. Qed.

Lemma fresh_readyState (st : readyState) (w : nat) (s : state) :
  st <> OPEN -> fresh_backoff s ->
  fresh_backoff (with_sockets (alter (set_readyState st) w) s).
Proof.
  intros Hne HP i r Hi Hst. apply (HP i r Hi).
  rewrite record_state_socket_state in *.
  apply (socket_state_not_opened st w _ _ Hne Hst).
Qed.

Lemma fresh_installed (c : config) (id : string) (o : opts) (s : state) :
  fresh_backoff s -> fresh_backoff (installed c id o s).
Proof.
  intros HP i r Hi Hst. unfold installed in Hi. cbn [records with_connections
    with_records] in Hi.
  apply lookup_snoc_inv in Hi as [Hi | [_ ->]].
  - apply (HP i r Hi). exact Hst.
  - discriminate.
Qed.

Section Fresh.

Context (E : env).

Lemma fresh_torn_down (s : state) (i : nat) (r : conn) :
  Inv s -> records s !! i = Some r -> fresh_backoff s ->
  fresh_backoff (torn_down i r s).
Proof.
  intros HI Hr HP j r' Hj Hst. rewrite torn_down_records in Hj.
  apply lookup_alter_Some in Hj as [(<- & y & Hy & ->) | (Hne & Hj)].
  - exfalso. assert (y = r) as -> by congruence.
    pose proof (torn_down_state_own s i r HI Hr) as Hdown.
    rewrite Hst in Hdown. discriminate.
  - apply (HP j r' Hj).
    rewrite <- (torn_down_state_other s i j r r' HI Hr Hj ltac:(congruence)).
    exact Hst.
Qed.

Lemma fresh_dialed (s : state) (i : nat) (r : conn) (o : ws_options) :
  Inv s -> records s !! i = Some r -> fresh_backoff s ->
  fresh_backoff (dialed i r o s).
Proof.
  intros HI Hr HP j r' Hj Hst. unfold dialed in Hj, Hst.
  rewrite record_state_socket_state in Hst.
  cbn [records sockets upd_rec with_records with_sockets] in Hj, Hst.
  apply lookup_alter_Some in Hj as [(<- & y & Hy & ->) | (Hne & Hj)].
  - exfalso. cbn [rec_ws set_ws] in Hst. rewrite socket_state_snoc_new in Hst.
    discriminate.
  - apply (HP j r' Hj). rewrite record_state_socket_state.
    destruct (rec_ws r') as [w' |] eqn:Hws; [| exact Hst].
    destruct (inv_ws s HI j r' w' Hj Hws) as (k0 & Hk0 & _).
    rewrite (socket_state_snoc_old _ _ _ _ Hk0) in Hst. exact Hst.
Qed.

Lemma fresh_scheduled (s : state) (i : nat) (r : conn) :
  records s !! i = Some r -> record_state s r <> OPEN -> fresh_backoff s ->
  fresh_backoff (scheduled E i r s).
Proof.
  intros Hr Hdown HP j r' Hj Hst. unfold scheduled in Hj, Hst.
  rewrite record_state_socket_state in Hst.
  cbn [records sockets upd_rec with_records with_timers with_draws] in Hj, Hst.
  rewrite cleared_records in Hj. rewrite cleared_sockets in Hst.
  apply lookup_alter_Some in Hj as [(<- & y & Hy & ->) | (Hne & Hj)].
  - exfalso. apply lookup_alter_Some in Hy as [(_ & z & Hz & ->) | (Hc & _)];
      [| congruence].
    assert (z = r) as -> by congruence. apply Hdown.
    rewrite record_state_socket_state. exact Hst.
  - apply lookup_alter_Some in Hj as [(Hc & _) | (_ & Hj)]; [congruence |].
    apply (HP j r' Hj). rewrite record_state_socket_state. exact Hst.
Qed.

Lemma fresh_connected (s : state) (i : nat) (r : conn) (o : option ws_options) :
  Inv s -> records s !! i = Some r -> record_state s r <> OPEN -> fresh_backoff s ->
  fresh_backoff (connected E i r o s).
Proof.
  intros HI Hr Hdown HP. unfold connected.
  destruct (ws_ctor_error E (rec_url r)).
  - apply fresh_scheduled; assumption.
  - apply fresh_dialed; assumption.
Qed.

Lemma fresh_opened (s : state) (w : nat) (k : socket) (r : conn) :
  Inv s -> sockets s !! w = Some k -> records s !! ws_rec k = Some r ->
  fresh_backoff s -> fresh_backoff (opened w (ws_rec k) r s).
Proof.
  intros HI Hk Hr HP.
  assert (forall j r', j <> ws_rec k -> records s !! j = Some r' ->
            socket_state (alter (set_readyState OPEN) w (sockets s)) (rec_ws r') = OPEN ->
            rec_reconnectAttempts r' = 0%nat) as Hother.
  { intros j r' Hne Hj Hst. apply (HP j r' Hj). rewrite record_state_socket_state.
    rewrite socket_state_alter in Hst.
    destruct (decide _) as [[Hws _] | _]; [| exact Hst].
    exfalso. destruct (inv_ws s HI j r' w Hj Hws) as (k0 & Hk0 & Hown). congruence. }
  intros j r' Hj Hst. unfold opened in Hj, Hst.
  rewrite record_state_socket_state in Hst.
  destruct (0 <? rec_pingInterval r);
    cbn [records sockets upd_rec with_records with_timers with_sockets] in Hj, Hst;
    rewrite cleared_records in Hj; rewrite cleared_sockets in Hst;
    cbn [records sockets upd_rec with_records with_timers with_sockets] in Hj, Hst.
  - apply lookup_alter_Some in Hj as [(<- & y & Hy & ->) | (Hne & Hj)].
    + apply lookup_alter_Some in Hy as [(_ & z & _ & ->) | (Hc & _)];
        [reflexivity | congruence].
    + apply lookup_alter_Some in Hj as [(Hc & _) | (_ & Hj)]; [congruence |].
      apply (Hother j r'); auto.
  - apply lookup_alter_Some in Hj as [(<- & y & Hy & ->) | (Hne & Hj)];
      [reflexivity |].
    apply (Hother j r'); auto.
Qed.

Lemma fresh_closed (s : state) (w : nat) (k : socket) (r : conn) :
  Inv s -> sockets s !! w = Some k -> ws_readyState k <> CLOSED ->
  records s !! ws_rec k = Some r ->
  fresh_backoff s -> fresh_backoff (closed E w (ws_rec k) r s).
Proof.
  intros HI Hk Hlive Hr HP. unfold closed.
  set (s1 := cleared (rec_pingTimer r)
               (with_sockets (alter (set_readyState CLOSED) w) s)).
  assert (fresh_backoff s1) as HP1
    by (apply fresh_cleared, fresh_readyState; [discriminate | exact HP]).
  destruct (rec_manualClose r); [exact HP1 |].
  apply fresh_scheduled; [| | exact HP1].
  - unfold s1. rewrite cleared_records. exact Hr.
  - destruct (live_state s w k r HI Hk Hlive Hr) as (Hws & _).
    rewrite record_state_socket_state. unfold s1. rewrite cleared_sockets, Hws.
    cbn [sockets with_sockets]. rewrite (socket_state_altered _ _ _ _ Hk). discriminate.
Qed.

Lemma sound_closeConnection (id : string) (remove silent : bool) :
  keeps sound (closeConnection id remove silent).
Proof.
  intros s [HI HP]. split; [apply Inv_closeConnection, HI |].
  unfold exec. destruct (assoc_get id (connections s)) as [i |] eqn:Hi.
  - destruct (inv_entry s HI id i Hi) as (r & Hr & _).
    rewrite (closeConnection_run id remove silent s i r Hi Hr). cbn [fst snd].
    pose proof (fresh_torn_down s i r HI Hr HP) as HP'.
    destruct remove; [| exact HP'].
    revert HP'. apply fresh_same; reflexivity.
  - rewrite (closeConnection_absent id remove silent s Hi). exact HP.
Qed.

Lemma sound_openConnection (id : string) (o : opts) :
  keeps sound (openConnection E id o).
Proof.
  intros s [HI HP]. split; [apply Inv_openConnection, HI |].
  rewrite openConnection_exec.
  destruct (sound_closeConnection id false true s (conj HI HP)) as [HI1 HP1].
  destruct (closeConnection_post id false true s HI) as (_ & Hman & _).
  destruct (Inv_installed _ (node_config E) id o HI1 Hman) as (HI2 & Hn & _).
  apply fresh_connected; [exact HI2 | exact Hn | discriminate |].
  apply fresh_installed, HP1.
Qed.

Ltac sound_structure :=
  repeat first
    [ apply keeps_ret | apply keeps_emit | apply keeps_gets
    | apply sound_closeConnection | apply sound_openConnection
    | apply keeps_for_each; intros
    | apply keeps_bind; [| intros]
    | match goal with |- keeps _ (match ?x with _ => _ end) => destruct x end ].

Lemma sound_on_input (m : msg) : keeps sound (on_input E m).
Proof.
  unfold on_input, sendTo, on_command, throw, ack, listState.
  destruct (msg_websocketId m) as [wsid |]; sound_structure.
Qed.

Lemma sound_on_node_close : keeps sound on_node_close.
Proof. unfold on_node_close. sound_structure. Qed.

Lemma sound_step (e : event) (s s' : state) (out : list output) :
  sound s -> step E e s = Some (s', out) -> sound s'.
Proof.
  intros [HI HP] Hstep. split; [apply (step_Inv E e s s' out HI Hstep) |].
  destruct e as [m | | w | w data b | w code reason | w msg code
                | w sc hdrs body | w | t]; simpl in Hstep.
  - apply run_handler_exec in Hstep as [-> _]. apply sound_on_input. split; assumption.
  - apply run_handler_exec in Hstep as [-> _]. apply sound_on_node_close.
    split; assumption.
  - destruct (sockets s !! w) as [k |] eqn:Hk;
      [| unfold on_socket in Hstep; rewrite Hk in Hstep; discriminate].
    destruct (readyState_eqb (ws_readyState k) CONNECTING) eqn:Hst;
      [| unfold on_socket in Hstep; rewrite Hk, Hst in Hstep; discriminate].
    assert (ws_readyState k = CONNECTING) as Hrs
      by (destruct (ws_readyState k); try discriminate; reflexivity).
    destruct (inv_live s HI w k Hk ltac:(congruence)) as (r & Hr & _).
    change (step E (WsOpened w) s = Some (s', out)) in Hstep.
    rewrite (step_opened E s w k r Hk Hrs Hr) in Hstep. injection Hstep as <- _.
    apply fresh_opened; assumption.
  - destruct (sockets s !! w) as [k |]; [| discriminate].
    destruct (ws_readyState k); try discriminate;
      apply run_handler_exec in Hstep as [-> _];
      unfold exec, on_message, with_rec; munfold;
      destruct (records s !! ws_rec k); exact HP.
  - destruct (sockets s !! w) as [k |] eqn:Hk;
      [| unfold on_socket in Hstep; rewrite Hk in Hstep; discriminate].
    destruct (readyState_eqb (ws_readyState k) CLOSED) eqn:Hst;
      [unfold on_socket in Hstep; rewrite Hk, Hst in Hstep; discriminate |].
    assert (ws_readyState k <> CLOSED) as Hlive
      by (intros Hc; rewrite Hc in Hst; discriminate).
    destruct (inv_live s HI w k Hk Hlive) as (r & Hr & _).
    change (step E (WsClosed w code reason) s = Some (s', out)) in Hstep.
    rewrite (step_closed E s w k r code reason Hk Hlive Hr) in Hstep.
    injection Hstep as <- _. apply fresh_closed; assumption.
  - destruct (sockets s !! w) as [k |]; [| discriminate].
    destruct (readyState_eqb (ws_readyState k) CLOSED); [discriminate |].
    apply run_handler_exec in Hstep as [-> _].
    unfold exec, on_error, with_rec. munfold.
    destruct (records s !! ws_rec k); exact HP.
  - destruct (sockets s !! w) as [k |]; [| discriminate].
    destruct (ws_readyState k); try discriminate;
      apply run_handler_exec in Hstep as [-> _];
      unfold exec, on_unexpected_response, with_rec; munfold;
      destruct (records s !! ws_rec k); exact HP.
  - unfold on_socket in Hstep.
    destruct (sockets s !! w) as [k |] eqn:Hk; [| discriminate].
    destruct (is_up (ws_readyState k)) eqn:Hup; [| discriminate].
    injection Hstep as <- _. apply fresh_readyState; [discriminate | exact HP].
  - destruct (timers s !! t) as [tm |] eqn:Ht; [| discriminate].
    destruct (tm_pending tm) eqn:Hp; [| discriminate].
    destruct (tm_kind tm) eqn:Hkd.
    + destruct (Inv_fired s t tm HI Ht Hp Hkd) as (r & Hr & Hm & HI1 & Hrest).
      change (match tm_kind tm with
              | ReconnectTimer => _
              | PingTimer => _
              end) with (match tm_kind tm with
                         | ReconnectTimer =>
                             run_handler
                               (modify (with_timers (alter (set_pending false) t));;
                                connect E (tm_rec tm) None) s
                         | PingTimer => run_handler (on_ping (tm_rec tm)) s
                         end) in Hstep.
      pose proof (step_reconnect_timer E s t tm r Ht Hp Hkd Hr Hm) as Hs.
      simpl in Hs. rewrite Ht, Hp, Hkd in Hs. rewrite Hs in Hstep.
      injection Hstep as <- _.
      apply fresh_connected;
        [exact HI1 | exact Hr | | exact (fresh_cleared (Some t) s HP)].
      intros Ho. pose proof (proj1 Hrest r Hr) as Hc.
      change (cleared (Some t) s)
        with (with_timers (alter (set_pending false) t) s) in Hc.
      congruence.
    + apply run_handler_exec in Hstep as [-> _].
      unfold exec, on_ping, with_rec. munfold.
      destruct (records s !! tm_rec tm) as [r |]; [| exact HP]. munfold.
      destruct (record_ws s r) as [[w k] |]; [| exact HP].
      destruct (readyState_eqb (ws_readyState k) OPEN); exact HP.
Qed.

Lemma sound_run (es : list event) (s s' : state) (out : list output) :
  sound s -> run E es s = Some (s', out) -> sound s'.
Proof.
  revert s out. induction es as [| e es IH]; intros s out HS Hrun; simpl in Hrun.
  - injection Hrun as <- _. exact HS.
  - destruct (step E e s) as [[s1 o1] |] eqn:Hstep; [| discriminate].
    destruct (run E es s1) as [[s2 o2] |] eqn:Hrest; [| discriminate].
    injection Hrun as <- _. apply (IH s1 o2); [| exact Hrest].
    apply (sound_step e s s1 o1 HS Hstep).
Qed.

Lemma sound_initial : sound (initial_state E).
Proof.
  unfold initial_state. change (sound (exec (node_start E) empty_state)).
  assert (keeps sound (node_start E)) as Hk.
  { unfold node_start. sound_structure. }
  apply Hk. split; [apply Inv_empty |]. intros i r Hr. discriminate.
Qed.


End Fresh.
(** ** One [close] per transport *)

Lemma closes_app (w : nat) (a b : list output) :
  closes w (a ++ b) = (closes w a + closes w b)%nat.
Proof.
  induction a as [| o a IH]; [reflexivity |].
  destruct o; simpl; rewrite IH; try reflexivity. apply Nat.add_assoc.
Qed.

Lemma credit_le_1 (s : state) (w : nat) : (credit s w <= 1)%nat.
Proof.
  unfold credit. destruct (sockets s !! w) as [k |]; [| lia].
  destruct (is_up (ws_readyState k)); lia.
Qed.

Lemma credit_readyState (st : readyState) (w0 : nat) (s : state) (w : nat) :
  (forall k, sockets s !! w0 = Some k -> is_up st = true ->
             is_up (ws_readyState k) = true) ->
  (credit (with_sockets (alter (set_readyState st) w0) s) w <= credit s w)%nat.
Proof.
  intros Hst. unfold credit. cbn [sockets with_sockets].
  destruct (decide (w0 = w)) as [-> | Hne].
  - destruct (sockets s !! w) as [k |] eqn:Hk.
    + rewrite (lookup_alter_same _ _ _ _ Hk). cbn [ws_readyState set_readyState].
      destruct (is_up st) eqn:Hup; [rewrite (Hst k eq_refl eq_refl); lia |].
      destruct (is_up (ws_readyState k)); lia.
    + rewrite list_lookup_alter_eq, Hk. simpl. lia.
  - rewrite list_lookup_alter_ne by exact Hne. apply Nat.le_refl.
Qed.

Lemma credit_snoc (k0 : socket) (s : state) (w : nat) :
  (credit (with_sockets (fun ws => ws ++ [k0])%list s) w <= credit s w)%nat.
Proof.
  unfold credit. cbn [sockets with_sockets].
  destruct (sockets s !! w) as [k |] eqn:Hk.
  - rewrite (lookup_snoc_old _ _ _ _ Hk). apply Nat.le_refl.
  - destruct ((sockets s ++ [k0])%list !! w) as [k |]; [| lia].
    destruct (is_up (ws_readyState k)); lia.
Qed.

Lemma spends_ret {A : Type} (a : A) : spends (mret a : M A).
Proof. intros s w. change (0 + credit s w <= credit s w)%nat. lia. Qed.

Lemma spends_gets {A : Type} (f : state -> A) : spends (gets f).
Proof. intros s w. change (0 + credit s w <= credit s w)%nat. lia. Qed.

Lemma spends_emit (o : output) : no_call o -> spends (emit o).
Proof.
  intros Ho s w. destruct o; try contradiction;
    change (0 + credit s w <= credit s w)%nat; lia.
Qed.

Lemma spends_modify (f : state -> state) :
  (forall s, sockets (f s) = sockets s) -> spends (modify f).
Proof.
  intros Hf s w. change (0 + credit (f s) w <= credit s w)%nat. unfold credit.
  rewrite Hf. lia.
Qed.

Lemma spends_newSocket (k : socket) : spends (newSocket k).
Proof.
  intros s w.
  change (0 + credit (with_sockets (fun ws => ws ++ [k])%list s) w <= credit s w)%nat.
  pose proof (credit_snoc k s w). lia.
Qed.

Lemma spends_bind {A B : Type} (c : M A) (k : A -> M B) :
  spends c -> (forall a, spends (k a)) -> spends (c ≫= k).
Proof.
  intros Hc Hk s w. rewrite emitted_bind, exec_bind, closes_app.
  pose proof (Hc s w). pose proof (Hk (fst (fst (c s))) (exec c s) w). lia.
Qed.

Lemma spends_for_each {A : Type} (f : A -> M unit) (l : list A) :
  (forall a, spends (f a)) -> spends (for_each f l).
Proof.
  intros Hf. induction l as [| a l IH]; simpl.
  - apply spends_ret.
  - apply spends_bind; [apply Hf | intros _; exact IH].
Qed.

Lemma spends_close_if_up (h : option nat) : spends (close_if_up h).
Proof.
  intros s w. unfold close_if_up. destruct h as [w0 |]; [| apply spends_ret].
  rewrite emitted_bind, exec_bind. cbn [emitted exec gets fst snd app].
  destruct (sockets s !! w0) as [k |] eqn:Hk; [| apply spends_ret].
  destruct (is_up (ws_readyState k)) eqn:Hup; [| apply spends_ret].
  change (closes w [WsClose w0 1000 "closed by node-red"]
          + credit (with_sockets (alter (set_readyState CLOSING) w0) s) w
          <= credit s w)%nat.
  unfold credit. cbn [sockets with_sockets closes].
  destruct (Nat.eqb_spec w w0) as [-> | Hne].
  - rewrite (lookup_alter_same _ _ _ _ Hk), Hk, Hup. simpl. lia.
  - rewrite list_lookup_alter_ne by congruence.
    destruct (sockets s !! w) as [k1 |]; [destruct (is_up (ws_readyState k1)) |];
      simpl; lia.
Qed.

Ltac swalk :=
  repeat first
    [ apply spends_ret | apply spends_gets | apply spends_close_if_up
    | apply spends_newSocket
    | apply spends_modify; intros; reflexivity
    | apply spends_emit; exact I
    | apply spends_bind; [| intros]
    | apply spends_for_each; intros
    | match goal with |- spends (match ?x with _ => _ end) => destruct x end
    | match goal with |- spends (if ?x then _ else _) => destruct x end
    | progress (unfold clearTimer, newTimer, Math_random,
                  with_rec, scheduleReconnect, setupPing, connect, closeConnection,
                  openConnection, throw, ack, listState, sendTo, on_command,
                  on_input, on_node_close, on_message, on_close, on_error,
                  on_unexpected_response, on_open, on_ping) ].

Section Once.

Context (E : env).

Lemma spends_on_input (m : msg) : spends (on_input E m).
Proof. swalk. Qed.

Lemma spends_on_node_close : spends on_node_close.
Proof. swalk. Qed.

Lemma spends_on_socket (w0 : nat) (ok : readyState -> bool) (next : readyState)
    (h : socket -> M unit) (s s' : state) (out : list output) (w : nat) :
  (forall st, ok st = true -> is_up next = true -> is_up st = true) ->
  (forall k, spends (h k)) ->
  on_socket w0 ok next h s = Some (s', out) ->
  (closes w out + credit s' w <= credit s w)%nat.
Proof.
  intros Hok Hh. unfold on_socket.
  destruct (sockets s !! w0) as [k |] eqn:Hk; [| discriminate].
  destruct (ok (ws_readyState k)) eqn:Hst; [| discriminate].
  munfold.
  destruct (h k (with_sockets (alter (set_readyState next) w0) s)) as [[u s1] o1] eqn:Hr.
  intros [= <- <-].
  pose proof (Hh k (with_sockets (alter (set_readyState next) w0) s) w) as Hs.
  unfold exec, emitted in Hs. rewrite Hr in Hs. cbn [fst snd] in Hs.
  pose proof (credit_readyState next w0 s w) as Hc.
  cbn [app]. etransitivity; [exact Hs |]. apply Hc.
  intros k0 Hk0 Hup. assert (k0 = k) as -> by congruence. apply (Hok _ Hst Hup).
Qed.

Lemma step_spends (e : event) (s s' : state) (out : list output) (w : nat) :
  step E e s = Some (s', out) -> (closes w out + credit s' w <= credit s w)%nat.
Proof.
  intros Hstep.
  assert (forall h, spends h -> run_handler h s = Some (s', out) ->
                    (closes w out + credit s' w <= credit s w)%nat) as Hrun.
  { intros h Hh Hr. apply run_handler_exec in Hr as [-> ->]. apply Hh. }
  destruct e as [m | | w0 | w0 data b | w0 code reason | w0 message code
                | w0 sc hdrs body | w0 | t]; cbn [step] in Hstep.
  - apply (Hrun _ (spends_on_input m) Hstep).
  - apply (Hrun _ spends_on_node_close Hstep).
  - refine (spends_on_socket _ _ _ _ _ _ _ _ _ _ Hstep).
    + intros st Hst _. destruct st; try discriminate; reflexivity.
    + intros k. swalk.
  - destruct (sockets s !! w0) as [k |]; [| discriminate].
    destruct (ws_readyState k); try discriminate;
      refine (Hrun _ _ Hstep); swalk.
  - refine (spends_on_socket _ _ _ _ _ _ _ _ _ _ Hstep).
    + intros st _ Hup. discriminate.
    + intros k. swalk.
  - destruct (sockets s !! w0) as [k |]; [| discriminate].
    destruct (readyState_eqb (ws_readyState k) CLOSED); [discriminate |].
    refine (Hrun _ _ Hstep). swalk.
  - destruct (sockets s !! w0) as [k |]; [| discriminate].
    destruct (ws_readyState k); try discriminate;
      refine (Hrun _ _ Hstep); swalk.
  - refine (spends_on_socket _ _ _ _ _ _ _ _ _ _ Hstep).
    + intros st _ Hup. discriminate.
    + intros k. swalk.
  - destruct (timers s !! t) as [tm |]; [| discriminate].
    destruct (tm_pending tm); [| discriminate].
    destruct (tm_kind tm); refine (Hrun _ _ Hstep); swalk.
Qed.

Lemma run_spends (es : list event) (s s' : state) (out : list output) (w : nat) :
  run E es s = Some (s', out) -> (closes w out + credit s' w <= credit s w)%nat.
Proof.
  revert s out. induction es as [| e es IH]; intros s out Hrun; simpl in Hrun.
  - injection Hrun as <- <-. change (0 + credit s w <= credit s w)%nat. lia.
  - destruct (step E e s) as [[s1 o1] |] eqn:Hstep; [| discriminate].
    destruct (run E es s1) as [[s2 o2] |] eqn:Hrest; [| discriminate].
    injection Hrun as <- <-. rewrite closes_app.
    pose proof (step_spends e s s1 o1 w Hstep). pose proof (IH s1 o2 Hrest). lia.
Qed.

(** X17: along any run, the node calls [close] at most once on a
    transport, and never on one that is already closing or closed. *)
Theorem close_is_called_once (es : list event) (s s' : state) (out : list output)
    (w : nat) :
  run E es s = Some (s', out) ->
  (closes w out <= 1)%nat /\
  (forall k, sockets s !! w = Some k -> is_up (ws_readyState k) = false ->
             closes w out = 0%nat).
Proof.
  intros Hrun. pose proof (run_spends es s s' out w Hrun) as Hs.
  pose proof (credit_le_1 s w). split; [lia |].
  intros k Hk Hup. unfold credit in Hs at 2. rewrite Hk, Hup in Hs. lia.
Qed.

End Once.
(** ** The [Basic] authorization *)

Lemma base64_digit_value (n : N) :
  (n < 64)%N ->
  base64_value (base64_digit n) = Some n /\ is_pad (base64_digit n) = false.
Proof.
  intros Hn.
  assert (forallb (fun i => let n := N.of_nat i in
                            match base64_value (base64_digit n) with
                            | Some m => N.eqb m n
                            | None => false
                            end && negb (is_pad (base64_digit n)))
            (seq 0 64) = true) as Hall by (vm_compute; reflexivity).
  rewrite forallb_forall in Hall.
  assert (In (N.to_nat n) (seq 0 64)) as Hin by (apply in_seq; lia).
  apply Hall in Hin. rewrite N2Nat.id in Hin. apply andb_true_iff in Hin as [H1 H2].
  destruct (base64_value (base64_digit n)) as [m |]; [| discriminate].
  apply N.eqb_eq in H1. subst m. split; [reflexivity |].
  apply negb_true_iff, H2.
Qed.

Lemma base64_digit_token (n : N) : token_char (base64_digit n) = true.
Proof.
  destruct (N.lt_ge_cases n 64) as [Hlt | Hge].
  - unfold token_char. destruct (base64_digit_value n Hlt) as [-> _]. reflexivity.
  - unfold base64_digit.
    assert (String.get (N.to_nat n) base64_alphabet = None) as ->; [| reflexivity].
    assert (forall (s : string) (i : nat), (String.length s <= i)%nat ->
                                           String.get i s = None) as Hget.
    { induction s as [| c s IH]; intros i Hi; [destruct i; reflexivity |].
      destruct i as [| i]; simpl in *; [lia | apply IH; lia]. }
    apply Hget. change (String.length base64_alphabet) with 64%nat. lia.
Qed.

Lemma sextets (a b c : N) :
  (a < 256)%N -> (b < 256)%N -> (c < 256)%N ->
  (a / 4 < 64 /\ a mod 4 * 16 + b / 16 < 64 /\ b mod 16 * 4 + c / 64 < 64 /\
   c mod 64 < 64 /\ a mod 4 * 16 < 64 /\ b mod 16 * 4 < 64 /\
   a / 4 * 4 + (a mod 4 * 16 + b / 16) / 16 = a /\
   (a mod 4 * 16 + b / 16) mod 16 * 16 + (b mod 16 * 4 + c / 64) / 4 = b /\
   (b mod 16 * 4 + c / 64) mod 4 * 64 + c mod 64 = c /\
   a / 4 * 4 + (a mod 4 * 16) / 16 = a /\
   (a mod 4 * 16 + b / 16) mod 16 * 16 + (b mod 16 * 4) / 4 = b)%N.
Proof.
  intros Ha Hb Hc.
  pose proof (N.div_mod a 4 ltac:(lia)). pose proof (N.mod_lt a 4 ltac:(lia)).
  pose proof (N.div_mod b 16 ltac:(lia)). pose proof (N.mod_lt b 16 ltac:(lia)).
  pose proof (N.div_mod c 64 ltac:(lia)). pose proof (N.mod_lt c 64 ltac:(lia)).
  assert (a / 4 < 64)%N by (apply N.Div0.div_lt_upper_bound; lia).
  assert (b / 16 < 16)%N by (apply N.Div0.div_lt_upper_bound; lia).
  assert (c / 64 < 4)%N by (apply N.Div0.div_lt_upper_bound; lia).
  set (a1 := (a / 4)%N) in *. set (a0 := (a mod 4)%N) in *.
  set (b1 := (b / 16)%N) in *. set (b0 := (b mod 16)%N) in *.
  set (c1 := (c / 64)%N) in *. set (c0 := (c mod 64)%N) in *.
  assert ((a0 * 16 + b1) / 16 = a0 /\ (a0 * 16 + b1) mod 16 = b1)%N as [E1 E2].
  { assert (a0 * 16 + b1 = 16 * a0 + b1)%N as -> by lia.
    split; [symmetry; apply (N.div_unique _ 16 a0 b1); lia
           | symmetry; apply (N.mod_unique _ 16 a0 b1); lia]. }
  assert ((b0 * 4 + c1) / 4 = b0 /\ (b0 * 4 + c1) mod 4 = c1)%N as [E3 E4].
  { assert (b0 * 4 + c1 = 4 * b0 + c1)%N as -> by lia.
    split; [symmetry; apply (N.div_unique _ 4 b0 c1); lia
           | symmetry; apply (N.mod_unique _ 4 b0 c1); lia]. }
  assert ((a0 * 16) / 16 = a0)%N as E5 by (apply N.div_mul; lia).
  assert ((b0 * 4) / 4 = b0)%N as E6 by (apply N.div_mul; lia).
  rewrite E1, E2, E3, E4, E5, E6. repeat split; lia.
Qed.

Lemma base64_go_decodes (fuel : nat) (bs : list N) :
  (length bs < fuel)%nat -> Forall (fun n => n < 256)%N bs ->
  base64_decode_go (base64_go fuel bs) = Some bs /\
  all_chars token_char (base64_go fuel bs) = true /\
  String.length (base64_go fuel bs) = (4 * ((length bs + 2) / 3))%nat.
Proof.
  revert bs. induction fuel as [| fuel IH]; intros bs Hlen Hall; [lia |].
  destruct bs as [| a [| b [| c rest]]].
  - repeat split; reflexivity.
  - apply Forall_cons_1 in Hall as [Ha _].
    destruct (sextets a 0 0 Ha ltac:(lia) ltac:(lia))
      as (H1 & _ & _ & _ & H5 & _ & _ & _ & _ & E & _).
    cbn [base64_go base64_decode_go all_chars String.length].
    destruct (base64_digit_value _ H1) as [-> _].
    destruct (base64_digit_value _ H5) as [-> _].
    rewrite !base64_digit_token.
    change (is_pad "=") with true. change (token_char "=") with true.
    change (String.eqb "" "") with true. cbn [andb]. rewrite E.
    repeat split; reflexivity.
  - apply Forall_cons_1 in Hall as [Ha Hall]. apply Forall_cons_1 in Hall as [Hb _].
    destruct (sextets a b 0 Ha Hb ltac:(lia))
      as (H1 & H2 & _ & _ & _ & H6 & E1 & _ & _ & _ & E2).
    cbn [base64_go base64_decode_go all_chars String.length].
    destruct (base64_digit_value _ H1) as [-> _].
    destruct (base64_digit_value _ H2) as [-> _].
    destruct (base64_digit_value _ H6) as [-> ->].
    rewrite !base64_digit_token.
    change (is_pad "=") with true. change (token_char "=") with true.
    change (String.eqb "" "") with true. cbn [andb]. rewrite E1, E2.
    repeat split; reflexivity.
  - apply Forall_cons_1 in Hall as [Ha Hall]. apply Forall_cons_1 in Hall as [Hb Hall].
    apply Forall_cons_1 in Hall as [Hc Hall].
    destruct (sextets a b c Ha Hb Hc)
      as (H1 & H2 & H3 & H4 & _ & _ & E1 & E2 & E3 & _ & _).
    destruct (IH rest ltac:(simpl in Hlen; lia) Hall) as (Hdec & Hchars & Hsize).
    cbn [base64_go base64_decode_go all_chars String.length].
    destruct (base64_digit_value _ H1) as [-> _].
    destruct (base64_digit_value _ H2) as [-> _].
    destruct (base64_digit_value _ H3) as [-> ->].
    destruct (base64_digit_value _ H4) as [-> ->].
    rewrite Hdec, Hchars, Hsize, !base64_digit_token, E1, E2, E3.
    split; [reflexivity |]. split; [reflexivity |].
    cbn [length].
    replace (S (S (S (length rest))) + 2)%nat with (length rest + 2 + 1 * 3)%nat by lia.
    rewrite Nat.div_add by lia. lia.
Qed.

Lemma bytes_of_bytes (b : buffer) : bytes_of (map Byte.to_N b) = Some b.
Proof.
  induction b as [| x b IH]; [reflexivity |]. simpl. rewrite Byte.of_to_N, IH. reflexivity.
Qed.

Lemma bytes_below_256 (b : buffer) : Forall (fun n => n < 256)%N (map Byte.to_N b).
Proof.
  induction b as [| x b IH]; constructor; [| exact IH].
  pose proof (Byte.to_N_bounded x). lia.
Qed.

(** X18: the token of a [Basic] authorization reads back as the bytes
    of [username:password] in UTF-8; it is made of letters, digits, [+],
    [/] and [=] only, whatever the credentials contain, and has four
    characters for every three bytes. *)
Theorem basic_token_round_trip (username password : string) :
  exists token,
    makeAuthHeader username password = "Basic " ++ token /\
    base64_decode token = Some (utf8_encode (username ++ ":" ++ password)) /\
    all_chars token_char token = true /\
    String.length token
    = (4 * ((length (utf8_encode (username ++ ":" ++ password)) + 2) / 3))%nat.
Proof.
  set (b := utf8_encode (username ++ ":" ++ password)).
  exists (base64 b). split; [reflexivity |].
  destruct (base64_go_decodes (S (length b)) (map Byte.to_N b)) as (Hdec & Hchars & Hsize).
  { rewrite length_map. lia. }
  { apply bytes_below_256. }
  unfold base64_decode, base64. rewrite Hdec. rewrite length_map in Hsize.
  split; [apply bytes_of_bytes |]. split; [exact Hchars | exact Hsize].
Qed.
(** ** New entries *)

Lemma assoc_set_fresh {V : Type} (k : string) (v : V) (m : list (string * V)) :
  assoc_get k m = None -> assoc_set k v m = (m ++ [(k, v)])%list.
Proof.
  induction m as [| [k' v'] m IH]; simpl; [reflexivity |].
  destruct (String.eqb k k'); [discriminate |]. intros H. f_equal. apply IH, H.
Qed.

Section Create.

Context (E : env).

Lemma closeConnection_other (id id' : string) (remove silent : bool) (s : state)
    (i' : nat) (r' : conn) :
  Inv s -> id' <> id -> records s !! i' = Some r' -> rec_id r' = id' ->
  let s1 := exec (closeConnection id remove silent) s in
  records s1 !! i' = Some r' /\ record_state s1 r' = record_state s r'.
Proof.
  intros HI Hne Hr' Hid'. unfold exec.
  destruct (assoc_get id (connections s)) as [i |] eqn:Hi.
  - destruct (inv_entry s HI id i Hi) as (r & Hr & Hrid).
    rewrite (closeConnection_run id remove silent s i r Hi Hr). cbn [fst snd].
    destruct (Inv_torn_down s i r HI Hr) as (_ & _ & _ & Hother & _).
    assert (i' <> i) as Hii by (intros ->; congruence).
    pose proof (torn_down_state_other s i i' r r' HI Hr Hr' Hii) as Hst.
    destruct remove; cbn [records with_connections];
      (split; [rewrite (Hother i' Hii); exact Hr' | exact Hst]).
  - rewrite (closeConnection_absent id remove silent s Hi). cbn [fst snd]. auto.
Qed.

Lemma connected_connections (i : nat) (r : conn) (o : option ws_options) (s : state) :
  connections (connected E i r o s) = connections s.
Proof. apply connected_frame. Qed.

Lemma connected_state_other (i j : nat) (r r' : conn) (o : option ws_options)
    (s : state) :
  Inv s -> records s !! j = Some r' -> j <> i ->
  records (connected E i r o s) !! j = Some r' /\
  record_state (connected E i r o s) r' = record_state s r'.
Proof.
  intros HI Hr' Hne.
  destruct (connected_frame E i r o s) as (_ & Hother & _).
  split; [rewrite (Hother j Hne); exact Hr' |].
  rewrite !record_state_socket_state. unfold connected.
  destruct (ws_ctor_error E (rec_url r)).
  - unfold scheduled. cbn [sockets upd_rec with_records with_timers with_draws].
    rewrite cleared_sockets. reflexivity.
  - unfold dialed. cbn [sockets upd_rec with_records with_sockets].
    destruct (rec_ws r') as [w' |] eqn:Hws; [| reflexivity].
    destruct (inv_ws s HI j r' w' Hr' Hws) as (k0 & Hk0 & _).
    apply (socket_state_snoc_old _ _ _ _ Hk0).
Qed.

(** [openConnection] leaves the entries of the other names. *)
Lemma openConnection_other (id id' : string) (o : opts) (s : state) :
  Inv s -> id' <> id ->
  let s' := exec (openConnection E id o) s in
  entry id' s' = entry id' s /\ entry_state id' s' = entry_state id' s.
Proof.
  intros HI Hne s'. subst s'. rewrite openConnection_exec.
  set (s1 := exec (closeConnection id false true) s).
  pose proof (Inv_closeConnection id false true s HI) as HI1. fold s1 in HI1.
  destruct (closeConnection_post id false true s HI) as (_ & Hman & Hlen & _).
  fold s1 in Hman, Hlen.
  destruct (Inv_installed s1 (node_config E) id o HI1 Hman) as (HI2 & _ & _).
  set (s2 := installed (node_config E) id o s1) in *.
  assert (connections s2 = assoc_set id (length (records s1)) (connections s1))
    as Hci by reflexivity.
  pose proof (closeConnection_connections id false true s HI) as Hc.
  fold s1 in Hc. cbv iota in Hc.
  unfold entry_state, entry.
  rewrite !connected_connections, !Hci, !(assoc_get_set_ne id id' _ _ Hne), !Hc.
  destruct (assoc_get id' (connections s)) as [i' |] eqn:Hi'; [| auto].
  destruct (inv_entry s HI id' i' Hi') as (r' & Hr' & Hid').
  destruct (closeConnection_other id id' false true s i' r' HI Hne Hr' Hid')
    as (Hr1 & Hst1). fold s1 in Hr1, Hst1.
  assert (i' <> length (records s1)) as Hin
    by (apply lookup_lt_Some in Hr1; lia).
  assert (records s2 !! i' = Some r') as Hr2 by (apply lookup_snoc_old, Hr1).
  destruct (connected_state_other (length (records s1)) i'
              (new_record (node_config E) id o) r'
              (Some (new_options o (proxy_agent E o))) s2 HI2 Hr2 Hin) as (Hr3 & Hst3).
  cbn [mbind option_bind]. rewrite Hr3, Hr'. split; [reflexivity |].
  cbn [mbind option_bind]. f_equal. rewrite Hst3. exact Hst1.
Qed.

(** [openConnection] stores a record with the settings that it is given,
    not closed by the user, under the name. *)
Lemma openConnection_entry (id : string) (o : opts) (s : state) :
  Inv s ->
  let s' := exec (openConnection E id o) s in
  connections s' = assoc_set id (length (records s)) (connections s) /\
  exists r, entry id s' = Some r /\
            same_settings (new_record (node_config E) id o) r /\
            rec_manualClose r = false.
Proof.
  intros HI s'. subst s'. rewrite openConnection_exec.
  set (s1 := exec (closeConnection id false true) s).
  destruct (closeConnection_post id false true s HI) as (_ & _ & Hlen & _).
  fold s1 in Hlen.
  pose proof (closeConnection_connections id false true s HI) as Hc. fold s1 in Hc.
  set (s2 := installed (node_config E) id o s1) in *.
  assert (connections s2 = assoc_set id (length (records s1)) (connections s1))
    as Hci by reflexivity.
  cbv iota in Hc.
  rewrite connected_connections, Hci, Hc, Hlen.
  split; [reflexivity |].
  unfold entry. rewrite connected_connections, Hci, assoc_get_set_eq.
  cbn [mbind option_bind].
  assert (records s2 !! length (records s1)
          = Some (new_record (node_config E) id o)) as Hn by apply lookup_snoc_new.
  rewrite Hlen in Hn.
  unfold connected. destruct (ws_ctor_error E _).
  - unfold scheduled. cbn [records upd_rec with_records with_timers with_draws].
    rewrite cleared_records, ?Hlen.
    rewrite (lookup_alter_same _ _ _ _ (lookup_alter_same _ _ _ _ Hn)).
    eexists. split; [reflexivity |]. split; [repeat split | reflexivity].
  - unfold dialed. cbn [records upd_rec with_records with_sockets]. rewrite ?Hlen.
    rewrite (lookup_alter_same _ _ _ _ Hn).
    eexists. split; [reflexivity |]. split; [repeat split | reflexivity].
Qed.


Lemma openEach (l : list (string * opts)) (s : state) :
  Inv s -> List.NoDup (map fst l) ->
  (forall id, In id (map fst l) -> assoc_get id (connections s) = None) ->
  let s' := exec (for_each (fun kv => openConnection E (fst kv) (snd kv)) l) s in
  Inv s' /\
  map fst (connections s') = (map fst (connections s) ++ map fst l)%list /\
  (forall id o, In (id, o) l ->
     exists r, entry id s' = Some r /\
               same_settings (new_record (node_config E) id o) r /\
               rec_manualClose r = false) /\
  (forall id', ~ In id' (map fst l) -> entry id' s' = entry id' s).
Proof.
  revert s. induction l as [| [a o] l IH]; intros s HI Hnd Hfresh; simpl.
  - change (exec (mret tt) s) with s. rewrite app_nil_r.
    split; [exact HI |]. split; [reflexivity |]. split; [contradiction | reflexivity].
  - rewrite exec_bind. cbn [fst snd].
    set (s1 := exec (openConnection E a o) s).
    inversion Hnd as [| ? ? Hnotin Hnd']; subst.
    pose proof (Inv_openConnection E a o s HI) as HI1. fold s1 in HI1.
    destruct (openConnection_entry a o s HI) as (Hc & r & Hr & Hs & Hm).
    fold s1 in Hc, Hr.
    rewrite (assoc_set_fresh a _ _ (Hfresh a (or_introl eq_refl))) in Hc.
    destruct (IH s1 HI1 Hnd') as (HI' & Hkeys & Hin & Hout).
    { intros id Hid. rewrite Hc.
      assert (id <> a) as Hne by (intros ->; contradiction).
      assert (forall m : list (string * nat),
                assoc_get id (m ++ [(a, length (records s))])%list = assoc_get id m
                \/ assoc_get id m = None /\
                   assoc_get id (m ++ [(a, length (records s))])%list
                   = (if String.eqb id a then Some (length (records s)) else None))
        as Happ.
      { induction m as [| [k v] m IHm]; simpl; [right; auto |].
        destruct (String.eqb id k); [left; reflexivity | exact IHm]. }
      destruct (Happ (connections s)) as [-> | [_ ->]].
      - apply Hfresh. right. exact Hid.
      - rewrite (eqb_false_of_ne _ _ Hne). reflexivity. }
    split; [exact HI' |]. split; [| split].
    + rewrite Hkeys, Hc, map_app. cbn [map fst]. rewrite <- app_assoc. reflexivity.
    + intros id o0 [[= <- <-] | Hin0].
      * rewrite (Hout a Hnotin). eauto.
      * apply Hin. exact Hin0.
    + intros id' Hnot. rewrite Hout by (intros Hc'; apply Hnot; right; exact Hc').
      apply openConnection_other; [exact HI |]. intros ->. apply Hnot. left. reflexivity.
Qed.

(** X20: the connections configured in the editor are all opened when
    the node starts, in their order: each name has an entry with the
    settings given for it, not closed by the user, and the pool holds no
    other entry. *)
Theorem initial_connections_are_opened (entries : list (string * opts)) :
  cfg_initialConnections (node_config E) = InitEntries entries ->
  List.NoDup (map fst entries) ->
  map fst (connections (initial_state E)) = map fst entries /\
  forall id o, In (id, o) entries ->
    exists r, entry id (initial_state E) = Some r /\
              same_settings (new_record (node_config E) id o) r /\
              rec_manualClose r = false.
Proof.
  intros Hcfg Hnd.
  assert (initial_state E
          = exec (for_each (fun kv => openConnection E (fst kv) (snd kv)) entries)
              empty_state) as ->.
  { unfold initial_state, node_start. rewrite Hcfg.
    change (snd (fst (?c empty_state))) with (exec c empty_state).
    rewrite exec_bind. reflexivity. }
  destruct (openEach entries empty_state (Inv_empty) Hnd) as (_ & Hkeys & Hin & _).
  { intros id _. reflexivity. }
  split; [exact Hkeys | exact Hin].
Qed.

End Create.
(** ** A connection lost and restored *)

Section Cycle.

Context (E : env).

Lemma reachable_sound (s : state) : reachable E s -> sound s.
Proof. intros (es & out & Hrun). apply (sound_run E es _ s out (sound_initial E) Hrun). Qed.

Lemma closed_sockets (w i : nat) (r : conn) (s : state) :
  sockets (closed E w i r s) = alter (set_readyState CLOSED) w (sockets s).
Proof.
  unfold closed. destruct (rec_manualClose r); [apply cleared_sockets |].
  unfold scheduled. cbn [sockets upd_rec with_records with_timers with_draws].
  rewrite !cleared_sockets. reflexivity.
Qed.

Lemma closed_timer (w i : nat) (r : conn) (s : state) :
  rec_manualClose r = false ->
  timers (closed E w i r s) !! length (timers s)
  = Some {| tm_kind := ReconnectTimer; tm_rec := i;
            tm_delay := nextBackoff (node_config E) (rec_reconnectAttempts r)
                          (random E (draws s));
            tm_pending := true |}.
Proof.
  intros Hm. unfold closed. rewrite Hm. unfold scheduled. simpl.
  rewrite cleared_draws. simpl.
  apply list_lookup_middle. rewrite !cleared_timers_length. reflexivity.
Qed.

Lemma opened_sockets (w i : nat) (r : conn) (s : state) :
  sockets (opened w i r s) = alter (set_readyState OPEN) w (sockets s).
Proof.
  unfold opened. destruct (0 <? rec_pingInterval r);
    cbn [sockets upd_rec with_records with_timers with_sockets];
    rewrite cleared_sockets; reflexivity.
Qed.

Lemma settled_step (e : event) (s s' : state) (out : list output) (i : nat) (r r1 : conn) :
  step E e s = Some (s', out) -> records s !! i = Some r1 -> same_settings r r1 ->
  settled i r s'.
Proof.
  intros Hstep Hr Hsame.
  apply (stable_step E _ _ (stable_settled i r) e s s' out); [auto | | exact Hstep].
  exists r1. auto.
Qed.

(** X21: a connection that is lost comes back.  When an open transport of
    a record that the user has not closed reports its closure, the
    reconnect timer that is then pending fires and the constructor does not
    throw, and the new transport opens, the entry of the name is open again
    on the new transport, its attempt counter is back to zero, its ping
    interval runs if the interval is positive, and the last thing emitted
    is the [open] event of the name. *)
Theorem reconnect_restores_the_connection (s : state) (w : nat) (k : socket)
    (r : conn) (code : Z) (reason : string) :
  reachable E s ->
  sockets s !! w = Some k -> ws_readyState k = OPEN ->
  records s !! ws_rec k = Some r -> rec_manualClose r = false ->
  ws_ctor_error E (rec_url r) = None ->
  let t := length (timers s) in
  let w' := length (sockets s) in
  exists s3 pre r3,
    run E [WsClosed w code reason; TimerFired t; WsOpened w'] s
    = Some (s3, (pre ++ [NodeSend {| websocketId := rec_id r; topic := "open";
                                    payload := PBool true;
                                    meta := MUrl (rec_url r) |}])%list) /\
    entry (rec_id r) s3 = Some r3 /\ rec_ws r3 = Some w' /\
    record_state s3 r3 = OPEN /\ rec_reconnectAttempts r3 = 0%nat /\
    (0 < rec_pingInterval r -> exists tp, pending s3 PingTimer (ws_rec k) tp).
Proof.
  intros Hreach Hk Hst Hr Hm Hctor t w'.
  pose proof (reachable_sound s Hreach) as HS.
  assert (ws_readyState k <> CLOSED) as Hlive by congruence.
  set (i := ws_rec k) in *.
  (* the transport reports its closure *)
  pose proof (step_closed E s w k r code reason Hk Hlive Hr) as Hstep1.
  fold i in Hstep1. set (s1 := closed E w i r s) in *.
  pose proof (sound_step E _ _ _ _ HS Hstep1) as HS1.
  pose proof (closed_timer w i r s Hm) as Ht1. fold s1 t in Ht1.
  destruct (inv_reconnect s1 (proj1 HS1) t _ Ht1 eq_refl eq_refl)
    as (r2 & Hr2 & _ & Hm2 & _). cbn [tm_rec] in Hr2.
  destruct (settled_step _ _ _ _ i r r Hstep1 Hr) as (r2' & Hr2' & Hset2);
    [repeat split |].
  assert (r2' = r2) as -> by congruence.
  (* the timer fires *)
  pose proof (step_reconnect_timer E s1 t _ r2 Ht1 eq_refl eq_refl Hr2 Hm2) as Hstep2.
  cbn [tm_rec] in Hstep2.
  set (s2 := connected E i r2 None (cleared (Some t) s1)) in *.
  pose proof (sound_step E _ _ _ _ HS1 Hstep2) as HS2.
  assert (rec_url r2 = rec_url r) as Hurl2 by apply Hset2.
  set (k' := {| ws_rec := i; ws_readyState := CONNECTING; ws_url := rec_url r2;
                ws_protocols := rec_protocols r2;
                ws_ctorOpts := reconnect_options E r2 |}).
  assert (sockets s2 !! w' = Some k') as Hk'.
  { unfold s2, connected. rewrite Hurl2, Hctor. unfold dialed.
    cbn [sockets upd_rec with_records with_sockets default].
    rewrite cleared_sockets. unfold s1. rewrite closed_sockets.
    unfold w'. rewrite <- (length_alter (set_readyState CLOSED) (sockets s) w).
    apply lookup_snoc_new. }
  destruct (inv_live s2 (proj1 HS2) w' k' Hk' ltac:(discriminate)) as (r3 & Hr3 & _).
  cbn [ws_rec k'] in Hr3.
  destruct (settled_step _ _ _ _ i r r2 Hstep2 Hr2 Hset2) as (r3' & Hr3' & Hset3).
  assert (r3' = r3) as -> by congruence.
  (* the new transport opens *)
  pose proof (step_opened E s2 w' k' r3 Hk' eq_refl Hr3) as Hstep3.
  cbn [ws_rec k'] in Hstep3.
  set (s3 := opened w' i r3 s2) in *.
  pose proof (sound_step E _ _ _ _ HS2 Hstep3) as [HI3 HP3].
  assert (sockets s3 !! w' = Some (set_readyState OPEN k')) as Hk3.
  { unfold s3. rewrite opened_sockets. apply lookup_alter_same, Hk'. }
  destruct (live_has_record s3 w' _ HI3 Hk3 ltac:(discriminate))
    as (r4 & Hr4 & Hws4 & Hst4).
  cbn [ws_rec set_readyState k' ws_readyState] in Hr4, Hst4.
  destruct (settled_step _ _ _ _ i r r3 Hstep3 Hr3 Hset3) as (r4' & Hr4' & Hset4).
  assert (r4' = r4) as -> by congruence.
  destruct Hset4 as (Hid4 & _ & _ & _ & _ & Hping4).
  assert (rec_manualClose r4 = false) as Hm4.
  { destruct (rec_manualClose r4) eqn:Hc; [| reflexivity].
    pose proof (inv_manual s3 HI3 i r4 Hr4 Hc) as Hdown.
    rewrite Hst4 in Hdown. discriminate. }
  exists s3.
  exists (close_outputs E r k code reason s ++ connect_outputs E r2 s1
          ++ [NodeStatus "green" "dot" ("open " ++ rec_id r)])%list.
  exists r4.
  split; [| split; [| split; [exact Hws4 | split; [exact Hst4 | split]]]].
  - cbn [run]. rewrite Hstep1, Hstep2, Hstep3.
    unfold open_event. destruct Hset3 as (-> & _). cbn [ws_url k']. rewrite Hurl2.
    f_equal. f_equal. rewrite app_nil_r, <- !app_assoc. reflexivity.
  - unfold entry. rewrite <- Hid4, (inv_mapped s3 HI3 i r4 Hr4 Hm4).
    exact Hr4.
  - apply (HP3 i r4 Hr4 Hst4).
  - intros Hpos. rewrite <- Hping4 in Hpos.
    destruct (inv_open s3 HI3 i r4 Hr4 Hst4 Hpos) as (tp & tm & Hpt & Htm & Hpend).
    destruct (inv_ptimer s3 HI3 i r4 tp Hr4 Hpt) as (tm' & Htm' & Hown & Hkind).
    assert (tm' = tm) as -> by congruence.
    exists tp, tm. auto.
Qed.

End Cycle.
(** ** Where the events come from *)

Ltac awalk :=
  repeat first
    [ apply emits_ret | apply emits_gets | apply emits_modify
    | apply emits_bind; [| intros]
    | apply emits_for_each; intros
    | apply emits_emit; simpl; first [exact I | split; reflexivity]
    | match goal with |- emits _ (match ?x with _ => _ end) => destruct x end
    | progress (unfold clearTimer, newTimer, newSocket, close_if_up, Math_random,
                  with_rec, scheduleReconnect, setupPing, connect, closeConnection,
                  openConnection, throw, ack, listState, sendTo, on_command,
                  on_node_close, on_ping) ].

Ltac no_event Hrun Hstep :=
  match type of Hstep with
  | run_handler ?h _ = _ =>
      let Hn := fresh "Hn" in
      assert (emits not_event h) as Hn by owalk; destruct (Hrun _ _ Hn Hstep)
  end.

Section Events.

Context (E : env).

Lemma step_message (s : state) (w : nat) (k : socket) (r : conn) (data : wsdata)
    (b : bool) :
  sockets s !! w = Some k -> ws_readyState k = OPEN \/ ws_readyState k = CLOSING ->
  records s !! ws_rec k = Some r ->
  step E (WsMessage w data b) s
  = Some (s, [NodeSend {| websocketId := rec_id r; topic := "message";
                          payload := PValue (message_payload E data b);
                          meta := MUrl (ws_url k) |}]).
Proof.
  intros Hk Hst Hr. unfold step. rewrite Hk.
  destruct Hst as [-> | ->]; unfold on_message, with_rec; munfold; rewrite Hr;
    reflexivity.
Qed.

Lemma step_errored (s : state) (w : nat) (k : socket) (r : conn) (message : string)
    (code : option string) :
  sockets s !! w = Some k -> ws_readyState k <> CLOSED ->
  records s !! ws_rec k = Some r ->
  step E (WsErrored w message code) s
  = Some (s, [NodeSend {| websocketId := rec_id r; topic := "error";
                          payload := PError message code;
                          meta := MUrl (ws_url k) |}]).
Proof.
  intros Hk Hst Hr. unfold step. rewrite Hk.
  destruct (readyState_eqb (ws_readyState k) CLOSED) eqn:Hc;
    [destruct (ws_readyState k); try discriminate; contradiction |].
  unfold on_error, with_rec. munfold. rewrite Hr. reflexivity.
Qed.

(** X22: every event that the node emits either answers a command on
    the input, under the name [CMD], or is reported by a transport and
    carries the id of the record for which that transport was made, with
    one of the topics [open], [message], [close] and [error]; timers and
    the shutdown of the node emit no event. *)
Theorem events_name_their_connection (e : event) (s s' : state) (out : list output)
    (m : out_msg) :
  reachable E s -> step E e s = Some (s', out) -> In (NodeSend m) out ->
  (websocketId m = "CMD" /\ meta m = MNone /\
   exists payload, e = control payload) \/
  (exists w k r, socket_of e = Some w /\ sockets s !! w = Some k /\
                 records s !! ws_rec k = Some r /\
                 websocketId m = rec_id r /\ connection_topic (topic m)).
Proof.
  intros Hreach Hstep Hin. pose proof (reachable_Inv E s Hreach) as HI.
  assert (forall (P : output -> Prop) h, emits P h ->
            run_handler h s = Some (s', out) -> P (NodeSend m)) as Hrun.
  { intros P h Hh Hr. apply run_handler_exec in Hr as [_ ->].
    pose proof (Hh s) as Hall. rewrite List.Forall_forall in Hall.
    apply (Hall _ Hin). }
  assert (forall w k, sockets s !! w = Some k -> ws_readyState k <> CLOSED ->
            exists r, records s !! ws_rec k = Some r) as Hrec.
  { intros w k Hk Hlive. destruct (inv_live s HI w k Hk Hlive) as (r & Hr & _). eauto. }
  destruct e as [msg | | w | w data b | w code reason | w message code
                | w sc hdrs body | w | t]; cbn [step] in Hstep.
  - left. destruct msg as [[wsid |] payload]; unfold on_input in Hstep;
      cbn [msg_websocketId msg_payload] in Hstep.
    + destruct (String.eqb_spec wsid "CMD") as [-> | Hne].
      * assert (emits answer_only (on_command E payload)) as Ha by awalk.
        destruct (Hrun _ _ Ha Hstep) as [H1 H2].
        split; [exact H1 |]. split; [exact H2 |]. exists payload. reflexivity.
      * destruct (negb (String.eqb wsid "")); no_event Hrun Hstep.
    + no_event Hrun Hstep.
  - no_event Hrun Hstep.
  - right. unfold on_socket in Hstep.
    destruct (sockets s !! w) as [k |] eqn:Hk; [| discriminate].
    destruct (readyState_eqb (ws_readyState k) CONNECTING) eqn:Hst; [| discriminate].
    assert (ws_readyState k = CONNECTING) as Hrs
      by (destruct (ws_readyState k); try discriminate; reflexivity).
    destruct (Hrec w k Hk ltac:(congruence)) as (r & Hr).
    pose proof (step_opened E s w k r Hk Hrs Hr) as Hs. cbn [step] in Hs.
    unfold on_socket in Hs. rewrite Hk, Hst in Hs. rewrite Hs in Hstep.
    injection Hstep as _ <-.
    destruct Hin as [[=] | [[= <-] | []]].
    exists w, k, r. repeat split; auto. left. reflexivity.
  - right. destruct (sockets s !! w) as [k |] eqn:Hk; [| discriminate].
    assert (ws_readyState k = OPEN \/ ws_readyState k = CLOSING) as Hst
      by (destruct (ws_readyState k); try discriminate; auto).
    destruct (Hrec w k Hk ltac:(destruct Hst; congruence)) as (r & Hr).
    pose proof (step_message s w k r data b Hk Hst Hr) as Hs. cbn [step] in Hs.
    rewrite Hk in Hs. rewrite Hs in Hstep. injection Hstep as _ <-.
    destruct Hin as [[= <-] | []].
    exists w, k, r. repeat split; auto. right. left. reflexivity.
  - right. unfold on_socket in Hstep.
    destruct (sockets s !! w) as [k |] eqn:Hk; [| discriminate].
    destruct (readyState_eqb (ws_readyState k) CLOSED) eqn:Hst; [discriminate |].
    assert (ws_readyState k <> CLOSED) as Hlive
      by (intros Hc; rewrite Hc in Hst; discriminate).
    destruct (Hrec w k Hk Hlive) as (r & Hr).
    pose proof (step_closed E s w k r code reason Hk Hlive Hr) as Hs. cbn [step] in Hs.
    unfold on_socket in Hs. rewrite Hk, Hst in Hs. rewrite Hs in Hstep.
    injection Hstep as _ <-. unfold close_outputs, reconnect_status in Hin.
    destruct Hin as [[= <-] | [[=] | Hin]].
    + exists w, k, r. repeat split; auto. right. right. left. reflexivity.
    + destruct (rec_manualClose r); [destruct Hin |].
      destruct Hin as [[=] | []].
  - right. destruct (sockets s !! w) as [k |] eqn:Hk; [| discriminate].
    destruct (readyState_eqb (ws_readyState k) CLOSED) eqn:Hst; [discriminate |].
    assert (ws_readyState k <> CLOSED) as Hlive
      by (intros Hc; rewrite Hc in Hst; discriminate).
    destruct (Hrec w k Hk Hlive) as (r & Hr).
    pose proof (step_errored s w k r message code Hk Hlive Hr) as Hs. cbn [step] in Hs.
    rewrite Hk, Hst in Hs. rewrite Hs in Hstep. injection Hstep as _ <-.
    destruct Hin as [[= <-] | []].
    exists w, k, r. repeat split; auto. right. right. right. reflexivity.
  - right. destruct (sockets s !! w) as [k |] eqn:Hk; [| discriminate].
    assert (ws_readyState k = CONNECTING \/ ws_readyState k = CLOSING) as Hst
      by (destruct (ws_readyState k); try discriminate; auto).
    destruct (Hrec w k Hk ltac:(destruct Hst; congruence)) as (r & Hr).
    pose proof (step_unexpected E s w k r sc hdrs body Hk Hst Hr) as Hs.
    cbn [step] in Hs. rewrite Hk in Hs. rewrite Hs in Hstep. injection Hstep as _ <-.
    destruct Hin as [[= <-] | [[=] | []]].
    exists w, k, r. repeat split; auto. right. right. right. reflexivity.
  - unfold on_socket in Hstep.
    destruct (sockets s !! w) as [k |]; [| discriminate].
    destruct (is_up (ws_readyState k)); [| discriminate].
    injection Hstep as _ <-. destruct Hin.
  - destruct (timers s !! t) as [tm |]; [| discriminate].
    destruct (tm_pending tm); [| discriminate].
    destruct (tm_kind tm); no_event Hrun Hstep.
Qed.

End Events.
(** ** The first dial *)

Section FirstDial.

Context (E : env).

(** X23: the first dial of [openConnection] (the constructor not
    throwing) makes a connecting transport with the TLS material of the
    options; the handshake timeout is [handshakeTimeout] if that is a
    number other than zero, else [timeoutMs] if that is one, else none;
    compression is on unless the options switch it off; a proxy url that
    the agent accepts gives the agent; one that it rejects gives a warning,
    and the transport is dialed all the same, without an agent. *)
Theorem first_dial_uses_the_options (id : string) (o : opts) (s : state) :
  reachable E s -> ws_ctor_error E (o_url o) = None ->
  let s' := exec (openConnection E id o) s in
  let out := emitted (openConnection E id o) s in
  exists k,
    sockets s' !! length (sockets s) = Some k /\
    ws_readyState k = CONNECTING /\ ws_url k = o_url o /\
    wo_ca (ws_ctorOpts k) = o_ca o /\ wo_cert (ws_ctorOpts k) = o_cert o /\
    wo_key (ws_ctorOpts k) = o_key o /\
    wo_passphrase (ws_ctorOpts k) = o_passphrase o /\
    wo_servername (ws_ctorOpts k) = o_servername o /\
    wo_handshakeTimeout (ws_ctorOpts k) <> Some 0 /\
    (forall x, o_handshakeTimeout o = Some x -> x <> 0 ->
               wo_handshakeTimeout (ws_ctorOpts k) = Some x) /\
    (forall y, o_handshakeTimeout o = None \/ o_handshakeTimeout o = Some 0 ->
               o_timeoutMs o = Some y -> y <> 0 ->
               wo_handshakeTimeout (ws_ctorOpts k) = Some y) /\
    (o_perMessageDeflate o = None -> wo_perMessageDeflate (ws_ctorOpts k) = Some true) /\
    (forall b, o_perMessageDeflate o = Some b ->
               wo_perMessageDeflate (ws_ctorOpts k) = Some b) /\
    (forall p, o_proxy o = Some p -> p <> "" -> proxy_error E p = None ->
               wo_agent (ws_ctorOpts k) = Some p) /\
    (forall p err, o_proxy o = Some p -> p <> "" -> proxy_error E p = Some err ->
               wo_agent (ws_ctorOpts k) = None /\
               In (NodeWarn ("invalid proxy url for " ++ id ++ ": " ++ err)) out).
Proof.
  intros Hreach Hok s' out. subst s' out.
  pose proof (reachable_Inv E s Hreach) as HI.
  destruct (teardown_sizes id false true s HI) as (_ & Hsocks & _ & _).
  rewrite openConnection_exec, openConnection_emitted.
  set (s1 := exec (closeConnection id false true) s) in *.
  unfold connected. cbn [rec_url new_record]. rewrite Hok.
  eexists. split.
  { unfold dialed, installed. cbn [sockets upd_rec with_records with_sockets
      with_connections default]. rewrite <- Hsocks. apply lookup_snoc_new. }
  unfold Datatypes.id.
  cbn [ws_readyState ws_url ws_ctorOpts rec_url new_record new_options wo_ca wo_cert
    wo_key wo_passphrase wo_servername wo_handshakeTimeout wo_perMessageDeflate
    wo_agent].
  do 7 (split; [reflexivity |]).
  split; [| split; [| split; [| split; [| split; [| split]]]]].
  - unfold first_nonzero.
    destruct (o_handshakeTimeout o) as [x |]; [destruct (Z.eqb_spec x 0) |];
      try (destruct (o_timeoutMs o) as [y |]; [destruct (Z.eqb_spec y 0) |]);
      congruence.
  - intros x -> Hx. unfold first_nonzero.
    destruct (Z.eqb_spec x 0); [contradiction | reflexivity].
  - intros y Hh -> Hy. unfold first_nonzero.
    destruct Hh as [-> | ->]; cbn [Z.eqb];
      destruct (Z.eqb_spec y 0); try contradiction; reflexivity.
  - intros ->. reflexivity.
  - intros b ->. reflexivity.
  - intros p Hp Hne Hperr. unfold proxy_agent. rewrite Hp. cbn [truthy default].
    rewrite (eqb_false_of_ne _ _ Hne). cbn [negb]. unfold Datatypes.id.
    rewrite Hperr. reflexivity.
  - intros p err Hp Hne Hperr. unfold proxy_agent, proxy_outputs. rewrite Hp.
    cbn [truthy default]. rewrite (eqb_false_of_ne _ _ Hne). cbn [negb].
    unfold Datatypes.id. rewrite Hperr. split; [reflexivity |].
    apply in_or_app. right. left. reflexivity.
Qed.

End FirstDial.
(** ** No connection is forgotten *)

Lemma agree_trans (i : nat) (s s1 s2 : state) :
  agree_except i s s1 -> agree_except i s1 s2 -> agree_except i s s2.
Proof.
  intros (Hr & Hs & Ht) (Hr' & Hs' & Ht'). split; [| split].
  - intros j Hne. rewrite (Hr' j Hne). apply Hr, Hne.
  - intros w k Hne. rewrite (Hs' w k Hne). apply Hs, Hne.
  - intros t tm Hne. rewrite (Ht' t tm Hne). apply Ht, Hne.
Qed.

Lemma agree_same (i : nat) (s s' : state) :
  records s' = records s -> sockets s' = sockets s -> timers s' = timers s ->
  agree_except i s s'.
Proof.
  intros Hr Hs Ht. unfold agree_except. rewrite Hr, Hs, Ht. repeat split; auto.
Qed.

Lemma tended_same (s s' : state) :
  records s' = records s -> sockets s' = sockets s -> timers s' = timers s ->
  tended s -> tended s'.
Proof.
  intros Hr Hs Ht HT i r Hi Hm Hst. rewrite Hr in Hi.
  rewrite record_state_socket_state, Hs, <- record_state_socket_state in Hst.
  destruct (HT i r Hi Hm Hst) as (t & Hrt & tm & Htm & Hrest).
  exists t. split; [exact Hrt |]. exists tm. rewrite Ht. auto.
Qed.

(** What holds of every record but [i] carries over to a store that
    differs only in what belongs to [i]. *)
Lemma tended_focus (s s' : state) (i : nat) :
  Inv s -> tended s -> agree_except i s s' -> tended_at s' i -> tended s'.
Proof.
  intros HI HT Hag Hi j. destruct (decide (j = i)) as [-> | Hne]; [exact Hi |].
  intros r Hr Hm Hst. pose proof Hag as (Hrecs & _ & Htimers).
  rewrite (Hrecs j Hne) in Hr.
  rewrite (record_state_agree s s' i j r HI Hag Hne Hr) in Hst.
  destruct (HT j r Hr Hm Hst) as (t & Hrt & tm & Htm & Hp & Hk & Hown).
  exists t. split; [exact Hrt |]. exists tm.
  split; [apply Htimers; [congruence | exact Htm] | auto].
Qed.

Lemma torn_down_timers (i : nat) (r : conn) (s : state) :
  timers (torn_down i r s)
  = timers (cleared (rec_pingTimer r) (cleared (rec_reconnectTimer r) s)).
Proof.
  unfold torn_down. destruct (record_ws s r) as [[w k] |];
    [destruct (is_up (ws_readyState k)) |]; cbn [timers with_sockets];
    destruct (rec_pingTimer r), (rec_reconnectTimer r); reflexivity.
Qed.

Section Tended.

Context (E : env).

Lemma agree_cleared (s : state) (i : nat) (h : option nat) :
  (forall t tm, h = Some t -> timers s !! t = Some tm -> tm_rec tm = i) ->
  agree_except i s (cleared h s).
Proof.
  intros Hown. split; [intros j _; rewrite cleared_records; reflexivity |].
  split; [intros w k _; rewrite cleared_sockets; reflexivity |].
  apply agree_timers_cleared. exact Hown.
Qed.

Lemma agree_torn_down (s : state) (i : nat) (r : conn) :
  Inv s -> records s !! i = Some r -> agree_except i s (torn_down i r s).
Proof.
  intros HI Hr. split; [| split].
  - intros j Hne. rewrite torn_down_records. apply agree_records_alter, Hne.
  - rewrite torn_down_sockets. unfold record_ws.
    destruct (rec_ws r) as [w |] eqn:Hws; [| reflexivity]. cbn [mbind option_bind].
    destruct (inv_ws s HI i r w Hr Hws) as (k & Hk & Hown). rewrite Hk.
    cbn [mbind option_bind]. destruct (is_up (ws_readyState k)); [| reflexivity].
    apply agree_sockets_alter. intros k0 Hk0. congruence.
  - intros t tm Hne. rewrite torn_down_timers. etransitivity.
    + apply (agree_timers_cleared i (rec_pingTimer r)
               (cleared (rec_reconnectTimer r) s)); [| exact Hne].
      intros t0 tm0 Hpt Ht0.
      apply cleared_lookup in Ht0 as (tm1 & Ht1 & _ & Hrec & _).
      destruct (inv_ptimer s HI i r t0 Hr Hpt) as (tm' & Ht' & Hown & _). congruence.
    + apply (agree_timers_cleared i (rec_reconnectTimer r) s); [| exact Hne].
      intros t0 tm0 Hrt Ht0.
      destruct (inv_rtimer s HI i r t0 Hr Hrt) as (tm' & Ht' & Hown & _). congruence.
Qed.

Lemma tended_torn_down (s : state) (i : nat) (r : conn) :
  Inv s -> records s !! i = Some r -> tended s -> tended (torn_down i r s).
Proof.
  intros HI Hr HT. apply (tended_focus s _ i HI HT (agree_torn_down s i r HI Hr)).
  intros r0 Hr0 Hm0. destruct (Inv_torn_down s i r HI Hr) as (_ & Hr' & _).
  rewrite Hr' in Hr0. injection Hr0 as <-. discriminate.
Qed.

Lemma agree_installed (c : config) (id : string) (o : opts) (s : state) :
  agree_except (length (records s)) s (installed c id o s).
Proof.
  split; [| split]; [| reflexivity | reflexivity].
  intros j Hne. unfold installed. cbn [records with_connections with_records].
  apply agree_records_snoc, Hne.
Qed.

Lemma agree_dialed (s : state) (i : nat) (r : conn) (o : ws_options) :
  agree_except i s (dialed i r o s).
Proof.
  split; [| split]; [| | reflexivity].
  - intros j Hne. unfold dialed. cbn [records upd_rec with_records with_sockets].
    apply agree_records_alter, Hne.
  - unfold dialed. cbn [sockets upd_rec with_records with_sockets].
    apply agree_sockets_snoc. reflexivity.
Qed.

Lemma tended_at_dialed (s : state) (i : nat) (r : conn) (o : ws_options) :
  records s !! i = Some r -> tended_at (dialed i r o s) i.
Proof.
  intros Hr r0 Hr0 _ Hst. exfalso. unfold dialed in Hr0, Hst.
  rewrite record_state_socket_state in Hst.
  cbn [records sockets upd_rec with_records with_sockets] in Hr0, Hst.
  rewrite (lookup_alter_same _ _ _ _ Hr) in Hr0. injection Hr0 as <-.
  cbn [rec_ws set_ws] in Hst. rewrite socket_state_snoc_new in Hst. discriminate.
Qed.

Lemma agree_scheduled (s : state) (i : nat) (r : conn) :
  Inv s -> records s !! i = Some r -> agree_except i s (scheduled E i r s).
Proof.
  intros HI Hr. unfold scheduled. split; [| split].
  - intros j Hne. cbn [records upd_rec with_records with_timers with_draws].
    rewrite !agree_records_alter by exact Hne. rewrite cleared_records. reflexivity.
  - intros w k _. cbn [sockets upd_rec with_records with_timers with_draws].
    rewrite cleared_sockets. reflexivity.
  - intros t tm Hne. cbn [timers upd_rec with_records with_timers with_draws].
    etransitivity; [apply (agree_timers_snoc i); [reflexivity | exact Hne] |].
    apply (agree_timers_cleared i (rec_reconnectTimer r) s); [| exact Hne].
    intros t0 tm0 Hrt Ht0.
    destruct (inv_rtimer s HI i r t0 Hr Hrt) as (tm' & Ht' & Hown & _). congruence.
Qed.

Lemma tended_at_scheduled (s : state) (i : nat) (r : conn) :
  records s !! i = Some r -> tended_at (scheduled E i r s) i.
Proof.
  intros Hr r0 Hr0 _ _. unfold scheduled in *.
  cbn [records timers upd_rec with_records with_timers with_draws] in *.
  rewrite cleared_records in Hr0.
  rewrite (lookup_alter_same _ _ _ _ (lookup_alter_same _ _ _ _ Hr)) in Hr0.
  injection Hr0 as <-. eexists. split; [reflexivity |].
  eexists. unfold scheduled.
  cbn [records timers upd_rec with_records with_timers with_draws].
  split; [apply list_lookup_middle; rewrite cleared_timers_length; reflexivity |].
  repeat split.
Qed.

Lemma kept_connected (s : state) (i : nat) (r : conn) (o : option ws_options)
    (s0 : state) :
  Inv s0 -> tended s0 -> agree_except i s0 s ->
  Inv s -> records s !! i = Some r -> rec_manualClose r = false -> at_rest s i ->
  kept (connected E i r o s).
Proof.
  intros HI0 HT0 Hag HI Hr Hm Hrest.
  split; [apply Inv_connected; assumption |].
  unfold connected. destruct (ws_ctor_error E (rec_url r)).
  - apply (tended_focus s0 _ i HI0 HT0).
    + apply (agree_trans i s0 s _ Hag). apply agree_scheduled; assumption.
    + apply tended_at_scheduled, Hr.
  - apply (tended_focus s0 _ i HI0 HT0).
    + apply (agree_trans i s0 s _ Hag). apply agree_dialed.
    + apply tended_at_dialed, Hr.
Qed.

Lemma kept_closeConnection (id : string) (remove silent : bool) :
  keeps kept (closeConnection id remove silent).
Proof.
  intros s [HI HT]. split; [apply Inv_closeConnection, HI |].
  unfold exec. destruct (assoc_get id (connections s)) as [i |] eqn:Hi.
  - destruct (inv_entry s HI id i Hi) as (r & Hr & _).
    rewrite (closeConnection_run id remove silent s i r Hi Hr). cbn [fst snd].
    pose proof (tended_torn_down s i r HI Hr HT) as HT'.
    destruct remove; [| exact HT'].
    revert HT'. apply tended_same; reflexivity.
  - rewrite (closeConnection_absent id remove silent s Hi). exact HT.
Qed.

Lemma kept_openConnection (id : string) (o : opts) :
  keeps kept (openConnection E id o).
Proof.
  intros s [HI HT]. rewrite openConnection_exec.
  destruct (kept_closeConnection id false true s (conj HI HT)) as [HI1 HT1].
  destruct (closeConnection_post id false true s HI) as (_ & Hman & _).
  destruct (Inv_installed _ (node_config E) id o HI1 Hman) as (HI2 & Hn & Hrest).
  apply (kept_connected _ _ _ _ (exec (closeConnection id false true) s));
    auto using agree_installed.
Qed.

Ltac kept_structure :=
  repeat first
    [ apply keeps_ret | apply keeps_emit | apply keeps_gets
    | apply kept_closeConnection | apply kept_openConnection
    | apply keeps_for_each; intros
    | apply keeps_bind; [| intros]
    | match goal with |- keeps _ (match ?x with _ => _ end) => destruct x end ].

Lemma kept_on_input (m : msg) : keeps kept (on_input E m).
Proof.
  unfold on_input, sendTo, on_command, throw, ack, listState.
  destruct (msg_websocketId m) as [wsid |]; kept_structure.
Qed.

Lemma kept_on_node_close : keeps kept on_node_close.
Proof. unfold on_node_close. kept_structure. Qed.

Lemma tended_opened (s : state) (w : nat) (k : socket) (r : conn) :
  Inv s -> sockets s !! w = Some k -> ws_readyState k = CONNECTING ->
  records s !! ws_rec k = Some r -> tended s ->
  tended (opened w (ws_rec k) r s).
Proof.
  intros HI Hk Hrs Hr HT.
  pose proof (Inv_opened s w k r HI Hk Hrs Hr) as HI'.
  apply (tended_focus s _ (ws_rec k) HI HT).
  - unfold opened.
    set (s0 := upd_rec (ws_rec k) (set_reconnectAttempts 0%nat)
                 (with_sockets (alter (set_readyState OPEN) w) s)).
    assert (agree_except (ws_rec k) s s0) as Hag0.
    { split; [| split]; [| | reflexivity].
      - intros j Hne. apply agree_records_alter, Hne.
      - apply agree_sockets_alter. intros k0 Hk0. congruence. }
    assert (agree_except (ws_rec k) s0 (cleared (rec_pingTimer r) s0)) as Hag1.
    { apply agree_cleared. intros t tm Hpt Ht.
      destruct (inv_ptimer s HI _ r t Hr Hpt) as (tm' & Ht' & Hown & _).
      cbn [timers s0 upd_rec with_records with_sockets] in Ht. congruence. }
    destruct (0 <? rec_pingInterval r);
      [| exact (agree_trans _ _ _ _ Hag0 Hag1)].
    apply (agree_trans _ _ _ _ (agree_trans _ _ _ _ Hag0 Hag1)).
    split; [| split]; [| reflexivity |].
    + intros j Hne. apply agree_records_alter, Hne.
    + apply agree_timers_snoc. reflexivity.
  - intros r0 Hr0 _ Hst. exfalso.
    assert (sockets (opened w (ws_rec k) r s) !! w = Some (set_readyState OPEN k))
      as Hk' by (rewrite opened_sockets; apply lookup_alter_same, Hk).
    destruct (live_has_record _ w _ HI' Hk' ltac:(discriminate))
      as (r1 & Hr1 & _ & Hst1).
    cbn [ws_rec set_readyState ws_readyState] in Hr1, Hst1. congruence.
Qed.

Lemma tended_closed (s : state) (w : nat) (k : socket) (r : conn) :
  Inv s -> sockets s !! w = Some k -> ws_readyState k <> CLOSED ->
  records s !! ws_rec k = Some r -> tended s ->
  tended (closed E w (ws_rec k) r s).
Proof.
  intros HI Hk Hlive Hr HT.
  destruct (Inv_socket_closed s w k r HI Hk Hlive Hr) as (HI1 & Hrest1).
  unfold closed.
  set (s1 := cleared (rec_pingTimer r)
               (with_sockets (alter (set_readyState CLOSED) w) s)) in *.
  assert (agree_except (ws_rec k) s s1) as Hag.
  { apply (agree_trans _ _ (with_sockets (alter (set_readyState CLOSED) w) s)).
    - split; [| split]; [reflexivity | | reflexivity].
      apply agree_sockets_alter. intros k0 Hk0. congruence.
    - apply agree_cleared. intros t tm Hpt Ht.
      destruct (inv_ptimer s HI _ r t Hr Hpt) as (tm' & Ht' & Hown & _).
      cbn [timers with_sockets] in Ht. congruence. }
  assert (records s1 !! ws_rec k = Some r) as Hr1
    by (unfold s1; rewrite cleared_records; exact Hr).
  destruct (rec_manualClose r) eqn:Hm.
  - apply (tended_focus s _ (ws_rec k) HI HT Hag).
    intros r0 Hr0 Hm0. congruence.
  - apply (tended_focus s _ (ws_rec k) HI HT).
    + apply (agree_trans _ _ _ _ Hag). apply agree_scheduled; assumption.
    + apply tended_at_scheduled, Hr1.
Qed.

Lemma tended_closing (s : state) (w : nat) (k : socket) :
  Inv s -> sockets s !! w = Some k -> is_up (ws_readyState k) = true -> tended s ->
  tended (with_sockets (alter (set_readyState CLOSING) w) s).
Proof.
  intros HI Hk Hup HT.
  pose proof (Inv_closing s w k HI Hk Hup) as HI'.
  apply (tended_focus s _ (ws_rec k) HI HT).
  - split; [| split]; [reflexivity | | reflexivity].
    apply agree_sockets_alter. intros k0 Hk0. congruence.
  - intros r0 Hr0 _ Hst. exfalso.
    assert (sockets (with_sockets (alter (set_readyState CLOSING) w) s) !! w
            = Some (set_readyState CLOSING k)) as Hk'
      by (apply lookup_alter_same, Hk).
    destruct (live_has_record _ w _ HI' Hk' ltac:(discriminate))
      as (r1 & Hr1 & _ & Hst1).
    cbn [ws_rec set_readyState ws_readyState] in Hr1, Hst1. congruence.
Qed.

Lemma kept_step (e : event) (s s' : state) (out : list output) :
  kept s -> step E e s = Some (s', out) -> kept s'.
Proof.
  intros [HI HT] Hstep.
  assert (Inv s') as HI' by apply (step_Inv E e s s' out HI Hstep).
  destruct e as [m | | w | w data b | w code reason | w msg code
                | w sc hdrs body | w | t]; simpl in Hstep.
  - apply run_handler_exec in Hstep as [-> _]. apply kept_on_input. split; assumption.
  - apply run_handler_exec in Hstep as [-> _]. apply kept_on_node_close.
    split; assumption.
  - split; [exact HI' |].
    destruct (sockets s !! w) as [k |] eqn:Hk;
      [| unfold on_socket in Hstep; rewrite Hk in Hstep; discriminate].
    destruct (readyState_eqb (ws_readyState k) CONNECTING) eqn:Hst;
      [| unfold on_socket in Hstep; rewrite Hk, Hst in Hstep; discriminate].
    assert (ws_readyState k = CONNECTING) as Hrs
      by (destruct (ws_readyState k); try discriminate; reflexivity).
    destruct (inv_live s HI w k Hk ltac:(congruence)) as (r & Hr & _).
    change (step E (WsOpened w) s = Some (s', out)) in Hstep.
    rewrite (step_opened E s w k r Hk Hrs Hr) in Hstep. injection Hstep as <- _.
    apply tended_opened; assumption.
  - split; [exact HI' |].
    destruct (sockets s !! w) as [k |]; [| discriminate].
    destruct (ws_readyState k); try discriminate;
      apply run_handler_exec in Hstep as [-> _];
      unfold exec, on_message, with_rec; munfold;
      destruct (records s !! ws_rec k); exact HT.
  - split; [exact HI' |].
    destruct (sockets s !! w) as [k |] eqn:Hk;
      [| unfold on_socket in Hstep; rewrite Hk in Hstep; discriminate].
    destruct (readyState_eqb (ws_readyState k) CLOSED) eqn:Hst;
      [unfold on_socket in Hstep; rewrite Hk, Hst in Hstep; discriminate |].
    assert (ws_readyState k <> CLOSED) as Hlive
      by (intros Hc; rewrite Hc in Hst; discriminate).
    destruct (inv_live s HI w k Hk Hlive) as (r & Hr & _).
    change (step E (WsClosed w code reason) s = Some (s', out)) in Hstep.
    rewrite (step_closed E s w k r code reason Hk Hlive Hr) in Hstep.
    injection Hstep as <- _. apply tended_closed; assumption.
  - split; [exact HI' |].
    destruct (sockets s !! w) as [k |]; [| discriminate].
    destruct (readyState_eqb (ws_readyState k) CLOSED); [discriminate |].
    apply run_handler_exec in Hstep as [-> _].
    unfold exec, on_error, with_rec. munfold.
    destruct (records s !! ws_rec k); exact HT.
  - split; [exact HI' |].
    destruct (sockets s !! w) as [k |]; [| discriminate].
    destruct (ws_readyState k); try discriminate;
      apply run_handler_exec in Hstep as [-> _];
      unfold exec, on_unexpected_response, with_rec; munfold;
      destruct (records s !! ws_rec k); exact HT.
  - split; [exact HI' |]. unfold on_socket in Hstep.
    destruct (sockets s !! w) as [k |] eqn:Hk; [| discriminate].
    destruct (is_up (ws_readyState k)) eqn:Hup; [| discriminate].
    injection Hstep as <- _. apply (tended_closing s w k); assumption.
  - destruct (timers s !! t) as [tm |] eqn:Ht; [| discriminate].
    destruct (tm_pending tm) eqn:Hp; [| discriminate].
    destruct (tm_kind tm) eqn:Hkd.
    + destruct (Inv_fired s t tm HI Ht Hp Hkd) as (r & Hr & Hm & HI1 & Hrest).
      change (match tm_kind tm with
              | ReconnectTimer => _
              | PingTimer => _
              end) with (match tm_kind tm with
                         | ReconnectTimer =>
                             run_handler
                               (modify (with_timers (alter (set_pending false) t));;
                                connect E (tm_rec tm) None) s
                         | PingTimer => run_handler (on_ping (tm_rec tm)) s
                         end) in Hstep.
      pose proof (step_reconnect_timer E s t tm r Ht Hp Hkd Hr Hm) as Hs.
      simpl in Hs. rewrite Ht, Hp, Hkd in Hs. rewrite Hs in Hstep.
      injection Hstep as <- _.
      apply (kept_connected (cleared (Some t) s) (tm_rec tm) r None s HI HT);
        [| exact HI1 | exact Hr | exact Hm | exact Hrest].
      apply agree_cleared. intros t0 tm0 [= <-] Ht0. congruence.
    + split; [exact HI' |].
      apply run_handler_exec in Hstep as [-> _].
      unfold exec, on_ping, with_rec. munfold.
      destruct (records s !! tm_rec tm) as [r |]; [| exact HT]. munfold.
      destruct (record_ws s r) as [[w k] |]; [| exact HT].
      destruct (readyState_eqb (ws_readyState k) OPEN); exact HT.
Qed.

Lemma kept_run (es : list event) (s s' : state) (out : list output) :
  kept s -> run E es s = Some (s', out) -> kept s'.
Proof.
  revert s out. induction es as [| e es IH]; intros s out HS Hrun; simpl in Hrun.
  - injection Hrun as <- _. exact HS.
  - destruct (step E e s) as [[s1 o1] |] eqn:Hstep; [| discriminate].
    destruct (run E es s1) as [[s2 o2] |] eqn:Hrest; [| discriminate].
    injection Hrun as <- _. apply (IH s1 o2); [| exact Hrest].
    apply (kept_step e s s1 o1 HS Hstep).
Qed.

Lemma kept_initial : kept (initial_state E).
Proof.
  unfold initial_state. change (kept (exec (node_start E) empty_state)).
  assert (keeps kept (node_start E)) as Hk.
  { unfold node_start. kept_structure. }
  apply Hk. split; [apply Inv_empty |]. intros i r Hr. discriminate.
Qed.

(** X24: no connection is forgotten.  In a store that the node can
    reach, an entry that the user has not closed and whose transport is
    closed (or was never made) has a reconnect timer pending: such an entry
    is connecting, open, closing, or waiting to be dialed again. *)
Theorem no_connection_is_forgotten (s : state) (id : string) (r : conn) :
  reachable E s -> entry id s = Some r -> rec_manualClose r = false ->
  record_state s r = CLOSED ->
  exists i t, assoc_get id (connections s) = Some i /\
              rec_reconnectTimer r = Some t /\ pending s ReconnectTimer i t.
Proof.
  intros (es & out & Hrun) He Hm Hst.
  destruct (kept_run es _ s out kept_initial Hrun) as [HI HT].
  unfold entry in He. destruct (assoc_get id (connections s)) as [i |]; [| discriminate].
  cbn [mbind option_bind] in He.
  destruct (HT i r He Hm Hst) as (t & Hrt & Hp). exists i, t. auto.
Qed.

End Tended.
(** ** The further properties on concrete runs *)


Lemma one_done_per_message_witness :
  exists s' pre d,
    step Demo.E0 (control Scene.create_without_url)
      (Demo.state_after Demo.E0 Demo.one_open)
    = Some (s', (pre ++ [Done d])%list) /\
    Forall not_done pre.
Proof.
  destruct (one_done_per_message Demo.E0
              {| msg_websocketId := Some "CMD"; msg_payload := Scene.create_without_url |}
              (Demo.state_after Demo.E0 Demo.one_open))
    as (s' & pre & d & Hstep & Hpre & _).
  exists s', pre, d. split; [exact Hstep | exact Hpre].
Defined.

Lemma incomplete_command_is_refused_witness :
  step Demo.E0 (control Scene.create_without_url)
    (Demo.state_after Demo.E0 Demo.one_open)
  = Some (Demo.state_after Demo.E0 Demo.one_open,
          [NodeError "create requires id and url";
           Done (Some "create requires id and url")]).
Proof.
  apply (proj1 (incomplete_command_is_refused Demo.E0 Scene.create_without_url
                  (Demo.state_after Demo.E0 Demo.one_open))).
  - reflexivity.
  - right. reflexivity.
Defined.



Lemma closeAll_silences_the_pool_witness :
  let s := Demo.state_after Demo.E0 Demo.two_open in
  let s0 := Demo.state_after Demo.E0
              (Demo.two_open ++ [control (Scene.plain "closeAll")]) in
  let s1 := Demo.state_after Demo.E0
              (Demo.two_open ++ [control (Scene.plain "closeAll");
                                 WsClosed 0 1000 ""; WsClosed 1 1000 ""]) in
  connections s0 = connections s /\ quiescent s1.
Proof.
  intros s s0 s1.
  pose proof (closeAll_silences_the_pool Demo.E0 (Scene.plain "closeAll") s s0) as H.
  edestruct H as [Hkeys Hrest].
  - apply reachable_after. eexists. eexists. vm_compute. reflexivity.
  - reflexivity.
  - vm_compute. reflexivity.
  - split; [exact Hkeys |].
    edestruct (Hrest [WsClosed 0 1000 ""; WsClosed 1 1000 ""] s1) as [_ Hq].
    + intros e [<- | [<- | []]]; reflexivity.
    + vm_compute. reflexivity.
    + exact Hq.
Defined.

Lemma node_close_empties_the_pool_witness :
  let s := Demo.state_after Demo.E0 Demo.two_open in
  let s0 := Demo.state_after Demo.E0 (Demo.two_open ++ [NodeClosed]) in
  let s1 := Demo.state_after Demo.E0
              (Demo.two_open ++ [NodeClosed; WsClosed 0 1000 ""; WsClosed 1 1000 ""]) in
  connections s0 = [] /\ quiescent s1.
Proof.
  intros s s0 s1.
  pose proof (node_close_empties_the_pool Demo.E0 s s0) as H.
  edestruct H as (Hempty & _ & Hrest).
  - apply reachable_after. eexists. eexists. vm_compute. reflexivity.
  - vm_compute. reflexivity.
  - split; [exact Hempty |].
    edestruct (Hrest [WsClosed 0 1000 ""; WsClosed 1 1000 ""] s1) as [_ Hq].
    + intros e [<- | [<- | []]]; reflexivity.
    + vm_compute. reflexivity.
    + exact Hq.
Defined.

Lemma calls_fit_the_transport_witness :
  Forall (legal_call (Demo.state_after Demo.E0 Demo.one_open))
    [WsSend 0 (JStr "hello"); Done None].
Proof.
  apply (calls_fit_the_transport Demo.E0 (Demo.send "a" (JStr "hello"))
           (Demo.state_after Demo.E0 Demo.one_open)
           (Demo.state_after Demo.E0 Demo.one_open)).
  vm_compute. reflexivity.
Defined.





Lemma settings_are_fixed_witness :
  exists r',
    records (Demo.state_after Demo.E0 Demo.closed_by_user) !! 0%nat = Some r' /\
    rec_url r' = "ws://x" /\ rec_pingInterval r' = 30000.
Proof.
  pose proof (fun out r => settings_are_fixed Demo.E0 [Demo.command "close" "a"]
                             (Demo.state_after Demo.E0 Demo.one_open)
                             (Demo.state_after Demo.E0 Demo.closed_by_user)
                             out 0 r) as H.
  edestruct H as (r' & Hr' & _ & Hurl & _ & _ & _ & Hping).
  - vm_compute. reflexivity.
  - vm_compute. reflexivity.
  - exists r'. split; [exact Hr' |]. split; [exact Hurl | exact Hping].
Defined.

Lemma one_timer_of_each_kind_witness :
  let s := Demo.state_after Demo.E0 Scene.rejected_url in
  pending s ReconnectTimer 0 0 /\
  exists r, records s !! 0%nat = Some r /\ rec_manualClose r = false /\
            record_state s r = CLOSED.
Proof.
  intros s.
  assert (pending s ReconnectTimer 0 0) as Hp.
  { eexists. split; [vm_compute; reflexivity |]. repeat split. }
  split; [exact Hp |].
  destruct (one_timer_of_each_kind Demo.E0 s) as [_ Hrec].
  - apply reachable_after. eexists. eexists. vm_compute. reflexivity.
  - destruct (Hrec 0%nat 0%nat Hp) as (r & Hr & Hm & Hst & _).
    exists r. split; [exact Hr |]. split; [exact Hm | exact Hst].
Defined.

Lemma traffic_changes_nothing_witness :
  Demo.state_after Demo.E0 (Demo.one_open ++ [WsMessage 0 (DataStr "hi") false])
  = Demo.state_after Demo.E0 Demo.one_open.
Proof.
  eapply (traffic_changes_nothing Demo.E0 (WsMessage 0 (DataStr "hi") false)).
  - exact I.
  - vm_compute. reflexivity.
Defined.


Lemma close_is_called_once_witness :
  exists s' out,
    run Demo.E0 Scene.closed_twice (Demo.state_after Demo.E0 Demo.one_open)
    = Some (s', out) /\
    (closes 0 out <= 1)%nat.
Proof.
  eexists. eexists. split.
  - vm_compute. reflexivity.
  - eapply (fun k => proj1 (close_is_called_once Demo.E0 Scene.closed_twice
                              (Demo.state_after Demo.E0 Demo.one_open) _ _ 0 k)).
    vm_compute. reflexivity.
Defined.

Lemma basic_token_round_trip_witness :
  exists token,
    makeAuthHeader "user" "pass" = "Basic " ++ token /\
    base64_decode token = Some (utf8_encode "user:pass").
Proof.
  destruct (basic_token_round_trip "user" "pass") as (token & Hhead & Hdec & _).
  exists token. split; [exact Hhead | exact Hdec].
Defined.


Lemma initial_connections_are_opened_witness :
  map fst (connections (initial_state (Demo.platform Demo.cfg_tls))) = ["a"] /\
  exists r, entry "a" (initial_state (Demo.platform Demo.cfg_tls)) = Some r /\
            rec_url r = "wss://x" /\ rec_manualClose r = false.
Proof.
  destruct (initial_connections_are_opened (Demo.platform Demo.cfg_tls)
              [("a", Demo.tls_opts)]) as (Hkeys & Hin).
  - reflexivity.
  - repeat constructor. intros [].
  - split; [exact Hkeys |].
    destruct (Hin "a" Demo.tls_opts) as (r & Hr & (_ & Hurl & _) & Hm);
      [left; reflexivity |].
    exists r. split; [exact Hr |]. split; [exact Hurl | exact Hm].
Defined.

Lemma reconnect_restores_the_connection_witness :
  exists s3 pre r3,
    run Demo.E0 [WsClosed 0 1006 ""; TimerFired 1; WsOpened 1]
      (Demo.state_after Demo.E0 Demo.one_open)
    = Some (s3, (pre ++ [NodeSend {| websocketId := "a"; topic := "open";
                                    payload := PBool true;
                                    meta := MUrl "ws://x" |}])%list) /\
    entry "a" s3 = Some r3 /\ rec_ws r3 = Some 1%nat /\
    record_state s3 r3 = OPEN /\ rec_reconnectAttempts r3 = 0%nat.
Proof.
  pose proof (fun k r => reconnect_restores_the_connection Demo.E0
                           (Demo.state_after Demo.E0 Demo.one_open) 0 k r 1006 "")
    as H.
  edestruct H as (s3 & pre & r3 & Hrun & Hentry & Hws & Hst & Hatt & _).
  - apply reachable_after. eexists. eexists. vm_compute. reflexivity.
  - vm_compute. reflexivity.
  - reflexivity.
  - vm_compute. reflexivity.
  - reflexivity.
  - reflexivity.
  - exists s3, pre, r3. split; [exact Hrun |]. split; [exact Hentry |].
    split; [exact Hws |]. split; [exact Hst | exact Hatt].
Defined.

Lemma events_name_their_connection_witness :
  let s := Demo.state_after Demo.E0 Demo.one_open in
  exists w k r,
    sockets s !! w = Some k /\ records s !! ws_rec k = Some r /\ rec_id r = "a".
Proof.
  intros s.
  destruct (events_name_their_connection Demo.E0 (WsMessage 0 (DataStr "hi") false) s s
              [NodeSend {| websocketId := "a"; topic := "message";
                           payload := PValue (JStr "hi"); meta := MUrl "ws://x" |}]
              {| websocketId := "a"; topic := "message";
                 payload := PValue (JStr "hi"); meta := MUrl "ws://x" |})
    as [(Hcmd & _) | (w & k & r & _ & Hk & Hr & Hid & _)].
  - apply reachable_after. eexists. eexists. vm_compute. reflexivity.
  - vm_compute. reflexivity.
  - left. reflexivity.
  - discriminate.
  - exists w, k, r. split; [exact Hk |]. split; [exact Hr |]. symmetry. exact Hid.
Defined.

Lemma first_dial_uses_the_options_witness :
  exists k,
    sockets (exec (openConnection Demo.E0 "a" Demo.tls_opts) (initial_state Demo.E0))
      !! 0%nat = Some k /\
    wo_ca (ws_ctorOpts k) = Some "CA" /\
    wo_handshakeTimeout (ws_ctorOpts k) = Some 5000 /\
    wo_perMessageDeflate (ws_ctorOpts k) = Some false /\
    wo_agent (ws_ctorOpts k) = Some "http://proxy:3128".
Proof.
  destruct (first_dial_uses_the_options Demo.E0 "a" Demo.tls_opts (initial_state Demo.E0))
    as (k & Hk & _ & _ & Hca & _ & _ & _ & _ & _ & Hto & _ & _ & Hpmd & Hagent & _).
  - exists [], []. reflexivity.
  - reflexivity.
  - exists k. split; [exact Hk |]. split; [exact Hca |].
    split; [apply Hto; [reflexivity | discriminate] |].
    split; [apply Hpmd; reflexivity |].
    apply Hagent; [reflexivity | discriminate | reflexivity].
Defined.

Lemma no_connection_is_forgotten_witness :
  let s := Demo.state_after Demo.E0 Scene.rejected_url in
  exists i t,
    assoc_get "a" (connections s) = Some i /\ pending s ReconnectTimer i t.
Proof.
  intros s.
  pose proof (fun r => no_connection_is_forgotten Demo.E0 s "a" r) as H.
  edestruct H as (i & t & Hi & _ & Hp).
  - apply reachable_after. eexists. eexists. vm_compute. reflexivity.
  - vm_compute. reflexivity.
  - reflexivity.
  - vm_compute. reflexivity.
  - exists i, t. split; [exact Hi | exact Hp].
Defined.
